(** * CanvasEffect: realization of an effect node against a Direct2D device

    A shallow embedding of [winrt/lib/effects/CanvasEffect.cpp].  Effect
    objects live in a heap indexed by their address, so that an input slot
    of one effect can alias another effect (or the effect itself); member
    functions are state transformers over that heap.  Calls into Direct2D
    are recorded in a call log, the way a mock [ID2D1Effect] records them. *)

From Stdlib Require Import ZArith List Bool Lia.
From stdpp Require Import base option list gmap.

Local Open Scope Z_scope.

(** ** HRESULTs and exceptions *)

(** An HRESULT is a signed 32-bit value; the failure codes have the top bit
    set and are therefore negative. *)
Definition HRESULT := Z.

Definition S_OK : HRESULT := 0.
Definition E_NOTIMPL : HRESULT := 0x80004001 - 0x100000000.
Definition E_NOINTERFACE : HRESULT := 0x80004002 - 0x100000000.
Definition E_POINTER : HRESULT := 0x80004003 - 0x100000000.
Definition E_FAIL : HRESULT := 0x80004005 - 0x100000000.
Definition E_BOUNDS : HRESULT := 0x8000000B - 0x100000000.

Definition FAILED (hr : HRESULT) : bool := hr <? 0.
Definition SUCCEEDED (hr : HRESULT) : bool := 0 <=? hr.

(** Resource strings used to format error messages ([Strings::...]). *)
Inductive StringResource := EffectWrongInputType.

(** [WinStringBuilder::Format(fmt, i)]: the format and its argument. *)
Inductive WinString := Format (fmt : StringResource) (arg : nat).

(** What [ThrowHR] throws: an HRESULT and, optionally, a message. *)
Record HResultException := mkException {
  exn_hr : HRESULT;
  exn_message : option WinString
}.

(** ** Direct2D objects *)

Definition IID := nat.

(** The [IUnknown] identity of a device: two device wrappers denote the same
    device exactly when their identities are the same pointer. *)
Definition IUnknown := nat.

(** A realized [ID2D1Effect]. *)
Record ID2D1Effect := mkEffect {
  effect_instance : nat;
  effect_clsid : IID;
  effect_device : IUnknown
}.

Inductive ID2D1Image :=
| EffectOutput (r : ID2D1Effect)
| Bitmap (b : nat).

(** [deviceContext->GetDevice] followed by [device.As(&deviceIdentity)]
    yields [dc_identity]; querying any COM object for [IUnknown] cannot
    fail.  [dc_CreateEffect] is the HRESULT of [CreateEffect] for an effect
    id. *)
Record ID2D1DeviceContext := mkDeviceContext {
  dc_identity : IUnknown;
  dc_CreateEffect : IID -> HRESULT
}.

(** IEEE single-precision values are only passed through; they are kept as
    their bit patterns. *)
Definition Single := Z.

(** The overloads of [ID2D1Effect::SetValue] this file uses. *)
Inductive D2D1_VALUE :=
| Value_UINT32 (v : Z)
| Value_FLOAT (v : Single)
| Value_MATRIX_4X4_F (m : list Single).

Inductive D2DCall :=
| Call_CreateEffect (r : ID2D1Effect)
| Call_Release (r : ID2D1Effect)
| Call_SetValue (r : ID2D1Effect) (index : nat) (value : D2D1_VALUE)
| Call_SetInputCount (r : ID2D1Effect) (count : nat)
| Call_SetInput (r : ID2D1Effect) (index : nat) (image : ID2D1Image).

(** ** Property values *)

(** [Windows::Foundation::PropertyType] is an enumeration over integers; the
    [switch] in [SetProperties] compares the tag with three of its values. *)
Definition PropertyType := Z.
Definition PropertyType_UInt32 : PropertyType := 5.
Definition PropertyType_Single : PropertyType := 8.
Definition PropertyType_SingleArray : PropertyType := 1032.

(** An [IPropertyValue] is given by what its accessors answer: each returns
    an HRESULT and an out value.  [GetSingleArray] returns the array, whose
    length is the [size] out parameter. *)
Record IPropertyValue := mkPropertyValue {
  get_Type : HRESULT * PropertyType;
  GetUInt32 : HRESULT * Z;
  GetSingle : HRESULT * Single;
  GetSingleArray : HRESULT * list Single
}.

(** ** Inputs *)

(** The address of a [CanvasEffect] in the heap. *)
Abbreviation EffectRef := nat (only parsing).

(** The objects that implement [ICanvasImageInternal]: another
    [CanvasEffect], or some other image source (a bitmap, say) whose
    [GetD2DImage] either throws [hr] or hands out [image]. *)
Inductive ICanvasImageInternal :=
| Internal_CanvasEffect (e : EffectRef)
| Internal_Image (hr : HRESULT) (image : ID2D1Image).

(** What an input slot can point to: an object that implements
    [ICanvasImageInternal], or one whose [QueryInterface] for it answers
    [hr] and no pointer. *)
Inductive IEffectInput :=
| Input_Internal (x : ICanvasImageInternal)
| Input_Foreign (hr : HRESULT).

Definition As_ICanvasImageInternal (input : IEffectInput)
  : HRESULT * option ICanvasImageInternal :=
  match input with
  | Input_Internal x => (S_OK, Some x)
  | Input_Foreign hr => (hr, None)
  end.

(** ** Vector *)

(** Modelled from the spec: [Vector<T>] (Vector.h is not among the sources),
    an ordered collection of possibly-null references, of fixed or growable
    length, with one changed flag for the whole sequence: the flag starts
    cleared, any write sets it, and reads leave it alone. *)
Record Vector (T : Type) := mkVector {
  InternalVector : list (option T);
  IsChanged : bool;
  IsFixedSize : bool
}.
Arguments mkVector {T}.
Arguments InternalVector {T}.
Arguments IsChanged {T}.
Arguments IsFixedSize {T}.

Definition Make_Vector {T} (size : nat) (isFixedSize : bool) : Vector T :=
  mkVector (replicate size None) false isFixedSize.

Definition SetChanged {T} (changed : bool) (v : Vector T) : Vector T :=
  mkVector (InternalVector v) changed (IsFixedSize v).

(** Modelled from the spec: the write operation of [Vector<T>].  The
    reference must be non-empty and the index within the sequence, or one
    past the end of a growable sequence, which it then extends; every
    successful write marks the whole sequence changed. *)
Definition Vector_SetAt {T} (index : nat) (item : option T) (v : Vector T)
  : HRESULT * Vector T :=
  match item with
  | None => (E_POINTER, v)
  | Some _ =>
      if (index <? length (InternalVector v))%nat then
        (S_OK, mkVector (<[index := item]> (InternalVector v)) true (IsFixedSize v))
      else if negb (IsFixedSize v) && (index =? length (InternalVector v))%nat then
        (S_OK, mkVector (InternalVector v ++ [item]) true (IsFixedSize v))
      else (E_BOUNDS, v)
  end.

(** ** The effect object and the heap *)

Record CanvasEffect := mkCanvasEffect {
  m_effectId : IID;
  m_properties : Vector IPropertyValue;
  m_inputs : Vector IEffectInput;
  m_previousDeviceIdentity : option IUnknown;
  m_resource : option ID2D1Effect
}.

Definition with_properties (p : Vector IPropertyValue) (n : CanvasEffect) :=
  mkCanvasEffect (m_effectId n) p (m_inputs n)
    (m_previousDeviceIdentity n) (m_resource n).
Definition with_inputs (i : Vector IEffectInput) (n : CanvasEffect) :=
  mkCanvasEffect (m_effectId n) (m_properties n) i
    (m_previousDeviceIdentity n) (m_resource n).
Definition with_previousDeviceIdentity (d : option IUnknown) (n : CanvasEffect) :=
  mkCanvasEffect (m_effectId n) (m_properties n) (m_inputs n) d (m_resource n).
Definition with_resource (r : option ID2D1Effect) (n : CanvasEffect) :=
  mkCanvasEffect (m_effectId n) (m_properties n) (m_inputs n)
    (m_previousDeviceIdentity n) r.

(** The program state: the effect objects by address, the number of
    [ID2D1Effect] instances handed out so far, and the Direct2D calls made
    so far, oldest first. *)
Record World := mkWorld {
  heap : gmap nat CanvasEffect;
  allocated : nat;
  d2d_calls : list D2DCall
}.

(** ** Computations *)

(** A member function either returns, or throws with the state it had
    reached, or dereferences a null or dangling pointer ([Fault]), or has
    not finished within the recursion budget ([OutOfFuel]). *)
Inductive outcome (A : Type) :=
| Ret (a : A) (w : World)
| Throw (e : HResultException) (w : World)
| Fault
| OutOfFuel.
Arguments Ret {A}.
Arguments Throw {A}.
Arguments Fault {A}.
Arguments OutOfFuel {A}.

Definition M (A : Type) := World -> outcome A.

Definition ret {A} (a : A) : M A := fun w => Ret a w.

Definition bind {A B} (m : M A) (k : A -> M B) : M B :=
  fun w =>
    match m w with
    | Ret a w' => k a w'
    | Throw e w' => Throw e w'
    | Fault => Fault
    | OutOfFuel => OutOfFuel
    end.

Declare Scope m_scope.
Delimit Scope m_scope with m.
Notation "x <- m ;; k" := (bind m (fun x => k))
  (at level 100, m at next level, right associativity) : m_scope.
Notation "m ;; k" := (bind m (fun _ => k))
  (at level 100, right associativity) : m_scope.
Local Open Scope m_scope.

Definition fault {A} : M A := fun _ => Fault.

Definition ThrowHR {A} (hr : HRESULT) : M A :=
  fun w => Throw (mkException hr None) w.

Definition ThrowHR_message {A} (hr : HRESULT) (message : WinString) : M A :=
  fun w => Throw (mkException hr (Some message)) w.

Definition ThrowIfFailed (hr : HRESULT) : M unit :=
  if FAILED hr then ThrowHR hr else ret tt.

(** Modelled from the spec: [CheckInPointer] (ErrorHandling.h is not among
    the sources) rejects an empty reference with NullReference. *)
Definition CheckInPointer {A} (p : option A) : M A :=
  match p with
  | Some a => ret a
  | None => ThrowHR E_POINTER
  end.

(** [*this]: reading through a dangling pointer is a fault. *)
Definition deref (this : EffectRef) : M CanvasEffect :=
  fun w =>
    match heap w !! this with
    | Some n => Ret n w
    | None => Fault
    end.

Definition set_node (this : EffectRef) (n : CanvasEffect) (w : World) : World :=
  mkWorld (<[this := n]> (heap w)) (allocated w) (d2d_calls w).

Definition add_call (c : D2DCall) (w : World) : World :=
  mkWorld (heap w) (allocated w) (d2d_calls w ++ [c]).

Definition modify (this : EffectRef) (f : CanvasEffect -> CanvasEffect) : M unit :=
  fun w =>
    match heap w !! this with
    | Some n => Ret tt (set_node this (f n) w)
    | None => Fault
    end.

Definition record_call (c : D2DCall) : M unit :=
  fun w => Ret tt (add_call c w).

(** A new [ID2D1Effect] instance, distinct from all earlier ones. *)
Definition new_effect (effectId : IID) (device : IUnknown) : M ID2D1Effect :=
  fun w =>
    Ret (mkEffect (allocated w) effectId device)
        (mkWorld (heap w) (S (allocated w)) (d2d_calls w)).

(** [m_resource->]: a null [m_resource] cannot be called through. *)
Definition resource (this : EffectRef) : M ID2D1Effect :=
  n <- deref this ;;
  match m_resource n with
  | Some r => ret r
  | None => fault
  end.

(** [m_resource.Reset()]: drops the reference, which releases the effect. *)
Definition Reset_resource (this : EffectRef) : M unit :=
  n <- deref this ;;
  match m_resource n with
  | Some r => record_call (Call_Release r) ;; modify this (with_resource None)
  | None => ret tt
  end.

(** The [unsigned int] a [size_t] is cast to. *)
Definition to_unsigned_int (size : nat) : nat :=
  Z.to_nat (Z.of_nat size mod 2 ^ 32).

(** ** Direct2D as seen from the effect *)

(** How the realized effects answer: the HRESULT of [SetValue] for a
    property index and value, and of [QueryInterface] for [ID2D1Image]. *)
Record Direct2D := mkDirect2D {
  SetValue_hr : ID2D1Effect -> nat -> D2D1_VALUE -> HRESULT;
  As_ID2D1Image_hr : ID2D1Effect -> HRESULT
}.

Section Realization.

Variable d2d : Direct2D.

(** [ThrowIfFailed(m_resource->SetValue(i, value))] *)
Definition D2D_SetValue (this : EffectRef) (i : nat) (value : D2D1_VALUE) : M unit :=
  r <- resource this ;;
  record_call (Call_SetValue r i value) ;;
  ThrowIfFailed (SetValue_hr d2d r i value).

(** [deviceContext->CreateEffect(m_effectId, &m_resource)]: on success a
    new effect instance is stored in [m_resource]. *)
Definition D2D_CreateEffect (this : EffectRef) (dc : ID2D1DeviceContext) : M HRESULT :=
  n <- deref this ;;
  let hr := dc_CreateEffect dc (m_effectId n) in
  if FAILED hr then ret hr
  else
    r <- new_effect (m_effectId n) (dc_identity dc) ;;
    record_call (Call_CreateEffect r) ;;
    modify this (with_resource (Some r)) ;;
    ret hr.

(** ** CanvasEffect::SetProperties (lines 162-226) *)

Definition property_at (this : EffectRef) (i : nat) : M (option IPropertyValue) :=
  n <- deref this ;;
  match InternalVector (m_properties n) !! i with
  | Some slot => ret slot
  | None => fault
  end.

(** The [switch (propertyType)] on a non-null [properties[i]]. *)
Definition SetProperty (this : EffectRef) (i : nat) (p : IPropertyValue) : M unit :=
  ThrowIfFailed (get_Type p).1 ;;
  let propertyType := (get_Type p).2 in
  if propertyType =? PropertyType_UInt32 then
    ThrowIfFailed (GetUInt32 p).1 ;;
    D2D_SetValue this i (Value_UINT32 (GetUInt32 p).2)
  else if propertyType =? PropertyType_Single then
    ThrowIfFailed (GetSingle p).1 ;;
    D2D_SetValue this i (Value_FLOAT (GetSingle p).2)
  else if propertyType =? PropertyType_SingleArray then
    ThrowIfFailed (GetSingleArray p).1 ;;
    let value := (GetSingleArray p).2 in
    let size := length value in
    if (size =? 16)%nat then D2D_SetValue this i (Value_MATRIX_4X4_F value)
    else ThrowHR E_NOTIMPL
  else ThrowHR E_NOTIMPL.

(** The [for] loop, with [remaining = propertiesSize - i] iterations to go. *)
Fixpoint SetProperties_from (this : EffectRef) (remaining i : nat) : M unit :=
  match remaining with
  | O => ret tt
  | S remaining' =>
      slot <- property_at this i ;;
      match slot with
      | None => ThrowHR E_POINTER
      | Some p => SetProperty this i p
      end ;;
      SetProperties_from this remaining' (S i)
  end.

Definition SetProperties (this : EffectRef) : M unit :=
  n <- deref this ;;
  let propertiesSize := to_unsigned_int (length (InternalVector (m_properties n))) in
  SetProperties_from this propertiesSize 0.

(** ** CanvasEffect::GetD2DImage (lines 37-102) *)

(** Lines 42-55: compare the device identity with the previous one. *)
Definition CheckDevice (this : EffectRef) (dc : ID2D1DeviceContext) : M bool :=
  let deviceIdentity := Some (dc_identity dc) in
  n <- deref this ;;
  if decide (deviceIdentity ≠ m_previousDeviceIdentity n) then
    modify this (with_previousDeviceIdentity deviceIdentity) ;;
    Reset_resource this ;;
    ret true
  else ret false.

(** Lines 57-60: create the resource if there is none. *)
Definition EnsureResource (this : EffectRef) (dc : ID2D1DeviceContext) : M unit :=
  n <- deref this ;;
  match m_resource n with
  | None => hr <- D2D_CreateEffect this dc ;; ThrowIfFailed hr
  | Some _ => ret tt
  end.

(** Lines 62-67: apply the properties if a change is detected. *)
Definition ApplyProperties (this : EffectRef) (wasRecreated : bool) : M unit :=
  n <- deref this ;;
  if wasRecreated || IsChanged (m_properties n) then
    SetProperties this ;;
    modify this (fun n => with_properties (SetChanged false (m_properties n)) n)
  else ret tt.

Definition input_at (this : EffectRef) (i : nat) : M (option IEffectInput) :=
  n <- deref this ;;
  match InternalVector (m_inputs n) !! i with
  | Some slot => ret slot
  | None => fault
  end.

(** [internalInput->GetD2DImage(deviceContext)], a virtual call: [realize]
    stands for [CanvasEffect::GetD2DImage] itself. *)
Definition input_GetD2DImage
    (realize : EffectRef -> option ID2D1DeviceContext -> M ID2D1Image)
    (internalInput : option ICanvasImageInternal)
    (deviceContext : option ID2D1DeviceContext) : M ID2D1Image :=
  match internalInput with
  | None => fault
  | Some (Internal_CanvasEffect e) => realize e deviceContext
  | Some (Internal_Image hr image) => ThrowIfFailed hr ;; ret image
  end.

(** Lines 77-94: one iteration of the loop over the inputs.  The image is
    produced first, then [SetInput] is called on [m_resource]. *)
Definition SetInput_at
    (realize : EffectRef -> option ID2D1DeviceContext -> M ID2D1Image)
    (this : EffectRef) (dc : ID2D1DeviceContext) (i : nat) : M unit :=
  slot <- input_at this i ;;
  match slot with
  | None => ThrowHR E_POINTER
  | Some input =>
      let (hr, internalInput) := As_ICanvasImageInternal input in
      (if hr =? E_NOINTERFACE then
         ThrowHR_message hr (Format EffectWrongInputType i)
       else ThrowIfFailed hr) ;;
      image <- input_GetD2DImage realize internalInput (Some dc) ;;
      r <- resource this ;;
      record_call (Call_SetInput r i image)
  end.

(** Lines 75-95, with [remaining = inputsSize - i] iterations to go. *)
Fixpoint SetInputs_from
    (realize : EffectRef -> option ID2D1DeviceContext -> M ID2D1Image)
    (this : EffectRef) (dc : ID2D1DeviceContext) (remaining i : nat) : M unit :=
  match remaining with
  | O => ret tt
  | S remaining' =>
      SetInput_at realize this dc i ;;
      SetInputs_from realize this dc remaining' (S i)
  end.

(** Lines 72-96: the body of the inputs branch. *)
Definition SetInputs
    (realize : EffectRef -> option ID2D1DeviceContext -> M ID2D1Image)
    (this : EffectRef) (dc : ID2D1DeviceContext) : M unit :=
  n <- deref this ;;
  let inputsSize := to_unsigned_int (length (InternalVector (m_inputs n))) in
  r <- resource this ;;
  record_call (Call_SetInputCount r inputsSize) ;;
  SetInputs_from realize this dc inputsSize 0 ;;
  modify this (fun n => with_inputs (SetChanged false (m_inputs n)) n).

(** Lines 69-97: apply the inputs if a change is detected. *)
Definition ApplyInputs
    (realize : EffectRef -> option ID2D1DeviceContext -> M ID2D1Image)
    (this : EffectRef) (dc : ID2D1DeviceContext) (wasRecreated : bool) : M unit :=
  n <- deref this ;;
  if wasRecreated || IsChanged (m_inputs n) then SetInputs realize this dc
  else ret tt.

(** Lines 99-101: hand out the resource as an image. *)
Definition ReturnImage (this : EffectRef) : M ID2D1Image :=
  r <- resource this ;;
  ThrowIfFailed (As_ID2D1Image_hr d2d r) ;;
  ret (EffectOutput r).

(** The body of [GetD2DImage], open in its recursive call. *)
Definition GetD2DImage_body
    (realize : EffectRef -> option ID2D1DeviceContext -> M ID2D1Image)
    (this : EffectRef) (deviceContext : option ID2D1DeviceContext) : M ID2D1Image :=
  dc <- CheckInPointer deviceContext ;;
  wasRecreated <- CheckDevice this dc ;;
  EnsureResource this dc ;;
  ApplyProperties this wasRecreated ;;
  ApplyInputs realize this dc wasRecreated ;;
  ReturnImage this.

(** [fuel] bounds the depth of the recursion through the inputs. *)
Fixpoint GetD2DImage (fuel : nat) (this : EffectRef)
    (deviceContext : option ID2D1DeviceContext) : M ID2D1Image :=
  match fuel with
  | O => fun _ => OutOfFuel
  | S fuel' => GetD2DImage_body (GetD2DImage fuel') this deviceContext
  end.

End Realization.

(** ** CanvasEffect::Close (lines 108-112) *)

Definition Close (this : EffectRef) : M HRESULT :=
  Reset_resource this ;;
  ret S_OK.

(** ** The constructor (lines 18-31) *)

(** The object as the constructor leaves it. *)
Definition CanvasEffect_init (effectId : IID) (propertiesSize inputSize : nat)
    (isInputSizeFixed : bool) : CanvasEffect :=
  mkCanvasEffect effectId
    (Make_Vector propertiesSize true)
    (SetChanged true (Make_Vector inputSize isInputSizeFixed))
    None None.

(** Construction at the address [this]; [factory_hr] is what
    [GetActivationFactory] answers.  The two [Make] calls are taken to
    succeed ([CheckMakeResult] only fails when memory runs out). *)
Definition CanvasEffect_new (this : EffectRef) (effectId : IID)
    (propertiesSize inputSize : nat) (isInputSizeFixed : bool)
    (factory_hr : HRESULT) : M unit :=
  ThrowIfFailed factory_hr ;;
  fun w =>
    Ret tt (set_node this
              (CanvasEffect_init effectId propertiesSize inputSize isInputSizeFixed) w).

(** ** CanvasEffect::SetInput (lines 153-160) *)

(** [input] already is an [IEffectInput], so the [QueryInterface] for that
    interface succeeds; what can fail is the check of the pointer and
    [SetAt]. *)
Definition SetInput (this : EffectRef) (index : nat) (input : option IEffectInput)
  : M unit :=
  effectInput <- CheckInPointer input ;;
  n <- deref this ;;
  let (hr, inputs) := Vector_SetAt index (Some effectInput) (m_inputs n) in
  modify this (with_inputs inputs) ;;
  ThrowIfFailed hr.

(** A write through the collection [get_Properties] hands out (lines
    136-144): [IVector::SetAt] on [m_properties]. *)
Definition Properties_SetAt (this : EffectRef) (index : nat)
    (value : option IPropertyValue) : M HRESULT :=
  n <- deref this ;;
  let (hr, properties) := Vector_SetAt index value (m_properties n) in
  modify this (with_properties properties) ;;
  ret hr.

(** ** Notions used to state the properties *)

Definition add_calls (cs : list D2DCall) (w : World) : World :=
  mkWorld (heap w) (allocated w) (d2d_calls w ++ cs).

(** The slots a loop bounded by the [unsigned int] size goes through. *)
Definition visited {T} (slots : list T) : list T :=
  take (to_unsigned_int (length slots)) slots.

(** What the [switch] of [SetProperties] makes of a property value: the
    HRESULT it throws, or the value it passes to [SetValue]. *)
Definition marshal (p : IPropertyValue) : HRESULT + D2D1_VALUE :=
  if FAILED (get_Type p).1 then inl (get_Type p).1
  else if (get_Type p).2 =? PropertyType_UInt32 then
    if FAILED (GetUInt32 p).1 then inl (GetUInt32 p).1
    else inr (Value_UINT32 (GetUInt32 p).2)
  else if (get_Type p).2 =? PropertyType_Single then
    if FAILED (GetSingle p).1 then inl (GetSingle p).1
    else inr (Value_FLOAT (GetSingle p).2)
  else if (get_Type p).2 =? PropertyType_SingleArray then
    if FAILED (GetSingleArray p).1 then inl (GetSingleArray p).1
    else if (length (GetSingleArray p).2 =? 16)%nat
         then inr (Value_MATRIX_4X4_F (GetSingleArray p).2)
         else inl E_NOTIMPL
  else inl E_NOTIMPL.

Definition marshals (slot : option IPropertyValue) : Prop :=
  exists p v, slot = Some p /\ marshal p = inr v.

(** The calls [SetProperties] makes on the resource [r] for the slots from
    index [i] on, and the HRESULT it throws, if it throws. *)
Fixpoint properties_run (d2d : Direct2D) (r : ID2D1Effect)
    (slots : list (option IPropertyValue)) (i : nat)
  : list D2DCall * option HRESULT :=
  match slots with
  | [] => ([], None)
  | None :: _ => ([], Some E_POINTER)
  | Some p :: rest =>
      match marshal p with
      | inl hr => ([], Some hr)
      | inr v =>
          if FAILED (SetValue_hr d2d r i v)
          then ([Call_SetValue r i v], Some (SetValue_hr d2d r i v))
          else
            let (cs, e) := properties_run d2d r rest (S i) in
            (Call_SetValue r i v :: cs, e)
      end
  end.

(** The changed flag of a sequence is in step with its contents: a sequence
    whose flag is cleared was applied in full by the realization that
    cleared the flag.  Every write sets the flag, so this holds from the
    first write on. *)
Definition properties_tracked (n : CanvasEffect) : Prop :=
  IsChanged (m_properties n) = false ->
  Forall marshals (visited (InternalVector (m_properties n))).

Definition inputs_tracked (n : CanvasEffect) : Prop :=
  IsChanged (m_inputs n) = false ->
  Forall is_Some (visited (InternalVector (m_inputs n))).

(** How realizations against the device [id] may change an effect. *)
Record node_evolves (id : IUnknown) (n n' : CanvasEffect) : Prop := {
  ev_effectId : m_effectId n' = m_effectId n;
  ev_properties :
    InternalVector (m_properties n') = InternalVector (m_properties n);
  ev_properties_fixed :
    IsFixedSize (m_properties n') = IsFixedSize (m_properties n);
  ev_inputs : InternalVector (m_inputs n') = InternalVector (m_inputs n);
  ev_inputs_fixed : IsFixedSize (m_inputs n') = IsFixedSize (m_inputs n);
  ev_properties_changed :
    IsChanged (m_properties n') = true -> IsChanged (m_properties n) = true;
  ev_inputs_changed :
    IsChanged (m_inputs n') = true -> IsChanged (m_inputs n) = true;
  ev_properties_kept :
    ~ Forall marshals (visited (InternalVector (m_properties n))) ->
    IsChanged (m_properties n') = IsChanged (m_properties n);
  ev_inputs_kept :
    ~ Forall is_Some (visited (InternalVector (m_inputs n))) ->
    IsChanged (m_inputs n') = IsChanged (m_inputs n);
  ev_device :
    m_previousDeviceIdentity n = Some id -> m_previousDeviceIdentity n' = Some id;
  ev_resource :
    m_previousDeviceIdentity n = Some id -> is_Some (m_resource n) ->
    m_resource n' = m_resource n
}.

Record World_evolves (id : IUnknown) (w w' : World) : Prop := {
  ev_heap : forall a, option_Forall2 (node_evolves id) (heap w !! a) (heap w' !! a);
  ev_calls : d2d_calls w `prefix_of` d2d_calls w';
  ev_allocated : (allocated w <= allocated w')%nat
}.

(** A computation that changes the world only in the ways above, whether it
    returns or throws. *)
Definition frames {A} (id : IUnknown) (m : M A) : Prop :=
  forall w,
    match m w with
    | Ret _ w' | Throw _ w' => World_evolves id w w'
    | Fault | OutOfFuel => True
    end.

(** An effect realized against the device [id] with nothing left to apply. *)
Definition clean (d2d : Direct2D) (id : IUnknown) (r : ID2D1Effect) (n : CanvasEffect) : Prop :=
  m_previousDeviceIdentity n = Some id /\
  m_resource n = Some r /\
  IsChanged (m_properties n) = false /\
  IsChanged (m_inputs n) = false /\
  SUCCEEDED (As_ID2D1Image_hr d2d r) = true.

(** Lines 42-67 of [GetD2DImage]: everything before the inputs. *)
Definition Prologue (d2d : Direct2D) (this : EffectRef) (dc : ID2D1DeviceContext) : M bool :=
  wasRecreated <- CheckDevice this dc ;;
  EnsureResource this dc ;;
  ApplyProperties d2d this wasRecreated ;;
  ret wasRecreated.

(** The same lines as a function of the effect alone: the calls made, the
    number of effect instances handed out, the effect as it is left, and
    either the HRESULT thrown or [wasRecreated]. *)
Definition released (n : CanvasEffect) : list D2DCall :=
  match m_resource n with
  | Some r => [Call_Release r]
  | None => []
  end.

Definition prepare_properties (d2d : Direct2D) (wasRecreated : bool)
    (r : ID2D1Effect) (cs : list D2DCall) (alloc : nat) (n : CanvasEffect)
  : list D2DCall * nat * CanvasEffect * (HRESULT + bool) :=
  if wasRecreated || IsChanged (m_properties n) then
    match properties_run d2d r (visited (InternalVector (m_properties n))) 0 with
    | (cs', None) =>
        (cs ++ cs', alloc,
         with_properties (SetChanged false (m_properties n)) n, inr wasRecreated)
    | (cs', Some hr) => (cs ++ cs', alloc, n, inl hr)
    end
  else (cs, alloc, n, inr wasRecreated).

Definition prepare (d2d : Direct2D) (dc : ID2D1DeviceContext) (alloc : nat)
    (n : CanvasEffect) : list D2DCall * nat * CanvasEffect * (HRESULT + bool) :=
  let wasRecreated := bool_decide (Some (dc_identity dc) <> m_previousDeviceIdentity n) in
  let n1 :=
    if wasRecreated
    then with_resource None (with_previousDeviceIdentity (Some (dc_identity dc)) n)
    else n in
  let cs1 := if wasRecreated then released n else [] in
  match m_resource n1 with
  | Some r => prepare_properties d2d wasRecreated r cs1 alloc n1
  | None =>
      let hr := dc_CreateEffect dc (m_effectId n1) in
      if FAILED hr then (cs1, alloc, n1, inl hr)
      else
        let r := mkEffect alloc (m_effectId n1) (dc_identity dc) in
        prepare_properties d2d wasRecreated r (cs1 ++ [Call_CreateEffect r])
          (S alloc) (with_resource (Some r) n1)
  end.

Definition prepared_world (this : EffectRef) (w : World)
    (p : list D2DCall * nat * CanvasEffect * (HRESULT + bool)) : World :=
  mkWorld (<[this := p.1.2]> (heap w)) p.1.1.2 (d2d_calls w ++ p.1.1.1).

(** The inputs branch of [GetD2DImage (S fuel)] on [this], entered from the
    state [w], has set the input count, gone through the slots before [i]
    and stands before slot [i] in the state [wi]. *)
Definition reaches_input (d2d : Direct2D) (fuel : nat) (this : EffectRef)
    (dc : ID2D1DeviceContext) (i : nat) (w wi : World) : Prop :=
  exists n wasRecreated w1 r,
    heap w !! this = Some n /\
    Prologue d2d this dc w = Ret wasRecreated w1 /\
    wasRecreated || IsChanged (m_inputs n) = true /\
    resource this w1 = Ret r w1 /\
    let inputsSize := to_unsigned_int (length (InternalVector (m_inputs n))) in
    (i < inputsSize)%nat /\
    SetInputs_from (GetD2DImage d2d fuel) this dc i 0
      (add_call (Call_SetInputCount r inputsSize) w1) = Ret tt wi.

(** ** A small effect graph to run the code on *)

Module Scenario.

Local Open Scope nat_scope.

(** A device on which every effect answers [S_OK]. *)
Definition d2d : Direct2D := mkDirect2D (fun _ _ _ => S_OK) (fun _ => S_OK).

(** Two wrappers of one device, and two of another. *)
Definition dc1 : ID2D1DeviceContext := mkDeviceContext 1 (fun _ => S_OK).
Definition dc1' : ID2D1DeviceContext := mkDeviceContext 1 (fun _ => S_OK).
Definition dc2 : ID2D1DeviceContext := mkDeviceContext 2 (fun _ => S_OK).
Definition dc2' : ID2D1DeviceContext := mkDeviceContext 2 (fun _ => S_OK).

Definition uint32_value (v : Z) : IPropertyValue :=
  mkPropertyValue (S_OK, PropertyType_UInt32) (S_OK, v) (E_FAIL, 0%Z) (E_FAIL, []).

Definition single_array_value (l : list Single) : IPropertyValue :=
  mkPropertyValue (S_OK, PropertyType_SingleArray) (E_FAIL, 0%Z) (E_FAIL, 0%Z) (S_OK, l).

(** A property of type [PropertyType_Boolean]. *)
Definition boolean_value : IPropertyValue :=
  mkPropertyValue (S_OK, 11%Z) (E_FAIL, 0%Z) (E_FAIL, 0%Z) (E_FAIL, []).

(** The effect [A] at address 0 takes the effect [B] at address 1 as its
    only input; each has one property. *)
Definition A : EffectRef := 0%nat.
Definition B : EffectRef := 1%nat.

Definition input_B : IEffectInput := Input_Internal (Internal_CanvasEffect B).

Definition world_of {T} (o : outcome T) : World :=
  match o with
  | Ret _ w | Throw _ w => w
  | Fault | OutOfFuel => mkWorld ∅ 0 []
  end.

Definition effect_at (w : World) (a : EffectRef) : CanvasEffect :=
  default (CanvasEffect_init 0 0 0 true) (heap w !! a).

(** [A] and [B] constructed and their properties written; the input slot
    of [A] is still empty. *)
Definition unfilled : World :=
  world_of
    ((CanvasEffect_new A 7 1 1 true S_OK ;;
      CanvasEffect_new B 8 1 0 true S_OK ;;
      Properties_SetAt A 0 (Some (uint32_value 5%Z)) ;;
      Properties_SetAt B 0 (Some (uint32_value 9%Z)))%m
       (mkWorld ∅ 0 [])).

(** The slot filled with [B], and with an object that is not an image. *)
Definition built : World := world_of (SetInput A 0 (Some input_B) unfilled).

Definition foreign : World :=
  world_of (SetInput A 0 (Some (Input_Foreign E_NOINTERFACE)) unfilled).

(** [A] realized on the first device. *)
Definition realized : World := world_of (GetD2DImage d2d 2 A (Some dc1) built).

Definition image_A : ID2D1Image := EffectOutput (mkEffect 0 7 1).

(** [A] as that realization leaves it. *)
Definition A_realized : CanvasEffect :=
  mkCanvasEffect 7
    (mkVector [Some (uint32_value 5%Z)] false true)
    (mkVector [Some input_B] false true)
    (Some 1) (Some (mkEffect 0 7 1)).

(** Then the property of [B] is replaced by a float array of length 7, and
    [A] is realized on the second device, which fails in [B]. *)
Definition broken : World :=
  world_of (Properties_SetAt B 0 (Some (single_array_value (replicate 7 0%Z))) realized).

Definition failed : World := world_of (GetD2DImage d2d 2 A (Some dc2) broken).

(** Where the realization of [A] on the first device stands, from the
    state [w], when it has set the input count and comes to slot 0. *)
Definition before_inputs (w : World) : World :=
  add_call (Call_SetInputCount (mkEffect 0 7 1) 1) (world_of (Prologue d2d A dc1 w)).

End Scenario.

(** ** CanvasEffect::get_EffectId (lines 118-124) *)

(** The out parameter is a pointer the caller provides; what is written
    through it is returned with the HRESULT. *)
Definition get_EffectId (this : EffectRef) (effectId : option unit) : M (HRESULT * IID) :=
  CheckInPointer effectId ;;
  n <- deref this ;;
  ret (S_OK, m_effectId n).

(** ** Programs over the effects *)

(** A caller's program: a sequence of calls of the members above.  The
    caller catches what a call throws and goes on with the next call.  An
    object is constructed at an address no object lives at. *)
Inductive Op :=
| Op_new (this : EffectRef) (effectId : IID) (propertiesSize inputSize : nat)
    (isInputSizeFixed : bool) (factory_hr : HRESULT)
| Op_GetD2DImage (fuel : nat) (this : EffectRef) (deviceContext : option ID2D1DeviceContext)
| Op_Close (this : EffectRef)
| Op_SetInput (this : EffectRef) (index : nat) (input : option IEffectInput)
| Op_Properties_SetAt (this : EffectRef) (index : nat) (value : option IPropertyValue).

(** The state a call leaves, if it returns or throws. *)
Definition state_after {A} (o : outcome A) : option World :=
  match o with
  | Ret _ w | Throw _ w => Some w
  | Fault | OutOfFuel => None
  end.

Definition step (d2d : Direct2D) (op : Op) (w : World) : option World :=
  match op with
  | Op_new this effectId propertiesSize inputSize isInputSizeFixed factory_hr =>
      match heap w !! this with
      | None =>
          state_after
            (CanvasEffect_new this effectId propertiesSize inputSize isInputSizeFixed
               factory_hr w)
      | Some _ => None
      end
  | Op_GetD2DImage fuel this deviceContext =>
      state_after (GetD2DImage d2d fuel this deviceContext w)
  | Op_Close this => state_after (Close this w)
  | Op_SetInput this index input => state_after (SetInput this index input w)
  | Op_Properties_SetAt this index value =>
      state_after (Properties_SetAt this index value w)
  end.

Fixpoint run (d2d : Direct2D) (ops : list Op) (w : World) : option World :=
  match ops with
  | [] => Some w
  | op :: ops' =>
      match step d2d op w with
      | Some w' => run d2d ops' w'
      | None => None
      end
  end.

Definition initial : World := mkWorld ∅ 0 [].

(** The states a program can reach from no effect at all. *)
Definition reachable (d2d : Direct2D) (w : World) : Prop :=
  exists ops, run d2d ops initial = Some w.

(** A computation that keeps the property [P] of the state, whether it
    returns or throws. *)
Definition keeps {A} (P : World -> Prop) (m : M A) : Prop :=
  forall w, P w ->
    match m w with
    | Ret _ w' | Throw _ w' => P w'
    | Fault | OutOfFuel => True
    end.

(** A call that is no write to the effect [this] and no realization
    against a device other than [id]. *)
Definition spares (id : IUnknown) (this : EffectRef) (op : Op) : bool :=
  match op with
  | Op_new _ _ _ _ _ _ => true
  | Op_GetD2DImage _ _ (Some dc) => bool_decide (dc_identity dc = id)
  | Op_GetD2DImage _ _ None => true
  | Op_Close x | Op_SetInput x _ _ | Op_Properties_SetAt x _ _ => bool_decide (x <> this)
  end.

(** ** The resources and the log of Direct2D calls *)

(** The resource an effect holds was created for the effect's id on the
    device whose identity the effect has stored, and has not been
    released. *)
Definition resource_owned (w : World) (n : CanvasEffect) : Prop :=
  forall r, m_resource n = Some r ->
    m_previousDeviceIdentity n = Some (effect_device r) /\
    effect_clsid r = m_effectId n /\
    Call_CreateEffect r ∈ d2d_calls w /\
    Call_Release r ∉ d2d_calls w.

(** No two effects hold the same instance. *)
Definition resources_exclusive (w : World) : Prop :=
  forall a b na nb ra rb,
    heap w !! a = Some na -> heap w !! b = Some nb ->
    m_resource na = Some ra -> m_resource nb = Some rb ->
    effect_instance ra = effect_instance rb -> a = b.

Record World_owned (w : World) : Prop := {
  owned_resources : forall a n, heap w !! a = Some n -> resource_owned w n;
  owned_exclusive : resources_exclusive w;
  (** the instances in the log are among those handed out *)
  owned_allocated :
    forall r, Call_CreateEffect r ∈ d2d_calls w \/ Call_Release r ∈ d2d_calls w ->
      (effect_instance r < allocated w)%nat;
  (** a resource that was created is held by an effect until it is released *)
  owned_until_released :
    forall r, Call_CreateEffect r ∈ d2d_calls w ->
      Call_Release r ∈ d2d_calls w \/
      exists a n, heap w !! a = Some n /\ m_resource n = Some r
}.

(** Calls that neither create nor release a resource. *)
Definition applies (c : D2DCall) : Prop :=
  match c with
  | Call_CreateEffect _ | Call_Release _ => False
  | _ => True
  end.

(** The resource a call is made on, for the calls that apply something. *)
Definition target (c : D2DCall) : option ID2D1Effect :=
  match c with
  | Call_SetValue r _ _ | Call_SetInputCount r _ | Call_SetInput r _ _ => Some r
  | Call_CreateEffect _ | Call_Release _ => None
  end.

(** What may follow the calls [cs]: the creation of an instance that has
    not been created yet, and any other call on a resource that has been
    created and not released. *)
Definition permitted (cs : list D2DCall) (c : D2DCall) : Prop :=
  match c with
  | Call_CreateEffect r =>
      forall r', Call_CreateEffect r' ∈ cs -> effect_instance r' <> effect_instance r
  | Call_Release r | Call_SetValue r _ _ | Call_SetInputCount r _ | Call_SetInput r _ _ =>
      Call_CreateEffect r ∈ cs /\ Call_Release r ∉ cs
  end.

(** A log in which every call was permitted when it was made. *)
Inductive protocol : list D2DCall -> Prop :=
| protocol_nil : protocol []
| protocol_call cs c : protocol cs -> permitted cs c -> protocol (cs ++ [c]).

Definition World_live (w : World) : Prop :=
  World_owned w /\ protocol (d2d_calls w).

(** ** The changed flags *)

(** A properties sequence whose flag is cleared has either been applied
    in full or never been written. *)
Definition properties_settled (n : CanvasEffect) : Prop :=
  IsChanged (m_properties n) = false ->
  Forall marshals (visited (InternalVector (m_properties n))) \/
  Forall (fun slot => slot = None) (InternalVector (m_properties n)).

(** ** The graph of the inputs *)

(** What is asked of an input slot: an effect in it satisfies [ok]; and,
    when [strict], an object in it that does not implement
    [ICanvasImageInternal] fails the query for it. *)
Definition input_ok (strict : bool) (ok : EffectRef -> bool)
    (slot : option IEffectInput) : bool :=
  match slot with
  | Some (Input_Internal (Internal_CanvasEffect e)) => ok e
  | Some (Input_Foreign hr) => negb strict || FAILED hr
  | Some (Input_Internal (Internal_Image _ _)) | None => true
  end.

Fixpoint graph_within (strict : bool) (depth : nat) (w : World) (a : EffectRef) : bool :=
  match depth with
  | O => false
  | S depth' =>
      match heap w !! a with
      | None => false
      | Some n =>
          forallb (input_ok strict (graph_within strict depth' w))
            (InternalVector (m_inputs n))
      end
  end.

(** Every chain of effects through the inputs, starting at [a], has fewer
    than [depth] effects, all of them alive. *)
Definition acyclic_within : nat -> World -> EffectRef -> bool := graph_within false.

(** The same, and every object met on the way that does not implement
    [ICanvasImageInternal] fails the query for it. *)
Definition realizable_within : nat -> World -> EffectRef -> bool := graph_within true.

(** How a call may end: it returns or throws; it goes through a null
    pointer only when not [strict]; it never exhausts the recursion
    budget. *)
Definition ends (strict : bool) {A} (o : outcome A) : Prop :=
  match o with
  | Ret _ _ | Throw _ _ => True
  | Fault => strict = false
  | OutOfFuel => False
  end.

(** The effect [this] has itself in the slot [i] of its inputs, which are
    marked changed. *)
Definition own_input (this : EffectRef) (i : nat) (w : World) : Prop :=
  exists n, heap w !! this = Some n /\
    IsChanged (m_inputs n) = true /\
    (i < to_unsigned_int (length (InternalVector (m_inputs n))))%nat /\
    InternalVector (m_inputs n) !! i =
      Some (Some (Input_Internal (Internal_CanvasEffect this))).

(** What a returning realization has bound to the slot [j] of the resource
    [r], among the calls [cs] it made: for an image, that image; for an
    effect, the image of the resource that effect holds in the state [w']
    reached, realized against the device [id] with nothing left to apply. *)
Definition input_bound (d2d : Direct2D) (id : IUnknown) (r : ID2D1Effect) (j : nat)
    (slot : option IEffectInput) (w' : World) (cs : list D2DCall) : Prop :=
  match slot with
  | Some (Input_Internal (Internal_Image hr image)) =>
      SUCCEEDED hr = true /\ Call_SetInput r j image ∈ cs
  | Some (Input_Internal (Internal_CanvasEffect b)) =>
      exists nb rb, heap w' !! b = Some nb /\ clean d2d id rb nb /\
        Call_SetInput r j (EffectOutput rb) ∈ cs
  | Some (Input_Foreign _) | None => False
  end.

(** The set [G] of effects contains every effect that is an input of one
    of its members. *)
Definition input_in (G : list EffectRef) (slot : option IEffectInput) : bool :=
  match slot with
  | Some (Input_Internal (Internal_CanvasEffect e)) => bool_decide (e ∈ G)
  | _ => true
  end.

Definition closed_under_inputs (w : World) (G : list EffectRef) : bool :=
  forallb
    (fun a =>
       match heap w !! a with
       | Some n => forallb (input_in G) (InternalVector (m_inputs n))
       | None => true
       end)
    G.

(** ** More of the small effect graph *)

Module Programs.

Local Open Scope nat_scope.

(** A device context whose device cannot create effects. *)
Definition dc3 : ID2D1DeviceContext := mkDeviceContext 3 (fun _ => E_FAIL).

(** The program that leads to [Scenario.realized]. *)
Definition build_and_realize : list Op :=
  [Op_new Scenario.A 7 1 1 true S_OK;
   Op_new Scenario.B 8 1 0 true S_OK;
   Op_Properties_SetAt Scenario.A 0 (Some (Scenario.uint32_value 5%Z));
   Op_Properties_SetAt Scenario.B 0 (Some (Scenario.uint32_value 9%Z));
   Op_SetInput Scenario.A 0 (Some Scenario.input_B);
   Op_GetD2DImage 2 Scenario.A (Some Scenario.dc1)].

(** [A] just constructed, alone. *)
Definition constructed : World :=
  Scenario.world_of (CanvasEffect_new Scenario.A 7 1 1 true S_OK initial).

(** [A] and [B] realized, then the property of [A] written again. *)
Definition rewritten : World :=
  Scenario.world_of
    (Properties_SetAt Scenario.A 0 (Some (Scenario.uint32_value 6%Z)) Scenario.realized).

(** After [Scenario.realized]: the property of [B] is written again and
    [B] is realized. *)
Definition rewrite_B : list Op :=
  [Op_Properties_SetAt Scenario.B 0 (Some (Scenario.uint32_value 10%Z));
   Op_GetD2DImage 1 Scenario.B (Some Scenario.dc1)].

Definition B_rewritten : World :=
  default initial (run Scenario.d2d rewrite_B Scenario.realized).

(** [A] given itself as its input. *)
Definition looped : World :=
  Scenario.world_of
    (SetInput Scenario.A 0 (Some (Input_Internal (Internal_CanvasEffect Scenario.A)))
       Scenario.unfilled).

(** [A] given an image that cannot be realized as its input. *)
Definition bitmap_fails : World :=
  Scenario.world_of
    (SetInput Scenario.A 0 (Some (Input_Internal (Internal_Image E_FAIL (Bitmap 0))))
       Scenario.unfilled).

(** [A] and [B] with every slot filled, both changed flags cleared, and
    no device seen yet. *)
Definition pristine : World :=
  mkWorld
    (<[Scenario.A :=
         mkCanvasEffect 7 (mkVector [Some (Scenario.uint32_value 5%Z)] false true)
           (mkVector [Some Scenario.input_B] false true) None None]>
       (<[Scenario.B :=
            mkCanvasEffect 8 (mkVector [Some (Scenario.uint32_value 9%Z)] false true)
              (mkVector [] false true) None None]> ∅))
    0 [].

(** A stand-in for the [GetD2DImage] of the inputs: it records that it was
    called, for which input and on which device, as the creation of an
    instance numbered by the input, and returns a bitmap numbered by the
    input. *)
Definition probe (x : EffectRef) (deviceContext : option ID2D1DeviceContext)
  : M ID2D1Image :=
  dc <- CheckInPointer deviceContext ;;
  record_call (Call_CreateEffect (mkEffect x 0 (dc_identity dc))) ;;
  ret (Bitmap x).

End Programs.

(** * Properties *)

(** ** Running the primitives *)

Lemma FAILED_SUCCEEDED hr : FAILED hr = negb (SUCCEEDED hr).
Proof. unfold FAILED, SUCCEEDED. destruct (Z.ltb_spec hr 0), (Z.leb_spec 0 hr); simpl; lia. Qed.

Lemma to_unsigned_int_small (size : nat) :
  Z.of_nat size < 2 ^ 32 -> to_unsigned_int size = size.
Proof.
  intros H. unfold to_unsigned_int.
  rewrite Z.mod_small by lia. apply Nat2Z.id.
Qed.

Lemma to_unsigned_int_le (size : nat) : (to_unsigned_int size <= size)%nat.
Proof.
  unfold to_unsigned_int.
  assert (0 <= Z.of_nat size mod 2 ^ 32 <= Z.of_nat size).
  { split; [apply Z.mod_pos_bound; lia | apply Z.mod_le; lia]. }
  lia.
Qed.

Lemma visited_small {T} (slots : list T) :
  Z.of_nat (length slots) < 2 ^ 32 -> visited slots = slots.
Proof.
  intros H. unfold visited. rewrite to_unsigned_int_small by done.
  apply firstn_all.
Qed.

Lemma length_visited {T} (slots : list T) :
  length (visited slots) = to_unsigned_int (length slots).
Proof.
  unfold visited. rewrite length_take. pose proof (to_unsigned_int_le (length slots)). lia.
Qed.

Lemma visited_lookup {T} (slots : list T) i :
  (i < to_unsigned_int (length slots))%nat -> visited slots !! i = slots !! i.
Proof. intros H. unfold visited. by rewrite lookup_take_lt. Qed.

Lemma bind_Ret {A B} (m : M A) (k : A -> M B) w a w' :
  m w = Ret a w' -> bind m k w = k a w'.
Proof. intros H. unfold bind. by rewrite H. Qed.

Lemma bind_Throw {A B} (m : M A) (k : A -> M B) w e w' :
  m w = Throw e w' -> bind m k w = Throw e w'.
Proof. intros H. unfold bind. by rewrite H. Qed.

Lemma bind_inv_Ret {A B} (m : M A) (k : A -> M B) w b w'' :
  bind m k w = Ret b w'' ->
  exists a w', m w = Ret a w' /\ k a w' = Ret b w''.
Proof. unfold bind. destruct (m w) as [a w'| | |]; [eauto | done..]. Qed.

Lemma bind_inv_Throw {A B} (m : M A) (k : A -> M B) w e w'' :
  bind m k w = Throw e w'' ->
  m w = Throw e w'' \/ exists a w', m w = Ret a w' /\ k a w' = Throw e w''.
Proof.
  unfold bind. destruct (m w) as [a w'|e' w'| |]; [eauto | | done..].
  intros [= -> ->]. by left.
Qed.

Lemma deref_run this w n : heap w !! this = Some n -> deref this w = Ret n w.
Proof. intros H. unfold deref. by rewrite H. Qed.

Lemma deref_inv this w n w' :
  deref this w = Ret n w' -> w' = w /\ heap w !! this = Some n.
Proof. unfold deref. destruct (heap w !! this); [|done]. by intros [= -> ->]. Qed.

Lemma deref_no_Throw this w e w' : deref this w <> Throw e w'.
Proof. unfold deref. by destruct (heap w !! this). Qed.

Lemma modify_run this f w n :
  heap w !! this = Some n -> modify this f w = Ret tt (set_node this (f n) w).
Proof. intros H. unfold modify. by rewrite H. Qed.

Lemma resource_run this w n r :
  heap w !! this = Some n -> m_resource n = Some r -> resource this w = Ret r w.
Proof.
  intros H Hr. unfold resource. rewrite (bind_Ret _ _ _ _ _ (deref_run _ _ _ H)).
  by rewrite Hr.
Qed.

Lemma resource_inv this w r w' :
  resource this w = Ret r w' ->
  w' = w /\ exists n, heap w !! this = Some n /\ m_resource n = Some r.
Proof.
  unfold resource. intros H.
  apply bind_inv_Ret in H as (n & w1 & [-> Hn]%deref_inv & H).
  destruct (m_resource n) as [r'|] eqn:Hr; [|done].
  injection H as -> ->. eauto.
Qed.

Lemma resource_no_Throw this w e w' : resource this w <> Throw e w'.
Proof.
  unfold resource, bind, deref. destruct (heap w !! this) as [n|]; [|done].
  by destruct (m_resource n).
Qed.

Lemma heap_set_node_eq this n w : heap (set_node this n w) !! this = Some n.
Proof. apply lookup_insert_eq. Qed.

Lemma heap_set_node_ne this a n w :
  this <> a -> heap (set_node this n w) !! a = heap w !! a.
Proof. intros. by apply lookup_insert_ne. Qed.

Lemma set_node_set_node this n n' w :
  set_node this n' (set_node this n w) = set_node this n' w.
Proof. unfold set_node. simpl. by rewrite insert_insert_eq. Qed.

Lemma set_node_id this n w : heap w !! this = Some n -> set_node this n w = w.
Proof. intros H. destruct w. unfold set_node. simpl in *. by rewrite insert_id. Qed.

Lemma add_calls_nil w : add_calls [] w = w.
Proof. destruct w. unfold add_calls. simpl. by rewrite app_nil_r. Qed.

Lemma add_calls_app cs cs' w : add_calls cs' (add_calls cs w) = add_calls (cs ++ cs') w.
Proof. unfold add_calls. simpl. by rewrite app_assoc. Qed.

Lemma add_call_calls c w : add_call c w = add_calls [c] w.
Proof. done. Qed.

(** ** The frame of a realization *)

Lemma node_evolves_refl id n : node_evolves id n n.
Proof. by split. Qed.

Lemma node_evolves_trans id n1 n2 n3 :
  node_evolves id n1 n2 -> node_evolves id n2 n3 -> node_evolves id n1 n3.
Proof.
  intros [E1 P1 PF1 I1 IF1 PC1 IC1 PK1 IK1 D1 R1] [E2 P2 PF2 I2 IF2 PC2 IC2 PK2 IK2 D2 R2].
  split; try congruence; try tauto.
  - intros H. rewrite <- (PK1 H). apply PK2. by rewrite P1.
  - intros H. rewrite <- (IK1 H). apply IK2. by rewrite I1.
  - intros H1 H2. rewrite <- (R1 H1 H2).
    apply R2; [by auto|]. by rewrite (R1 H1 H2).
Qed.

Lemma World_evolves_refl id w : World_evolves id w w.
Proof.
  split; [|done..]. intros a. destruct (heap w !! a); constructor.
  apply node_evolves_refl.
Qed.

Lemma World_evolves_trans id w1 w2 w3 :
  World_evolves id w1 w2 -> World_evolves id w2 w3 -> World_evolves id w1 w3.
Proof.
  intros [H1 C1 A1] [H2 C2 A2]. split; [|by etrans|lia].
  intros a. specialize (H1 a). specialize (H2 a).
  destruct H1; inversion H2; subst; constructor.
  by eapply node_evolves_trans.
Qed.

Lemma evolves_lookup id w w' a n :
  World_evolves id w w' -> heap w !! a = Some n ->
  exists n', heap w' !! a = Some n' /\ node_evolves id n n'.
Proof.
  intros [H _ _] Hn. specialize (H a). rewrite Hn in H. inversion H; subst. eauto.
Qed.

Lemma evolves_lookup_back id w w' a n' :
  World_evolves id w w' -> heap w' !! a = Some n' ->
  exists n, heap w !! a = Some n /\ node_evolves id n n'.
Proof.
  intros [H _ _] Hn. specialize (H a). rewrite Hn in H. inversion H; subst. eauto.
Qed.

Lemma evolves_set_node id this n n' w :
  heap w !! this = Some n -> node_evolves id n n' ->
  World_evolves id w (set_node this n' w).
Proof.
  intros Hn Hev. split; [|done..]. intros a.
  destruct (decide (this = a)) as [<-|Hne].
  - rewrite heap_set_node_eq, Hn. by constructor.
  - rewrite heap_set_node_ne by done.
    destruct (heap w !! a); constructor. apply node_evolves_refl.
Qed.

Lemma evolves_add_calls id cs w : World_evolves id w (add_calls cs w).
Proof.
  split; [|by apply prefix_app_r|done]. intros a. simpl.
  destruct (heap w !! a); constructor. apply node_evolves_refl.
Qed.

Lemma frames_ret {A} id (a : A) : frames id (ret a).
Proof. intros w. apply World_evolves_refl. Qed.

Lemma frames_fault {A} id : frames id (@fault A).
Proof. by intros w. Qed.

Lemma frames_ThrowHR {A} id hr : frames id (@ThrowHR A hr).
Proof. intros w. apply World_evolves_refl. Qed.

Lemma frames_ThrowHR_message {A} id hr msg : frames id (@ThrowHR_message A hr msg).
Proof. intros w. apply World_evolves_refl. Qed.

Lemma frames_ThrowIfFailed id hr : frames id (ThrowIfFailed hr).
Proof. unfold ThrowIfFailed. destruct (FAILED hr); [apply frames_ThrowHR | apply frames_ret]. Qed.

Lemma frames_bind {A B} id (m : M A) (k : A -> M B) :
  frames id m -> (forall a, frames id (k a)) -> frames id (bind m k).
Proof.
  intros Hm Hk w. unfold bind. specialize (Hm w).
  destruct (m w) as [a w'|e w'| |]; [|done..].
  specialize (Hk a w').
  destruct (k a w'); [| |done..]; by eapply World_evolves_trans.
Qed.

Lemma frames_deref id this : frames id (deref this).
Proof. intros w. unfold deref. destruct (heap w !! this); [apply World_evolves_refl|done]. Qed.

Lemma frames_resource id this : frames id (resource this).
Proof.
  apply frames_bind; [apply frames_deref|]. intros n.
  destruct (m_resource n); [apply frames_ret | apply frames_fault].
Qed.

Lemma frames_record_call id c : frames id (record_call c).
Proof. intros w. apply (evolves_add_calls id [c]). Qed.

Lemma frames_new_effect id effectId device : frames id (new_effect effectId device).
Proof.
  intros w. simpl. split; simpl; [|done|lia].
  intros a. destruct (heap w !! a); constructor. apply node_evolves_refl.
Qed.

Lemma frames_CheckInPointer {A} id (p : option A) : frames id (CheckInPointer p).
Proof. destruct p; [apply frames_ret | apply frames_ThrowHR]. Qed.

Section Realization_properties.

Variable d2d : Direct2D.

(** ** [SetProperties] as a function of the slots *)

Lemma SetProperty_marshal this i p w n r :
  heap w !! this = Some n -> m_resource n = Some r ->
  SetProperty d2d this i p w =
    match marshal p with
    | inl hr => Throw (mkException hr None) w
    | inr v =>
        if FAILED (SetValue_hr d2d r i v)
        then Throw (mkException (SetValue_hr d2d r i v) None) (add_calls [Call_SetValue r i v] w)
        else Ret tt (add_calls [Call_SetValue r i v] w)
    end.
Proof.
  intros Hn Hr.
  assert (Hset : forall v, D2D_SetValue d2d this i v w =
    if FAILED (SetValue_hr d2d r i v)
    then Throw (mkException (SetValue_hr d2d r i v) None) (add_calls [Call_SetValue r i v] w)
    else Ret tt (add_calls [Call_SetValue r i v] w)).
  { intros v. unfold D2D_SetValue.
    rewrite (bind_Ret _ _ _ _ _ (resource_run _ _ _ _ Hn Hr)).
    unfold bind, record_call, ThrowIfFailed.
    by destruct (FAILED (SetValue_hr d2d r i v)). }
  unfold SetProperty, marshal, ThrowIfFailed, bind.
  destruct (FAILED (get_Type p).1); [done|]. simpl.
  destruct ((get_Type p).2 =? PropertyType_UInt32).
  { destruct (FAILED (GetUInt32 p).1); [done|]. simpl. apply Hset. }
  destruct ((get_Type p).2 =? PropertyType_Single).
  { destruct (FAILED (GetSingle p).1); [done|]. simpl. apply Hset. }
  destruct ((get_Type p).2 =? PropertyType_SingleArray); [|done].
  destruct (FAILED (GetSingleArray p).1); [done|]. simpl.
  destruct (length (GetSingleArray p).2 =? 16)%nat; [apply Hset | done].
Qed.

Lemma SetProperties_from_run this w n r k i :
  heap w !! this = Some n -> m_resource n = Some r ->
  (i + k <= length (InternalVector (m_properties n)))%nat ->
  SetProperties_from d2d this k i w =
    match properties_run d2d r (take k (drop i (InternalVector (m_properties n)))) i with
    | (cs, None) => Ret tt (add_calls cs w)
    | (cs, Some hr) => Throw (mkException hr None) (add_calls cs w)
    end.
Proof.
  intros Hn Hr. revert i w Hn.
  induction k as [|k IH]; intros i w Hn Hlen.
  { simpl. by rewrite add_calls_nil. }
  destruct (lookup_lt_is_Some_2 (InternalVector (m_properties n)) i) as [slot Hslot]; [lia|].
  rewrite (drop_S _ _ _ Hslot). simpl.
  unfold property_at.
  rewrite (bind_Ret _ _ w slot w).
  2:{ rewrite (bind_Ret _ _ _ _ _ (deref_run _ _ _ Hn)). by rewrite Hslot. }
  destruct slot as [p|]; [|by rewrite add_calls_nil].
  unfold bind at 1. rewrite (SetProperty_marshal _ _ _ _ _ _ Hn Hr).
  destruct (marshal p) as [hr|v]; [by rewrite add_calls_nil|].
  destruct (FAILED (SetValue_hr d2d r i v)); [done|].
  rewrite IH by (done || lia).
  destruct (properties_run d2d r (take k (drop (S i) (InternalVector (m_properties n)))) (S i))
    as [cs [hr|]]; by rewrite add_calls_app.
Qed.

Lemma SetProperties_run this w n r :
  heap w !! this = Some n -> m_resource n = Some r ->
  SetProperties d2d this w =
    match properties_run d2d r (visited (InternalVector (m_properties n))) 0 with
    | (cs, None) => Ret tt (add_calls cs w)
    | (cs, Some hr) => Throw (mkException hr None) (add_calls cs w)
    end.
Proof.
  intros Hn Hr. unfold SetProperties.
  rewrite (bind_Ret _ _ _ _ _ (deref_run _ _ _ Hn)).
  rewrite (SetProperties_from_run _ _ _ _ _ _ Hn Hr).
  - by rewrite drop_0.
  - pose proof (to_unsigned_int_le (length (InternalVector (m_properties n)))). lia.
Qed.
Lemma World_eq w w' :
  heap w = heap w' -> allocated w = allocated w' -> d2d_calls w = d2d_calls w' -> w = w'.
Proof. destruct w, w'. simpl. by intros -> -> ->. Qed.

Lemma bind_bind {A B C} (m : M A) (f : A -> M B) (g : B -> M C) w :
  bind (bind m f) g w = bind m (fun x => bind (f x) g) w.
Proof. unfold bind. by destruct (m w). Qed.

Lemma bind_ret {A B} (a : A) (k : A -> M B) w : bind (ret a) k w = k a w.
Proof. done. Qed.

Lemma bind_modify {B} this f (k : unit -> M B) w n :
  heap w !! this = Some n ->
  bind (modify this f) k w = k tt (set_node this (f n) w).
Proof. intros H. by rewrite (bind_Ret _ _ _ _ _ (modify_run _ _ _ _ H)). Qed.

Lemma bind_deref {B} this (k : CanvasEffect -> M B) w n :
  heap w !! this = Some n -> bind (deref this) k w = k n w.
Proof. intros H. by rewrite (bind_Ret _ _ _ _ _ (deref_run _ _ _ H)). Qed.

Lemma bind_record_call {B} c (k : unit -> M B) w :
  bind (record_call c) k w = k tt (add_call c w).
Proof. done. Qed.

Lemma with_resource_None_id n : m_resource n = None -> with_resource None n = n.
Proof. destruct n. simpl. by intros ->. Qed.

Lemma CheckDevice_run this dc w n :
  heap w !! this = Some n ->
  CheckDevice this dc w =
    if bool_decide (Some (dc_identity dc) <> m_previousDeviceIdentity n)
    then Ret true
           (set_node this
              (with_resource None (with_previousDeviceIdentity (Some (dc_identity dc)) n))
              (add_calls (released n) w))
    else Ret false w.
Proof.
  intros Hn. unfold CheckDevice. rewrite (bind_deref _ _ _ _ Hn).
  case_decide as Hid.
  2:{ rewrite bool_decide_eq_false_2; [done | by intros H; apply H]. }
  rewrite bool_decide_eq_true_2 by done.
  rewrite (bind_modify _ _ _ _ _ Hn).
  unfold Reset_resource. rewrite bind_bind.
  rewrite (bind_deref _ _ _ _ (heap_set_node_eq _ _ _)).
  unfold released. simpl. destruct (m_resource n) as [r|] eqn:Hr.
  - rewrite bind_bind, bind_record_call.
    rewrite (bind_modify _ _ _ _ (with_previousDeviceIdentity (Some (dc_identity dc)) n)).
    2:{ apply lookup_insert_eq. }
    unfold ret. f_equal. apply World_eq; simpl; [|done..].
    by rewrite insert_insert_eq.
  - unfold bind, ret. f_equal. rewrite add_calls_nil. f_equal.
    destruct n; simpl in *. by subst.
Qed.

Lemma EnsureResource_run this dc w n :
  heap w !! this = Some n ->
  EnsureResource this dc w =
    match m_resource n with
    | Some _ => Ret tt w
    | None =>
        let hr := dc_CreateEffect dc (m_effectId n) in
        let r := mkEffect (allocated w) (m_effectId n) (dc_identity dc) in
        if FAILED hr then Throw (mkException hr None) w
        else Ret tt (mkWorld (<[this := with_resource (Some r) n]> (heap w))
                       (S (allocated w)) (d2d_calls w ++ [Call_CreateEffect r]))
    end.
Proof.
  intros Hn. unfold EnsureResource. rewrite (bind_deref _ _ _ _ Hn).
  destruct (m_resource n) as [r|] eqn:Hr; [done|].
  unfold D2D_CreateEffect. rewrite bind_bind, (bind_deref _ _ _ _ Hn).
  simpl. destruct (FAILED (dc_CreateEffect dc (m_effectId n))) eqn:Hhr.
  - rewrite bind_ret. unfold ThrowIfFailed. by rewrite Hhr.
  - rewrite !bind_bind. unfold bind at 1. unfold new_effect.
    rewrite bind_bind, bind_record_call. rewrite bind_bind.
    rewrite (bind_modify _ _ _ _ n) by done.
    rewrite bind_ret. unfold ThrowIfFailed. by rewrite Hhr.
Qed.

Lemma ApplyProperties_run this wasRecreated w n r :
  heap w !! this = Some n -> m_resource n = Some r ->
  ApplyProperties d2d this wasRecreated w =
    if wasRecreated || IsChanged (m_properties n) then
      match properties_run d2d r (visited (InternalVector (m_properties n))) 0 with
      | (cs, None) =>
          Ret tt (set_node this (with_properties (SetChanged false (m_properties n)) n)
                    (add_calls cs w))
      | (cs, Some hr) => Throw (mkException hr None) (add_calls cs w)
      end
    else Ret tt w.
Proof.
  intros Hn Hr. unfold ApplyProperties. rewrite (bind_deref _ _ _ _ Hn).
  destruct (wasRecreated || IsChanged (m_properties n)); [|done].
  unfold bind at 1. erewrite SetProperties_run by eauto.
  destruct (properties_run d2d r (visited (InternalVector (m_properties n))) 0) as [cs [hr|]];
    [done|].
  by rewrite (modify_run _ _ _ n).
Qed.
Lemma Prologue_run this dc w n :
  heap w !! this = Some n ->
  Prologue d2d this dc w =
    let p := prepare d2d dc (allocated w) n in
    match p.2 with
    | inl hr => Throw (mkException hr None) (prepared_world this w p)
    | inr b => Ret b (prepared_world this w p)
    end.
Proof.
  intros Hn. unfold Prologue.
  assert (Hprops : forall wr r cs alloc n2 w2,
    heap w2 = <[this := n2]> (heap w) -> allocated w2 = alloc ->
    d2d_calls w2 = d2d_calls w ++ cs -> m_resource n2 = Some r ->
    (ApplyProperties d2d this wr;; ret wr) w2 =
    let p := prepare_properties d2d wr r cs alloc n2 in
    match p.2 with
    | inl hr => Throw (mkException hr None) (prepared_world this w p)
    | inr b => Ret b (prepared_world this w p)
    end).
  { intros wr r cs alloc n2 w2 Hh Ha Hc Hr.
    assert (Hn2 : heap w2 !! this = Some n2) by (rewrite Hh; apply lookup_insert_eq).
    unfold bind. erewrite ApplyProperties_run by eauto.
    unfold prepare_properties.
    destruct (wr || IsChanged (m_properties n2)).
    - destruct (properties_run d2d r (visited (InternalVector (m_properties n2))) 0)
        as [cs' [hr|]]; simpl; f_equal; apply World_eq; simpl; try done.
      + by rewrite Hc, app_assoc.
      + by rewrite Hh, insert_insert_eq.
      + by rewrite Hc, app_assoc.
    - simpl. unfold ret. f_equal. by apply World_eq. }
  unfold bind at 1. rewrite (CheckDevice_run _ _ _ _ Hn). unfold prepare.
  destruct (bool_decide (Some (dc_identity dc) <> m_previousDeviceIdentity n)) eqn:Hid.
  - unfold bind at 1.
    rewrite (EnsureResource_run _ _ _ _ (heap_set_node_eq _ _ _)). simpl.
    destruct (FAILED (dc_CreateEffect dc (m_effectId n))) eqn:Hhr.
    { simpl. f_equal. }
    apply Hprops; simpl; try done.
    + by rewrite insert_insert_eq.
    + by rewrite app_assoc.
  - unfold bind at 1. rewrite (EnsureResource_run _ _ _ _ Hn).
    destruct (m_resource n) as [r|] eqn:Hr.
    { apply Hprops; simpl; try done.
      - by rewrite insert_id.
      - by rewrite app_nil_r. }
    simpl. destruct (FAILED (dc_CreateEffect dc (m_effectId n))) eqn:Hhr.
    { simpl. f_equal. apply World_eq; simpl; try done.
      - by rewrite insert_id.
      - by rewrite app_nil_r. }
    by apply Hprops.
Qed.
Lemma properties_run_marshals r slots i cs :
  properties_run d2d r slots i = (cs, None) -> Forall marshals slots.
Proof.
  revert i cs. induction slots as [|[p|] slots IH]; intros i cs; simpl; [done| |done].
  destruct (marshal p) as [hr|v] eqn:Hm; [done|].
  destruct (FAILED (SetValue_hr d2d r i v)); [done|].
  destruct (properties_run d2d r slots (S i)) as [cs' e] eqn:Hrun.
  intros [= <- ->]. constructor; [by exists p, v | by eapply IH].
Qed.

Lemma properties_run_calls r slots i cs j slot :
  properties_run d2d r slots i = (cs, None) -> slots !! j = Some slot ->
  exists p v, slot = Some p /\ marshal p = inr v /\
              SUCCEEDED (SetValue_hr d2d r (i + j) v) = true /\
              Call_SetValue r (i + j) v ∈ cs.
Proof.
  revert i cs j. induction slots as [|[p|] slots IH]; intros i cs j; simpl; [done| |done].
  destruct (marshal p) as [hr|v] eqn:Hm; [done|].
  destruct (FAILED (SetValue_hr d2d r i v)) eqn:Hf; [done|].
  destruct (properties_run d2d r slots (S i)) as [cs' e] eqn:Hrun.
  intros [= <- ->]. destruct j as [|j]; simpl.
  - intros [= <-]. exists p, v. rewrite Nat.add_0_r.
    rewrite FAILED_SUCCEEDED in Hf. apply negb_false_iff in Hf.
    repeat split; [done..|]. apply list_elem_of_here.
  - intros Hj. destruct (IH _ _ _ Hrun Hj) as (p' & v' & -> & Hm' & Hs & Hin).
    exists p', v'. replace (i + S j)%nat with (S i + j)%nat by lia.
    repeat split; [done..|]. by apply list_elem_of_further.
Qed.

Lemma prepare_properties_evolves id wr r cs alloc n :
  node_evolves id n (prepare_properties d2d wr r cs alloc n).1.2 /\
  (prepare_properties d2d wr r cs alloc n).1.1.2 = alloc /\
  cs `prefix_of` (prepare_properties d2d wr r cs alloc n).1.1.1.
Proof.
  unfold prepare_properties.
  destruct (wr || IsChanged (m_properties n)).
  2:{ simpl. split; [apply node_evolves_refl | done]. }
  destruct (properties_run d2d r (visited (InternalVector (m_properties n))) 0)
    as [cs' [hr|]] eqn:Hrun; simpl.
  { split; [apply node_evolves_refl|]. split; [done | by apply prefix_app_r]. }
  split; [|split; [done | by apply prefix_app_r]].
  split; simpl; try done.
  intros Hnot. destruct Hnot. by eapply properties_run_marshals.
Qed.

Lemma prepare_evolves dc alloc n :
  node_evolves (dc_identity dc) n (prepare d2d dc alloc n).1.2 /\
  (alloc <= (prepare d2d dc alloc n).1.1.2)%nat.
Proof.
  unfold prepare.
  set (id := dc_identity dc).
  destruct (bool_decide (Some id <> m_previousDeviceIdentity n)) eqn:Hid.
  - apply bool_decide_eq_true_1 in Hid. simpl.
    assert (Hev : forall o, node_evolves id n
               (with_resource o (with_previousDeviceIdentity (Some id) n))).
    { intros o. split; simpl; try done; intros H; by rewrite H in Hid. }
    destruct (FAILED (dc_CreateEffect dc (m_effectId n))); simpl.
    { split; [apply Hev | done]. }
    edestruct prepare_properties_evolves as (H1 & H2 & H3).
    split.
    + eapply node_evolves_trans; [|apply H1]. apply (Hev (Some _)).
    + rewrite H2. lia.
  - destruct (m_resource n) as [r|] eqn:Hr.
    { edestruct prepare_properties_evolves as (H1 & H2 & H3).
      split; [apply H1 | by rewrite H2]. }
    destruct (FAILED (dc_CreateEffect dc (m_effectId n))); simpl.
    { split; [apply node_evolves_refl | done]. }
    edestruct prepare_properties_evolves as (H1 & H2 & H3).
    split.
    + eapply node_evolves_trans; [|apply H1].
      split; simpl; try done. rewrite Hr. by intros _ [? ?].
    + rewrite H2. lia.
Qed.

Lemma frames_Prologue this dc : frames (dc_identity dc) (Prologue d2d this dc).
Proof.
  intros w. destruct (heap w !! this) as [n|] eqn:Hn.
  2:{ unfold Prologue, CheckDevice, bind, deref. by rewrite Hn. }
  erewrite Prologue_run by eauto. simpl.
  destruct (prepare_evolves dc (allocated w) n) as [Hev Hal].
  assert (World_evolves (dc_identity dc) w
            (prepared_world this w (prepare d2d dc (allocated w) n))).
  { split; simpl; [|by apply prefix_app_r|done].
    intros a. destruct (decide (this = a)) as [<-|Hne].
    - rewrite lookup_insert_eq, Hn. by constructor.
    - rewrite lookup_insert_ne by done.
      destruct (heap w !! a); constructor. apply node_evolves_refl. }
  by destruct ((prepare d2d dc (allocated w) n).2).
Qed.
Section Inputs.

Variable realize : EffectRef -> option ID2D1DeviceContext -> M ID2D1Image.
Variable dc : ID2D1DeviceContext.
Hypothesis realize_frames : forall x, frames (dc_identity dc) (realize x (Some dc)).

Lemma frames_input_at this i : frames (dc_identity dc) (input_at this i).
Proof.
  apply frames_bind; [apply frames_deref|]. intros n.
  destruct (InternalVector (m_inputs n) !! i); [apply frames_ret | apply frames_fault].
Qed.

Lemma frames_input_GetD2DImage internalInput :
  frames (dc_identity dc) (input_GetD2DImage realize internalInput (Some dc)).
Proof.
  destruct internalInput as [[e|hr image]|]; simpl.
  - apply realize_frames.
  - apply frames_bind; [apply frames_ThrowIfFailed|]. intros _. apply frames_ret.
  - apply frames_fault.
Qed.

Lemma frames_SetInput_at this i :
  frames (dc_identity dc) (SetInput_at realize this dc i).
Proof.
  apply frames_bind; [apply frames_input_at|]. intros [input|]; [|apply frames_ThrowHR].
  destruct (As_ICanvasImageInternal input) as [hr internalInput].
  apply frames_bind.
  { destruct (hr =? E_NOINTERFACE);
      [apply frames_ThrowHR_message | apply frames_ThrowIfFailed]. }
  intros _. apply frames_bind; [apply frames_input_GetD2DImage|]. intros image.
  apply frames_bind; [apply frames_resource|]. intros r. apply frames_record_call.
Qed.

Lemma frames_SetInputs_from this k i :
  frames (dc_identity dc) (SetInputs_from realize this dc k i).
Proof.
  revert i. induction k as [|k IH]; intros i; simpl; [apply frames_ret|].
  apply frames_bind; [apply frames_SetInput_at | by intros _].
Qed.

(** An iteration that returns found its slot occupied. *)
Lemma SetInput_at_Ret this i w w' n :
  heap w !! this = Some n -> SetInput_at realize this dc i w = Ret tt w' ->
  exists input, InternalVector (m_inputs n) !! i = Some (Some input).
Proof.
  intros Hn. unfold SetInput_at, input_at. rewrite bind_bind.
  erewrite bind_deref by eauto.
  destruct (InternalVector (m_inputs n) !! i) as [[input|]|]; [eauto|done..].
Qed.

Lemma SetInputs_from_Ret this k i w w' n :
  heap w !! this = Some n -> SetInputs_from realize this dc k i w = Ret tt w' ->
  forall j, (i <= j < i + k)%nat ->
    exists input, InternalVector (m_inputs n) !! j = Some (Some input).
Proof.
  revert i w n. induction k as [|k IH]; intros i w n Hn Hrun j Hj; [lia|].
  simpl in Hrun. apply bind_inv_Ret in Hrun as ([] & w1 & Hat & Hrun).
  destruct (decide (j = i)) as [->|Hne]; [by eapply SetInput_at_Ret|].
  pose proof (frames_SetInput_at this i w) as Hev. rewrite Hat in Hev.
  destruct (evolves_lookup _ _ _ _ _ Hev Hn) as (n1 & Hn1 & Hnode).
  rewrite <- (ev_inputs _ _ _ Hnode). eapply IH; [done..|lia].
Qed.

Lemma frames_SetInputs this : frames (dc_identity dc) (SetInputs realize this dc).
Proof.
  intros w. unfold SetInputs.
  destruct (heap w !! this) as [n|] eqn:Hn.
  2:{ unfold bind, deref. by rewrite Hn. }
  erewrite bind_deref by eauto.
  destruct (m_resource n) as [r|] eqn:Hr.
  2:{ unfold bind at 1, resource. erewrite bind_deref by eauto. by rewrite Hr. }
  erewrite bind_Ret by (by eapply resource_run).
  rewrite bind_record_call.
  set (size := to_unsigned_int (length (InternalVector (m_inputs n)))).
  unfold bind at 1.
  pose proof (frames_SetInputs_from this size 0 (add_call (Call_SetInputCount r size) w)) as Hev.
  assert (Hw1 : World_evolves (dc_identity dc) w (add_call (Call_SetInputCount r size) w))
    by apply (evolves_add_calls _ [_]).
  destruct (SetInputs_from realize this dc size 0 (add_call (Call_SetInputCount r size) w))
    as [[] w2|e w2| |] eqn:Hrun; [|by eapply World_evolves_trans|done..].
  assert (Hw2 : World_evolves (dc_identity dc) w w2) by by eapply World_evolves_trans.
  destruct (evolves_lookup _ _ _ _ _ Hw2 Hn) as (n2 & Hn2 & Hnode).
  erewrite modify_run by eauto.
  eapply World_evolves_trans; [done|].
  eapply evolves_set_node; [done|].
  split; simpl; try done.
  intros Hnot. destruct Hnot.
  rewrite (ev_inputs _ _ _ Hnode).
  apply Forall_lookup. intros j slot Hj.
  assert (j < size)%nat.
  { apply lookup_lt_Some in Hj. by rewrite length_visited in Hj. }
  rewrite visited_lookup in Hj by done.
  destruct (SetInputs_from_Ret this size 0 (add_call (Call_SetInputCount r size) w) _ n
              Hn Hrun j) as [input Hin]; [lia|].
  rewrite Hin in Hj. by injection Hj as <-.
Qed.

Lemma frames_ApplyInputs this wr :
  frames (dc_identity dc) (ApplyInputs realize this dc wr).
Proof.
  apply frames_bind; [apply frames_deref|]. intros n.
  destruct (wr || IsChanged (m_inputs n)); [apply frames_SetInputs | apply frames_ret].
Qed.

End Inputs.

Lemma frames_ReturnImage id this : frames id (ReturnImage d2d this).
Proof.
  apply frames_bind; [apply frames_resource|]. intros r.
  apply frames_bind; [apply frames_ThrowIfFailed|]. intros _. apply frames_ret.
Qed.

Lemma GetD2DImage_body_Prologue realize this dc w :
  GetD2DImage_body d2d realize this (Some dc) w =
    (wasRecreated <- Prologue d2d this dc ;;
     ApplyInputs realize this dc wasRecreated ;;
     ReturnImage d2d this) w.
Proof.
  unfold GetD2DImage_body, Prologue. simpl. rewrite bind_ret.
  unfold bind.
  destruct (CheckDevice this dc w) as [wr w1| | |]; [|done..].
  destruct (EnsureResource this dc w1) as [[] w2| | |]; [|done..].
  by destruct (ApplyProperties d2d this wr w2) as [[] w3| | |].
Qed.

Lemma frames_GetD2DImage fuel this dc :
  frames (dc_identity dc) (GetD2DImage d2d fuel this (Some dc)).
Proof.
  revert this. induction fuel as [|fuel IH]; intros this; [done|].
  intros w. simpl. rewrite GetD2DImage_body_Prologue.
  revert w. apply frames_bind; [apply frames_Prologue|]. intros wr.
  apply frames_bind; [by apply frames_ApplyInputs|]. intros _.
  apply frames_ReturnImage.
Qed.
Lemma prepared_world_lookup this w p : heap (prepared_world this w p) !! this = Some p.1.2.
Proof. apply lookup_insert_eq. Qed.

Lemma prepare_properties_Ret wr r cs alloc n b :
  (prepare_properties d2d wr r cs alloc n).2 = inr b ->
  b = wr /\
  IsChanged (m_properties (prepare_properties d2d wr r cs alloc n).1.2) =
    (if wr then false else IsChanged (m_properties n) && negb (IsChanged (m_properties n))) /\
  m_resource (prepare_properties d2d wr r cs alloc n).1.2 = m_resource n /\
  m_previousDeviceIdentity (prepare_properties d2d wr r cs alloc n).1.2 =
    m_previousDeviceIdentity n /\
  m_inputs (prepare_properties d2d wr r cs alloc n).1.2 = m_inputs n.
Proof.
  unfold prepare_properties.
  destruct wr; simpl.
  - destruct (properties_run d2d r (visited (InternalVector (m_properties n))) 0)
      as [cs' [hr|]]; simpl; [done|]. by intros [= <-].
  - destruct (IsChanged (m_properties n)) eqn:Hc; simpl.
    + destruct (properties_run d2d r (visited (InternalVector (m_properties n))) 0)
        as [cs' [hr|]]; simpl; [done|]. by intros [= <-].
    + intros [= <-]. by rewrite Hc.
Qed.

Lemma prepare_Ret dc alloc n b :
  (prepare d2d dc alloc n).2 = inr b ->
  b = bool_decide (Some (dc_identity dc) <> m_previousDeviceIdentity n) /\
  m_previousDeviceIdentity (prepare d2d dc alloc n).1.2 = Some (dc_identity dc) /\
  is_Some (m_resource (prepare d2d dc alloc n).1.2) /\
  IsChanged (m_properties (prepare d2d dc alloc n).1.2) = false /\
  m_inputs (prepare d2d dc alloc n).1.2 = m_inputs n.
Proof.
  unfold prepare.
  destruct (bool_decide (Some (dc_identity dc) <> m_previousDeviceIdentity n)) eqn:Hid; simpl.
  - destruct (FAILED (dc_CreateEffect dc (m_effectId n))); [done|].
    intros (-> & H1 & H2 & H3 & H4)%prepare_properties_Ret.
    rewrite H1, H2, H3, H4. simpl. eauto.
  - apply bool_decide_eq_false_1 in Hid.
    assert (Hprev : m_previousDeviceIdentity n = Some (dc_identity dc)).
    { destruct (decide (Some (dc_identity dc) = m_previousDeviceIdentity n)); [done|].
      by destruct Hid. }
    destruct (m_resource n) as [r|] eqn:Hr.
    + intros (-> & H1 & H2 & H3 & H4)%prepare_properties_Ret.
      rewrite H1, H2, H3, H4, Hr. split_and!; eauto. by destruct (IsChanged (m_properties n)).
    + destruct (FAILED (dc_CreateEffect dc (m_effectId n))); [done|].
      intros (-> & H1 & H2 & H3 & H4)%prepare_properties_Ret.
      rewrite H1, H2, H3, H4. simpl. split_and!; eauto.
      by destruct (IsChanged (m_properties n)).
Qed.

Lemma Prologue_inv_Ret this dc w wr w1 :
  Prologue d2d this dc w = Ret wr w1 ->
  exists n, heap w !! this = Some n /\
    (prepare d2d dc (allocated w) n).2 = inr wr /\
    w1 = prepared_world this w (prepare d2d dc (allocated w) n).
Proof.
  intros H. destruct (heap w !! this) as [n|] eqn:Hn.
  2:{ unfold Prologue, CheckDevice, bind, deref in H. by rewrite Hn in H. }
  erewrite Prologue_run in H by eauto. simpl in H. exists n.
  destruct ((prepare d2d dc (allocated w) n).2); [done|].
  by injection H as -> ->.
Qed.

Lemma ReturnImage_inv_Ret this w img w' :
  ReturnImage d2d this w = Ret img w' ->
  w' = w /\ exists n r, heap w !! this = Some n /\ m_resource n = Some r /\
    img = EffectOutput r /\ SUCCEEDED (As_ID2D1Image_hr d2d r) = true.
Proof.
  unfold ReturnImage. intros H.
  apply bind_inv_Ret in H as (r & w1 & [-> (n & Hn & Hr)]%resource_inv & H).
  unfold bind, ThrowIfFailed in H.
  destruct (FAILED (As_ID2D1Image_hr d2d r)) eqn:Hf; [done|].
  injection H as <- <-. split; [done|]. exists n, r.
  rewrite FAILED_SUCCEEDED in Hf. by apply negb_false_iff in Hf.
Qed.

Lemma ReturnImage_run this w n r :
  heap w !! this = Some n -> m_resource n = Some r ->
  ReturnImage d2d this w =
    if FAILED (As_ID2D1Image_hr d2d r)
    then Throw (mkException (As_ID2D1Image_hr d2d r) None) w
    else Ret (EffectOutput r) w.
Proof.
  intros Hn Hr. unfold ReturnImage. erewrite bind_Ret by (by eapply resource_run).
  unfold bind, ThrowIfFailed. by destruct (FAILED (As_ID2D1Image_hr d2d r)).
Qed.

(** A realization that returns leaves the effect with nothing to apply. *)
Lemma GetD2DImage_Ret_clean fuel this dc w img w' :
  GetD2DImage d2d fuel this (Some dc) w = Ret img w' ->
  exists n' r, heap w' !! this = Some n' /\ clean d2d (dc_identity dc) r n' /\
    img = EffectOutput r.
Proof.
  destruct fuel as [|fuel]; [done|]. simpl. rewrite GetD2DImage_body_Prologue.
  intros H.
  apply bind_inv_Ret in H as (wr & w1 & Hpro & H).
  apply bind_inv_Ret in H as ([] & w2 & Hin & Himg).
  apply Prologue_inv_Ret in Hpro as (n & Hn & Hres & ->).
  apply prepare_Ret in Hres as (-> & Hid & Hr & Hp & Hi).
  set (p := prepare d2d dc (allocated w) n) in *.
  apply ReturnImage_inv_Ret in Himg as (-> & n2 & r & Hn2 & Hr2 & -> & Has).
  exists n2, r. split; [done|]. split; [|done].
  assert (Hev : frames (dc_identity dc)
            (ApplyInputs (GetD2DImage d2d fuel) this dc
               (bool_decide (Some (dc_identity dc) <> m_previousDeviceIdentity n))))
    by (apply frames_ApplyInputs; intros; apply frames_GetD2DImage).
  specialize (Hev (prepared_world this w p)). rewrite Hin in Hev.
  destruct (evolves_lookup _ _ _ _ _ Hev (prepared_world_lookup _ _ _)) as (n2' & Hn2' & Hnode).
  rewrite Hn2 in Hn2'. injection Hn2' as <-.
  split_and!; try done.
  - by apply (ev_device _ _ _ Hnode).
  - destruct (IsChanged (m_properties n2)) eqn:Hc; [|done].
    rewrite <- Hp. symmetry. by apply (ev_properties_changed _ _ _ Hnode).
  - unfold ApplyInputs in Hin.
    erewrite bind_deref in Hin by apply prepared_world_lookup.
    destruct (_ || _) eqn:Hrun in Hin.
    + unfold SetInputs in Hin.
      apply bind_inv_Ret in Hin as (n1 & w3 & _ & Hin).
      apply bind_inv_Ret in Hin as (r1 & w4 & _ & Hin).
      apply bind_inv_Ret in Hin as ([] & w5 & _ & Hin).
      apply bind_inv_Ret in Hin as ([] & w6 & _ & Hin).
      unfold modify in Hin. destruct (heap w6 !! this) as [n6|] eqn:Hn6; [|done].
      injection Hin as <-. rewrite heap_set_node_eq in Hn2. by injection Hn2 as <-.
    + injection Hin as <-. rewrite prepared_world_lookup in Hn2. injection Hn2 as <-.
      apply orb_false_iff in Hrun as [_ Hrun]. done.
Qed.

(** Realizing an effect that has nothing to apply does nothing. *)
Lemma GetD2DImage_clean fuel this dc w n r :
  heap w !! this = Some n -> clean d2d (dc_identity dc) r n ->
  GetD2DImage d2d (S fuel) this (Some dc) w = Ret (EffectOutput r) w.
Proof.
  intros Hn (Hid & Hr & Hp & Hi & Has). simpl. rewrite GetD2DImage_body_Prologue.
  assert (Hprep : prepare d2d dc (allocated w) n = ([], allocated w, n, inr false)).
  { unfold prepare. rewrite bool_decide_eq_false_2 by (by rewrite Hid; intros H; apply H).
    rewrite Hr. unfold prepare_properties. by rewrite Hp. }
  erewrite bind_Ret.
  2:{ erewrite Prologue_run by eauto. rewrite Hprep. simpl. reflexivity. }
  assert (Hw : prepared_world this w ([], allocated w, n, inr false) = w).
  { apply World_eq; simpl; [by apply insert_id|done|by rewrite app_nil_r]. }
  rewrite Hw. unfold ApplyInputs. rewrite bind_bind. erewrite bind_deref by eauto.
  rewrite Hi. simpl. rewrite bind_ret.
  erewrite ReturnImage_run by eauto.
  rewrite FAILED_SUCCEEDED, Has. done.
Qed.
Section Inputs_calls.

Variable realize : EffectRef -> option ID2D1DeviceContext -> M ID2D1Image.
Variable dc : ID2D1DeviceContext.
Hypothesis realize_frames : forall x, frames (dc_identity dc) (realize x (Some dc)).

Lemma SetInputs_from_split this a b i w :
  SetInputs_from realize this dc (a + b) i w =
    (SetInputs_from realize this dc a i ;; SetInputs_from realize this dc b (i + a))%m w.
Proof.
  revert i w. induction a as [|a IH]; intros i w; simpl.
  - rewrite bind_ret. by rewrite Nat.add_0_r.
  - unfold bind.
    destruct (SetInput_at realize this dc i w) as [[] w1| | |]; [|done..].
    rewrite IH. unfold bind. by replace (S i + a)%nat with (i + S a)%nat by lia.
Qed.

Lemma SetInputs_run this w n r :
  heap w !! this = Some n -> m_resource n = Some r ->
  SetInputs realize this dc w =
    let size := to_unsigned_int (length (InternalVector (m_inputs n))) in
    (SetInputs_from realize this dc size 0 ;;
     modify this (fun n => with_inputs (SetChanged false (m_inputs n)) n))%m
      (add_call (Call_SetInputCount r size) w).
Proof.
  intros Hn Hr. unfold SetInputs. erewrite bind_deref by eauto.
  erewrite bind_Ret by (by eapply resource_run). by rewrite bind_record_call.
Qed.

(** What an iteration that returns has done. *)
Lemma SetInput_at_inv_Ret this i w w' n r :
  heap w !! this = Some n -> m_previousDeviceIdentity n = Some (dc_identity dc) ->
  m_resource n = Some r ->
  SetInput_at realize this dc i w = Ret tt w' ->
  exists input internalInput image w1,
    InternalVector (m_inputs n) !! i = Some (Some input) /\
    As_ICanvasImageInternal input = (S_OK, Some internalInput) /\
    input_GetD2DImage realize (Some internalInput) (Some dc) w = Ret image w1 /\
    w' = add_call (Call_SetInput r i image) w1.
Proof.
  intros Hn Hid Hr. unfold SetInput_at, input_at. rewrite bind_bind.
  erewrite bind_deref by eauto.
  destruct (InternalVector (m_inputs n) !! i) as [[input|]|]; [|done..].
  rewrite bind_ret. destruct input as [x|hr]; cbn [As_ICanvasImageInternal].
  - change (S_OK =? E_NOINTERFACE) with false. cbv iota.
    change (ThrowIfFailed S_OK) with (@ret unit tt). rewrite bind_ret. intros H.
    apply bind_inv_Ret in H as (image & w1 & Himg & H).
    assert (Hev : World_evolves (dc_identity dc) w w1).
    { assert (Hf : frames (dc_identity dc)
                (input_GetD2DImage realize (Some x) (Some dc)))
        by by apply frames_input_GetD2DImage.
      specialize (Hf w). by rewrite Himg in Hf. }
    destruct (evolves_lookup _ _ _ _ _ Hev Hn) as (n1 & Hn1 & Hnode).
    assert (Hr1 : m_resource n1 = Some r).
    { rewrite <- Hr. apply (ev_resource _ _ _ Hnode); [done|]. by rewrite Hr. }
    erewrite bind_Ret in H by (by eapply resource_run).
    injection H as <-. by exists (Input_Internal x), x, image, w1.
  - intros H. apply bind_inv_Ret in H as ([] & w1 & Hqi & H).
    destruct (hr =? E_NOINTERFACE); [done|].
    unfold ThrowIfFailed in Hqi. destruct (FAILED hr); [done|].
    by injection Hqi as <-.
Qed.

Lemma SetInputs_from_calls this k i w w' n r :
  heap w !! this = Some n -> m_previousDeviceIdentity n = Some (dc_identity dc) ->
  m_resource n = Some r ->
  SetInputs_from realize this dc k i w = Ret tt w' ->
  exists cs, d2d_calls w' = d2d_calls w ++ cs /\
    forall j, (i <= j < i + k)%nat ->
      exists input image,
        InternalVector (m_inputs n) !! j = Some (Some input) /\
        Call_SetInput r j image ∈ cs.
Proof.
  revert i w n. induction k as [|k IH]; intros i w n Hn Hid Hr Hrun.
  { injection Hrun as <-. exists []. split; [by rewrite app_nil_r | lia]. }
  simpl in Hrun. apply bind_inv_Ret in Hrun as ([] & w1 & Hat & Hrun).
  assert (Hev : World_evolves (dc_identity dc) w w1).
  { assert (Hf : frames (dc_identity dc) (SetInput_at realize this dc i))
      by by apply frames_SetInput_at.
    specialize (Hf w). by rewrite Hat in Hf. }
  destruct (evolves_lookup _ _ _ _ _ Hev Hn) as (n1 & Hn1 & Hnode).
  assert (Hr1 : m_resource n1 = Some r).
  { rewrite <- Hr. apply (ev_resource _ _ _ Hnode); [done|]. by rewrite Hr. }
  destruct (IH _ _ _ Hn1 (ev_device _ _ _ Hnode Hid) Hr1 Hrun) as (cs & Hcs & Hall).
  destruct (SetInput_at_inv_Ret _ _ _ _ _ _ Hn Hid Hr Hat)
    as (input & x & image & wa & Hslot & _ & Himg & ->).
  assert (Hpre : d2d_calls w `prefix_of` d2d_calls wa).
  { assert (Hf : frames (dc_identity dc)
              (input_GetD2DImage realize (Some x) (Some dc)))
      by by apply frames_input_GetD2DImage.
    specialize (Hf w). rewrite Himg in Hf. apply Hf. }
  destruct Hpre as [csa Hcsa].
  exists (csa ++ [Call_SetInput r i image] ++ cs). split.
  { rewrite Hcs. simpl. rewrite Hcsa. by rewrite <- !app_assoc. }
  intros j Hj. destruct (decide (j = i)) as [->|Hne].
  - exists input, image. split; [done|].
    rewrite !elem_of_app, list_elem_of_singleton. auto.
  - destruct (Hall j) as (input' & image' & Hslot' & Hin); [lia|].
    exists input', image'. rewrite <- (ev_inputs _ _ _ Hnode). split; [done|].
    rewrite !elem_of_app, list_elem_of_singleton. auto.
Qed.

End Inputs_calls.
Lemma prepare_recreated dc alloc n b :
  Some (dc_identity dc) <> m_previousDeviceIdentity n ->
  (prepare d2d dc alloc n).2 = inr b ->
  let r := mkEffect alloc (m_effectId n) (dc_identity dc) in
  exists cs,
    properties_run d2d r (visited (InternalVector (m_properties n))) 0 = (cs, None) /\
    prepare d2d dc alloc n =
      (released n ++ [Call_CreateEffect r] ++ cs, S alloc,
       mkCanvasEffect (m_effectId n) (SetChanged false (m_properties n)) (m_inputs n)
         (Some (dc_identity dc)) (Some r),
       inr true).
Proof.
  intros Hid. unfold prepare. rewrite bool_decide_eq_true_2 by done. simpl.
  destruct (FAILED (dc_CreateEffect dc (m_effectId n))); [done|].
  unfold prepare_properties. simpl.
  destruct (properties_run d2d (mkEffect alloc (m_effectId n) (dc_identity dc))
              (visited (InternalVector (m_properties n))) 0) as [cs [hr|]]; [done|].
  intros _. exists cs. split; [done|]. by rewrite <- app_assoc.
Qed.

(** A realization against another device than the previous one, if it
    returns, has created a new effect instance and applied to it every
    property and every input the loops go through. *)
Lemma GetD2DImage_recreated fuel this dc w n img w' :
  heap w !! this = Some n ->
  Some (dc_identity dc) <> m_previousDeviceIdentity n ->
  GetD2DImage d2d (S fuel) this (Some dc) w = Ret img w' ->
  let r := mkEffect (allocated w) (m_effectId n) (dc_identity dc) in
  img = EffectOutput r /\
  exists n' cs,
    heap w' !! this = Some n' /\ clean d2d (dc_identity dc) r n' /\
    d2d_calls w' = d2d_calls w ++ released n ++ Call_CreateEffect r :: cs /\
    (forall i slot, visited (InternalVector (m_properties n)) !! i = Some slot ->
       exists p v, slot = Some p /\ marshal p = inr v /\ Call_SetValue r i v ∈ cs) /\
    Call_SetInputCount r (to_unsigned_int (length (InternalVector (m_inputs n)))) ∈ cs /\
    (forall j slot, visited (InternalVector (m_inputs n)) !! j = Some slot ->
       exists input image, slot = Some input /\ Call_SetInput r j image ∈ cs).
Proof.
  intros Hn Hid Hrun r.
  pose proof Hrun as Hclean.
  apply GetD2DImage_Ret_clean in Hclean as (n' & r' & Hn' & Hclean & ->).
  simpl in Hrun. rewrite GetD2DImage_body_Prologue in Hrun.
  apply bind_inv_Ret in Hrun as (wr & w1 & Hpro & Hrun).
  apply bind_inv_Ret in Hrun as ([] & w2 & Hin & Himg).
  apply Prologue_inv_Ret in Hpro as (n0 & Hn0 & Hres & ->).
  rewrite Hn in Hn0. injection Hn0 as <-.
  pose proof Hres as Hprep.
  apply prepare_recreated in Hprep as (cs1 & Hprops & Hprep); [|done].
  rewrite Hprep in Hres. injection Hres as <-.
  rewrite Hprep in Hin. fold r in Hprops, Hprep, Hin.
  set (n1 := mkCanvasEffect (m_effectId n) (SetChanged false (m_properties n)) (m_inputs n)
               (Some (dc_identity dc)) (Some r)) in *.
  set (w1 := prepared_world this w _) in *.
  assert (Hn1 : heap w1 !! this = Some n1) by apply prepared_world_lookup.
  unfold ApplyInputs in Hin. erewrite bind_deref in Hin by eauto. simpl in Hin.
  erewrite SetInputs_run in Hin by eauto. simpl in Hin.
  set (size := to_unsigned_int (length (InternalVector (m_inputs n)))) in *.
  apply bind_inv_Ret in Hin as ([] & w3 & Hloop & Hmod).
  assert (Hframes : forall x, frames (dc_identity dc) (GetD2DImage d2d fuel x (Some dc)))
    by (intros; apply frames_GetD2DImage).
  pose proof Hloop as Hcalls.
  apply SetInputs_from_calls with (n := n1) (r := r) in Hcalls
    as (cs2 & Hcs2 & Hall); [|done..].
  unfold modify in Hmod. destruct (heap w3 !! this) as [n3|] eqn:Hn3; [|done].
  injection Hmod as <-.
  apply ReturnImage_inv_Ret in Himg as (-> & n4 & r4 & Hn4 & Hr4 & Heq & _).
  rewrite Hn4 in Hn'. injection Hn' as ->.
  destruct Hclean as (Hc1 & Hc2 & Hc3 & Hc4 & Hc5).
  rewrite Hc2 in Hr4. injection Hr4 as <-.
  rewrite heap_set_node_eq in Hn4. injection Hn4 as <-.
  assert (Hrr : r' = r).
  { simpl in Hc2.
    assert (Hf : frames (dc_identity dc) (SetInputs_from (GetD2DImage d2d fuel) this dc size 0))
      by by apply frames_SetInputs_from.
    specialize (Hf (add_call (Call_SetInputCount r size) w1)). rewrite Hloop in Hf.
    destruct (evolves_lookup _ _ _ _ _ Hf Hn1) as (n3' & Hn3' & Hnode).
    rewrite Hn3 in Hn3'. injection Hn3' as <-.
    pose proof (ev_resource _ _ _ Hnode eq_refl (mk_is_Some _ _ eq_refl)) as Hr3.
    rewrite Hc2 in Hr3. by injection Hr3. }
  subst r'. split; [done|].
  exists (with_inputs (SetChanged false (m_inputs n3)) n3),
    (cs1 ++ [Call_SetInputCount r size] ++ cs2).
  split; [apply heap_set_node_eq|]. split; [done|]. split_and!.
  - simpl. rewrite Hcs2. simpl.
    by rewrite <- !app_assoc.
  - intros i slot Hslot.
    edestruct properties_run_calls as (p & v & -> & Hm & _ & Hin);
      [exact Hprops | exact Hslot |].
    exists p, v. split; [done|]. split; [done|]. rewrite elem_of_app. by left.
  - rewrite !elem_of_app, list_elem_of_singleton. auto.
  - intros j slot Hslot.
    assert (j < size)%nat.
    { apply lookup_lt_Some in Hslot. by rewrite length_visited in Hslot. }
    rewrite visited_lookup in Hslot by done.
    destruct (Hall j) as (input & image & Hj & Hin); [lia|].
    simpl in Hj. rewrite Hj in Hslot. injection Hslot as <-.
    exists input, image. split; [done|]. rewrite !elem_of_app. auto.
Qed.
(** From the slot the inputs branch has reached, the realization goes on
    with the rest of the loop. *)
Lemma reaches_input_resume fuel this dc i w wi :
  reaches_input d2d fuel this dc i w wi ->
  exists n ni r,
    heap w !! this = Some n /\ heap wi !! this = Some ni /\
    node_evolves (dc_identity dc) n ni /\
    m_previousDeviceIdentity ni = Some (dc_identity dc) /\
    m_resource ni = Some r /\
    IsChanged (m_properties ni) = false /\
    let inputsSize := to_unsigned_int (length (InternalVector (m_inputs n))) in
    (i < inputsSize)%nat /\
    GetD2DImage d2d (S fuel) this (Some dc) w =
      (SetInputs_from (GetD2DImage d2d fuel) this dc (inputsSize - i) i ;;
       modify this (fun n => with_inputs (SetChanged false (m_inputs n)) n) ;;
       ReturnImage d2d this)%m wi.
Proof.
  intros (n & wr & w1 & r & Hn & Hpro & Hguard & Hres & Hi & Hloop).
  pose proof Hpro as Hinv.
  apply Prologue_inv_Ret in Hinv as (n0 & Hn0 & Hprep & Hw1).
  rewrite Hn in Hn0. injection Hn0 as <-.
  pose proof Hprep as Hfacts.
  apply prepare_Ret in Hfacts as (_ & Hid1 & _ & Hp1 & Hi1).
  set (n1 := (prepare d2d dc (allocated w) n).1.2) in *.
  assert (Hn1 : heap w1 !! this = Some n1) by (rewrite Hw1; apply prepared_world_lookup).
  apply resource_inv in Hres as (_ & n1' & Hn1' & Hr1).
  rewrite Hn1 in Hn1'. injection Hn1' as <-.
  assert (Hev1 : node_evolves (dc_identity dc) n n1) by apply prepare_evolves.
  set (size := to_unsigned_int (length (InternalVector (m_inputs n)))) in *.
  assert (Hf : frames (dc_identity dc) (SetInputs_from (GetD2DImage d2d fuel) this dc i 0)).
  { apply frames_SetInputs_from. intros. apply frames_GetD2DImage. }
  specialize (Hf (add_call (Call_SetInputCount r size) w1)). rewrite Hloop in Hf.
  destruct (evolves_lookup _ _ _ _ _ Hf Hn1) as (ni & Hni & Hnode).
  exists n, ni, r. cbv zeta. fold size. split_and!; try done.
  - by eapply node_evolves_trans.
  - by apply (ev_device _ _ _ Hnode).
  - rewrite <- Hr1. apply (ev_resource _ _ _ Hnode); [done|]. by rewrite Hr1.
  - destruct (IsChanged (m_properties ni)) eqn:Hc; [|done].
    rewrite <- Hp1. symmetry. by apply (ev_properties_changed _ _ _ Hnode).
  - simpl. rewrite GetD2DImage_body_Prologue.
    erewrite bind_Ret by eauto.
    unfold ApplyInputs. rewrite bind_bind.
    erewrite bind_deref by eauto. rewrite Hi1, Hguard.
    unfold bind at 1. erewrite SetInputs_run by eauto. rewrite Hi1. fold size.
    cbv zeta.
    assert (Hsplit :
      SetInputs_from (GetD2DImage d2d fuel) this dc (i + (size - i)) 0
        (add_call (Call_SetInputCount r size) w1) =
      (SetInputs_from (GetD2DImage d2d fuel) this dc i 0 ;;
       SetInputs_from (GetD2DImage d2d fuel) this dc (size - i) (0 + i))%m
        (add_call (Call_SetInputCount r size) w1)) by apply SetInputs_from_split.
    replace (i + (size - i))%nat with size in Hsplit by lia.
    change (0 + i)%nat with i in Hsplit.
    unfold bind at 1 2. rewrite Hsplit.
    unfold bind at 1. rewrite Hloop. unfold bind.
    by destruct (SetInputs_from (GetD2DImage d2d fuel) this dc (size - i) i wi)
      as [[] w3|e w3| |].
Qed.
(** The iteration on slot [i], from a state in which the effect is [ni]. *)
Lemma SetInput_at_run realize this dc i w ni :
  heap w !! this = Some ni ->
  SetInput_at realize this dc i w =
    match InternalVector (m_inputs ni) !! i with
    | None => Fault
    | Some None => Throw (mkException E_POINTER None) w
    | Some (Some input) =>
        if (As_ICanvasImageInternal input).1 =? E_NOINTERFACE then
          Throw (mkException (As_ICanvasImageInternal input).1
                   (Some (Format EffectWrongInputType i))) w
        else if FAILED (As_ICanvasImageInternal input).1 then
          Throw (mkException (As_ICanvasImageInternal input).1 None) w
        else
          (image <- input_GetD2DImage realize (As_ICanvasImageInternal input).2 (Some dc) ;;
           r <- resource this ;;
           record_call (Call_SetInput r i image))%m w
    end.
Proof.
  intros Hn. unfold SetInput_at, input_at. rewrite bind_bind.
  erewrite bind_deref by eauto.
  destruct (InternalVector (m_inputs ni) !! i) as [[input|]|]; [|done..].
  rewrite bind_ret. destruct (As_ICanvasImageInternal input) as [hr x]. simpl.
  destruct (hr =? E_NOINTERFACE); [done|].
  unfold ThrowIfFailed. by destruct (FAILED hr).
Qed.

Lemma SetInputs_from_S realize this dc k i w :
  SetInputs_from realize this dc (S k) i w =
    (SetInput_at realize this dc i ;; SetInputs_from realize this dc k (S i))%m w.
Proof. done. Qed.



Lemma properties_run_stops r slots k i p hr :
  slots !! i = Some (Some p) -> marshal p = inl hr ->
  (forall j slot, (j < i)%nat -> slots !! j = Some slot ->
     exists pj v, slot = Some pj /\ marshal pj = inr v /\
       SUCCEEDED (SetValue_hr d2d r (k + j) v) = true) ->
  exists cs, properties_run d2d r slots k = (cs, Some hr).
Proof.
  revert slots k. induction i as [|i IH]; intros slots k Hslot Hm Hbefore.
  - destruct slots as [|slot slots]; [done|]. injection Hslot as ->.
    simpl. rewrite Hm. eauto.
  - destruct slots as [|slot slots]; [done|]. simpl in Hslot.
    destruct (Hbefore 0%nat slot) as (pj & v & -> & Hmj & Hok); [lia|done|].
    simpl. rewrite Hmj. rewrite Nat.add_0_r in Hok.
    rewrite FAILED_SUCCEEDED, Hok. simpl.
    destruct (IH slots (S k) Hslot Hm) as [cs Hcs].
    { intros j slot Hj Hlook. destruct (Hbefore (S j) slot) as (pj' & v' & ? & ? & ?);
        [lia|done|]. exists pj', v'. by replace (S k + j)%nat with (k + S j)%nat by lia. }
    rewrite Hcs. eauto.
Qed.

Lemma prepare_properties_throws wr r cs alloc n hr cs' :
  wr || IsChanged (m_properties n) = true ->
  properties_run d2d r (visited (InternalVector (m_properties n))) 0 = (cs', Some hr) ->
  prepare_properties d2d wr r cs alloc n = (cs ++ cs', alloc, n, inl hr).
Proof. intros Hguard Hrun. unfold prepare_properties. by rewrite Hguard, Hrun. Qed.

Lemma prepare_properties_identity wr r cs alloc n :
  m_previousDeviceIdentity (prepare_properties d2d wr r cs alloc n).1.2 =
    m_previousDeviceIdentity n.
Proof.
  unfold prepare_properties. destruct (wr || IsChanged (m_properties n)); [|done].
  by destruct (properties_run d2d r (visited (InternalVector (m_properties n))) 0)
    as [cs' [hr|]].
Qed.

Lemma prepare_identity dc alloc n :
  m_previousDeviceIdentity (prepare d2d dc alloc n).1.2 = Some (dc_identity dc).
Proof.
  unfold prepare.
  destruct (bool_decide (Some (dc_identity dc) <> m_previousDeviceIdentity n)) eqn:Hid; simpl.
  - destruct (FAILED (dc_CreateEffect dc (m_effectId n))); [done|].
    by rewrite prepare_properties_identity.
  - apply bool_decide_eq_false_1 in Hid.
    assert (Hprev : m_previousDeviceIdentity n = Some (dc_identity dc)).
    { destruct (decide (Some (dc_identity dc) = m_previousDeviceIdentity n)); [done|].
      by destruct Hid. }
    destruct (m_resource n) as [r|]; [by rewrite prepare_properties_identity|].
    destruct (FAILED (dc_CreateEffect dc (m_effectId n))); [done|].
    by rewrite prepare_properties_identity.
Qed.

(** Whether it returns or throws, a realization leaves the identity of its
    device in the effect. *)
Lemma GetD2DImage_identity fuel this dc w n :
  heap w !! this = Some n ->
  match GetD2DImage d2d (S fuel) this (Some dc) w with
  | Ret _ w' | Throw _ w' =>
      exists n', heap w' !! this = Some n' /\
        node_evolves (dc_identity dc) n n' /\
        m_previousDeviceIdentity n' = Some (dc_identity dc)
  | Fault | OutOfFuel => True
  end.
Proof.
  intros Hn. simpl. rewrite GetD2DImage_body_Prologue. unfold bind at 1.
  erewrite Prologue_run by eauto. cbv zeta.
  set (p := prepare d2d dc (allocated w) n).
  assert (Hp : heap (prepared_world this w p) !! this = Some p.1.2)
    by apply prepared_world_lookup.
  assert (Hnode : node_evolves (dc_identity dc) n p.1.2) by apply prepare_evolves.
  assert (Hid : m_previousDeviceIdentity p.1.2 = Some (dc_identity dc))
    by apply prepare_identity.
  destruct p.2 as [hr|wr]; [eauto|].
  assert (Hf : frames (dc_identity dc)
            (ApplyInputs (GetD2DImage d2d fuel) this dc wr ;; ReturnImage d2d this)%m).
  { apply frames_bind; [|intros; apply frames_ReturnImage].
    apply frames_ApplyInputs. intros. apply frames_GetD2DImage. }
  specialize (Hf (prepared_world this w p)).
  destruct ((ApplyInputs (GetD2DImage d2d fuel) this dc wr ;; ReturnImage d2d this)%m
              (prepared_world this w p)) as [img w'|e w'| |]; try done;
    destruct (evolves_lookup _ _ _ _ _ Hf Hp) as (n' & Hn' & Hnode');
    exists n'; (split; [done|]); (split; [by eapply node_evolves_trans|]);
    by apply (ev_device _ _ _ Hnode').
Qed.


(** ** The changed flags stay in step with the contents *)

Lemma Forall_marshals_dec slots : {Forall marshals slots} + {~ Forall marshals slots}.
Proof.
  apply Forall_dec. intros [p|].
  - destruct (marshal p) as [hr|v] eqn:Hm.
    + right. intros (p' & v & [= <-] & Hv). by rewrite Hm in Hv.
    + left. by exists p, v.
  - right. by intros (p & v & ? & _).
Qed.

Lemma node_evolves_tracked id n n' :
  node_evolves id n n' ->
  (properties_tracked n -> properties_tracked n') /\
  (inputs_tracked n -> inputs_tracked n').
Proof.
  intros Hnode. unfold properties_tracked, inputs_tracked.
  rewrite (ev_properties _ _ _ Hnode), (ev_inputs _ _ _ Hnode). split.
  - intros Hwf Hc.
    destruct (Forall_marshals_dec (visited (InternalVector (m_properties n))))
      as [|Hnot]; [done|].
    apply Hwf. by rewrite <- (ev_properties_kept _ _ _ Hnode Hnot).
  - intros Hwf Hc.
    destruct (decide (Forall is_Some (visited (InternalVector (m_inputs n)))))
      as [|Hnot]; [done|].
    apply Hwf. by rewrite <- (ev_inputs_kept _ _ _ Hnode Hnot).
Qed.

(** Realizations keep the flags of every effect in step. *)
Lemma GetD2DImage_tracked fuel this dc w a n :
  heap w !! a = Some n ->
  match GetD2DImage d2d fuel this (Some dc) w with
  | Ret _ w' | Throw _ w' =>
      exists n', heap w' !! a = Some n' /\
        (properties_tracked n -> properties_tracked n') /\
        (inputs_tracked n -> inputs_tracked n')
  | Fault | OutOfFuel => True
  end.
Proof.
  intros Hn.
  assert (Hf : frames (dc_identity dc) (GetD2DImage d2d fuel this (Some dc)))
    by apply frames_GetD2DImage.
  specialize (Hf w).
  destruct (GetD2DImage d2d fuel this (Some dc) w) as [img w'|e w'| |]; try done;
    destruct (evolves_lookup _ _ _ _ _ Hf Hn) as (n' & Hn' & Hnode);
    exists n'; (split; [done|]); by eapply node_evolves_tracked.
Qed.

(** The constructor and every write set the flag of the sequence they
    touch, and leave the other sequence alone. *)
Lemma CanvasEffect_init_tracked effectId propertiesSize inputSize isInputSizeFixed :
  inputs_tracked (CanvasEffect_init effectId propertiesSize inputSize isInputSizeFixed).
Proof. by intros H. Qed.

Lemma Vector_SetAt_changed {T} index (item : option T) v v' :
  Vector_SetAt index item v = (S_OK, v') -> IsChanged v' = true.
Proof.
  unfold Vector_SetAt. destruct item; [|done].
  destruct (index <? length (InternalVector v))%nat; [by intros [= <-]|].
  destruct (negb (IsFixedSize v) && (index =? length (InternalVector v))%nat);
    [by intros [= <-] | done].
Qed.

Lemma SetInput_tracked this index input w w' :
  SetInput this index input w = Ret tt w' ->
  exists n n', heap w !! this = Some n /\ heap w' !! this = Some n' /\
    inputs_tracked n' /\ m_properties n' = m_properties n /\
    m_previousDeviceIdentity n' = m_previousDeviceIdentity n /\
    m_resource n' = m_resource n.
Proof.
  unfold SetInput. destruct input as [input|]; [|done]. unfold CheckInPointer.
  rewrite bind_ret.
  intros H. apply bind_inv_Ret in H as (n & w1 & [-> Hn]%deref_inv & H).
  destruct (Vector_SetAt index (Some input) (m_inputs n)) as [hr v] eqn:Hset.
  cbv beta iota in H. erewrite bind_modify in H by eauto. unfold ThrowIfFailed in H.
  destruct (FAILED hr) eqn:Hf; [done|]. injection H as <-.
  exists n, (with_inputs v n). split; [done|]. split; [apply heap_set_node_eq|].
  split; [|done]. intros Hc. simpl in Hc.
  destruct (decide (hr = S_OK)) as [->|Hne].
  - by rewrite (Vector_SetAt_changed _ _ _ _ Hset) in Hc.
  - unfold Vector_SetAt in Hset.
    destruct (index <? length (InternalVector (m_inputs n)))%nat; [by injection Hset as <-|].
    destruct (negb (IsFixedSize (m_inputs n)) &&
              (index =? length (InternalVector (m_inputs n)))%nat);
      [by injection Hset as <- | by injection Hset as <-].
Qed.

Lemma Properties_SetAt_tracked this index value w w' :
  Properties_SetAt this index value w = Ret S_OK w' ->
  exists n n', heap w !! this = Some n /\ heap w' !! this = Some n' /\
    properties_tracked n' /\ m_inputs n' = m_inputs n /\
    m_previousDeviceIdentity n' = m_previousDeviceIdentity n /\
    m_resource n' = m_resource n.
Proof.
  unfold Properties_SetAt.
  intros H. apply bind_inv_Ret in H as (n & w1 & [-> Hn]%deref_inv & H).
  destruct (Vector_SetAt index value (m_properties n)) as [hr v] eqn:Hset.
  cbv beta iota in H. erewrite bind_modify in H by eauto. injection H as -> <-.
  exists n, (with_properties v n). split; [done|]. split; [apply heap_set_node_eq|].
  split; [|done]. intros Hc. simpl in Hc.
  by rewrite (Vector_SetAt_changed _ _ _ _ Hset) in Hc.
Qed.

(** The inputs branch comes to slot 0 as soon as it is entered. *)
Lemma reaches_first_input fuel this dc w n wasRecreated w1 r :
  heap w !! this = Some n ->
  Prologue d2d this dc w = Ret wasRecreated w1 ->
  wasRecreated || IsChanged (m_inputs n) = true ->
  resource this w1 = Ret r w1 ->
  (0 < to_unsigned_int (length (InternalVector (m_inputs n))))%nat ->
  reaches_input d2d fuel this dc 0 w
    (add_call (Call_SetInputCount r (to_unsigned_int (length (InternalVector (m_inputs n)))))
       w1).
Proof. intros Hn Hpro Hguard Hres Hsize. by exists n, wasRecreated, w1, r. Qed.
Lemma prepare_releases dc alloc n :
  Some (dc_identity dc) <> m_previousDeviceIdentity n ->
  released n `prefix_of` (prepare d2d dc alloc n).1.1.1.
Proof.
  intros Hid. unfold prepare. rewrite bool_decide_eq_true_2 by done. simpl.
  destruct (FAILED (dc_CreateEffect dc (m_effectId n))); [done|].
  edestruct prepare_properties_evolves with (id := dc_identity dc) as (_ & _ & Hpre).
  etrans; [|exact Hpre]. by apply prefix_app_r.
Qed.

(** Whether it returns or throws, a realization against another device
    than the previous one has released the resource and recorded the
    device. *)
Lemma GetD2DImage_releases fuel this dc w n :
  heap w !! this = Some n ->
  Some (dc_identity dc) <> m_previousDeviceIdentity n ->
  match GetD2DImage d2d (S fuel) this (Some dc) w with
  | Ret _ w' | Throw _ w' =>
      exists n', heap w' !! this = Some n' /\
        m_previousDeviceIdentity n' = Some (dc_identity dc) /\
        (d2d_calls w ++ released n) `prefix_of` d2d_calls w'
  | Fault | OutOfFuel => True
  end.
Proof.
  intros Hn Hne. simpl. rewrite GetD2DImage_body_Prologue. unfold bind at 1.
  erewrite Prologue_run by eauto. cbv zeta.
  set (p := prepare d2d dc (allocated w) n).
  assert (Hp : heap (prepared_world this w p) !! this = Some p.1.2)
    by apply prepared_world_lookup.
  assert (Hid : m_previousDeviceIdentity p.1.2 = Some (dc_identity dc))
    by apply prepare_identity.
  assert (Hcalls : (d2d_calls w ++ released n) `prefix_of` d2d_calls (prepared_world this w p)).
  { simpl. apply prefix_app. by apply prepare_releases. }
  destruct p.2 as [hr|wr]; [eauto|].
  assert (Hf : frames (dc_identity dc)
            (ApplyInputs (GetD2DImage d2d fuel) this dc wr ;; ReturnImage d2d this)%m).
  { apply frames_bind; [|intros; apply frames_ReturnImage].
    apply frames_ApplyInputs. intros. apply frames_GetD2DImage. }
  specialize (Hf (prepared_world this w p)).
  destruct ((ApplyInputs (GetD2DImage d2d fuel) this dc wr ;; ReturnImage d2d this)%m
              (prepared_world this w p)) as [img w'|e w'| |]; try done;
    destruct (evolves_lookup _ _ _ _ _ Hf Hp) as (n' & Hn' & Hnode');
    exists n'; (split; [done|]); (split; [by apply (ev_device _ _ _ Hnode')|]);
    (etrans; [exact Hcalls | apply Hf]).
Qed.

Lemma Reset_resource_run this w n :
  heap w !! this = Some n ->
  Reset_resource this w =
    Ret tt (set_node this (with_resource None n) (add_calls (released n) w)).
Proof.
  intros Hn. unfold Reset_resource, released. erewrite bind_deref by eauto.
  destruct (m_resource n) as [r|] eqn:Hr.
  - rewrite bind_record_call. by erewrite modify_run by exact Hn.
  - rewrite add_calls_nil, with_resource_None_id by done.
    by rewrite set_node_id.
Qed.
(** ** What a returning realization has applied *)

Lemma clean_evolves id r n n' :
  clean d2d id r n -> node_evolves id n n' -> clean d2d id r n'.
Proof.
  intros (Hid & Hr & Hp & Hi & Has) Hnode. split_and!; try done.
  - by apply (ev_device _ _ _ Hnode).
  - rewrite <- Hr. apply (ev_resource _ _ _ Hnode); [done|]. by rewrite Hr.
  - destruct (IsChanged (m_properties n')) eqn:Hc; [|done].
    rewrite <- Hp. symmetry. by apply (ev_properties_changed _ _ _ Hnode).
  - destruct (IsChanged (m_inputs n')) eqn:Hc; [|done].
    rewrite <- Hi. symmetry. by apply (ev_inputs_changed _ _ _ Hnode).
Qed.

Lemma input_bound_evolves id r j slot w w' cs cs' :
  input_bound d2d id r j slot w cs -> World_evolves id w w' -> cs ⊆ cs' ->
  input_bound d2d id r j slot w' cs'.
Proof.
  intros Hb Hev Hsub. destruct slot as [[[b|hr image]|hr]|]; simpl in *; try done.
  - destruct Hb as (nb & rb & Hnb & Hclean & Hin).
    destruct (evolves_lookup _ _ _ _ _ Hev Hnb) as (nb' & Hnb' & Hnode).
    exists nb', rb. split_and!; [done| |by apply Hsub].
    by eapply clean_evolves.
  - destruct Hb as [Hok Hin]. split; [done|]. by apply Hsub.
Qed.

Lemma SetInputs_from_binds fuel this dc k i w w' n r :
  heap w !! this = Some n ->
  m_previousDeviceIdentity n = Some (dc_identity dc) ->
  m_resource n = Some r ->
  SetInputs_from (GetD2DImage d2d fuel) this dc k i w = Ret tt w' ->
  exists cs, d2d_calls w' = d2d_calls w ++ cs /\
    forall j, (i <= j < i + k)%nat ->
      exists slot, InternalVector (m_inputs n) !! j = Some slot /\
        input_bound d2d (dc_identity dc) r j slot w' cs.
Proof.
  assert (Hframes : forall x, frames (dc_identity dc) (GetD2DImage d2d fuel x (Some dc)))
    by (intros; apply frames_GetD2DImage).
  revert i w n. induction k as [|k IH]; intros i w n Hn Hid Hr Hrun.
  { injection Hrun as <-. exists []. split; [by rewrite app_nil_r | lia]. }
  simpl in Hrun. apply bind_inv_Ret in Hrun as ([] & w1 & Hat & Hrun).
  assert (Hev : World_evolves (dc_identity dc) w w1).
  { assert (Hf : frames (dc_identity dc) (SetInput_at (GetD2DImage d2d fuel) this dc i))
      by by apply frames_SetInput_at.
    specialize (Hf w). by rewrite Hat in Hf. }
  assert (Hev' : World_evolves (dc_identity dc) w1 w').
  { assert (Hf : frames (dc_identity dc)
                   (SetInputs_from (GetD2DImage d2d fuel) this dc k (S i)))
      by by apply frames_SetInputs_from.
    specialize (Hf w1). by rewrite Hrun in Hf. }
  destruct (evolves_lookup _ _ _ _ _ Hev Hn) as (n1 & Hn1 & Hnode).
  assert (Hr1 : m_resource n1 = Some r).
  { rewrite <- Hr. apply (ev_resource _ _ _ Hnode); [done|]. by rewrite Hr. }
  destruct (IH _ _ _ Hn1 (ev_device _ _ _ Hnode Hid) Hr1 Hrun) as (cs & Hcs & Hall).
  eapply SetInput_at_inv_Ret in Hat as (input & x & image & wa & Hslot & Hqi & Himg & Hw1);
    [|done..].
  subst w1.
  assert (Hpre : d2d_calls w `prefix_of` d2d_calls wa).
  { assert (Hf : frames (dc_identity dc)
              (input_GetD2DImage (GetD2DImage d2d fuel) (Some x) (Some dc)))
      by by apply frames_input_GetD2DImage.
    specialize (Hf w). rewrite Himg in Hf. apply Hf. }
  destruct Hpre as [csa Hcsa].
  exists (csa ++ [Call_SetInput r i image] ++ cs). split.
  { rewrite Hcs. simpl. rewrite Hcsa. by rewrite <- !app_assoc. }
  intros j Hj. destruct (decide (j = i)) as [->|Hne].
  - exists (Some input). split; [done|].
    apply input_bound_evolves with (w := add_call (Call_SetInput r i image) wa)
                                   (cs := [Call_SetInput r i image]); [|done|].
    2:{ intros c Hc. rewrite !elem_of_app. auto. }
    destruct input as [y|hr]; [|done]. injection Hqi as <-.
    destruct y as [b|hr image0]; simpl in *.
    + apply GetD2DImage_Ret_clean in Himg as (nb & rb & Hnb & Hclean & ->).
      exists nb, rb. split_and!; [done|done|]. by apply list_elem_of_singleton.
    + unfold ThrowIfFailed in Himg. rewrite FAILED_SUCCEEDED in Himg.
      destruct (SUCCEEDED hr); [|done]. injection Himg as <- <-.
      split; [done|]. by apply list_elem_of_singleton.
  - destruct (Hall j) as (slot & Hslot' & Hin); [lia|].
    exists slot. rewrite <- (ev_inputs _ _ _ Hnode). split; [done|].
    eapply input_bound_evolves; [done|apply World_evolves_refl|].
    intros c Hc. rewrite !elem_of_app. auto.
Qed.

(** A prologue that applies the properties and returns has called SetValue
    for every slot it went through, on the resource it leaves. *)
Lemma prepare_Ret_applied dc alloc n b :
  (prepare d2d dc alloc n).2 = inr b ->
  Some (dc_identity dc) <> m_previousDeviceIdentity n \/
    IsChanged (m_properties n) = true ->
  exists r, m_resource (prepare d2d dc alloc n).1.2 = Some r /\
    forall i slot, visited (InternalVector (m_properties n)) !! i = Some slot ->
      exists p v, slot = Some p /\ marshal p = inr v /\
        Call_SetValue r i v ∈ (prepare d2d dc alloc n).1.1.1.
Proof.
  intros Hret Hguard.
  assert (Hpp : forall wr r cs a n0,
    (prepare_properties d2d wr r cs a n0).2 = inr b ->
    wr || IsChanged (m_properties n0) = true ->
    m_resource (prepare_properties d2d wr r cs a n0).1.2 = m_resource n0 /\
    forall i slot, visited (InternalVector (m_properties n0)) !! i = Some slot ->
      exists p v, slot = Some p /\ marshal p = inr v /\
        Call_SetValue r i v ∈ (prepare_properties d2d wr r cs a n0).1.1.1).
  { intros wr r cs a n0 H Hg. unfold prepare_properties in *. rewrite Hg in *.
    destruct (properties_run d2d r (visited (InternalVector (m_properties n0))) 0)
      as [cs' [hr|]] eqn:Hrun; [done|]. split; [done|].
    intros i slot Hslot.
    edestruct properties_run_calls as (p & v & -> & Hm & _ & Hin);
      [exact Hrun | exact Hslot |].
    exists p, v. split_and!; try done. simpl. rewrite elem_of_app. by right. }
  unfold prepare in *.
  destruct (bool_decide (Some (dc_identity dc) <> m_previousDeviceIdentity n)) eqn:Hid;
    simpl in *.
  - destruct (FAILED (dc_CreateEffect dc (m_effectId n))); [done|].
    apply Hpp in Hret as [Hr Hall]; [|done]. eexists. split; [by rewrite Hr|]. done.
  - apply bool_decide_eq_false_1 in Hid.
    destruct Hguard as [Hne|Hc]; [done|].
    destruct (m_resource n) as [r|] eqn:Hr.
    + apply Hpp in Hret as [Hr' Hall]; [|by rewrite Hc, orb_true_r].
      exists r. split; [by rewrite Hr'|]. done.
    + destruct (FAILED (dc_CreateEffect dc (m_effectId n))); [done|].
      apply Hpp in Hret as [Hr' Hall]; [|simpl; by rewrite Hc].
      eexists. split; [by rewrite Hr'|]. done.
Qed.

(** What a returning realization has applied to the resource whose image
    it returns. *)
Lemma GetD2DImage_Ret_applied fuel this dc w n img w' :
  heap w !! this = Some n ->
  GetD2DImage d2d (S fuel) this (Some dc) w = Ret img w' ->
  exists r cs,
    img = EffectOutput r /\
    d2d_calls w' = d2d_calls w ++ cs /\
    (Some (dc_identity dc) <> m_previousDeviceIdentity n \/
       IsChanged (m_properties n) = true ->
     forall i slot, visited (InternalVector (m_properties n)) !! i = Some slot ->
       exists p v, slot = Some p /\ marshal p = inr v /\ Call_SetValue r i v ∈ cs) /\
    (Some (dc_identity dc) <> m_previousDeviceIdentity n \/
       IsChanged (m_inputs n) = true ->
     Call_SetInputCount r (to_unsigned_int (length (InternalVector (m_inputs n)))) ∈ cs /\
     forall j slot, visited (InternalVector (m_inputs n)) !! j = Some slot ->
       input_bound d2d (dc_identity dc) r j slot w' cs).
Proof.
  intros Hn Hrun.
  simpl in Hrun. rewrite GetD2DImage_body_Prologue in Hrun.
  apply bind_inv_Ret in Hrun as (wr & w1 & Hpro & Hrun).
  apply bind_inv_Ret in Hrun as ([] & w2 & Hin & Himg).
  apply Prologue_inv_Ret in Hpro as (n0 & Hn0 & Hres & ->).
  rewrite Hn in Hn0. injection Hn0 as <-.
  pose proof (prepare_Ret_applied dc (allocated w) n wr Hres) as Hprops.
  apply prepare_Ret in Hres as (-> & Hid & [r Hr] & Hp & Hi).
  set (p := prepare d2d dc (allocated w) n) in *.
  set (n1 := p.1.2) in *.
  set (cs1 := p.1.1.1) in *.
  set (w1 := prepared_world this w p) in *.
  assert (Hn1 : heap w1 !! this = Some n1) by apply prepared_world_lookup.
  assert (Hcs1 : d2d_calls w1 = d2d_calls w ++ cs1) by done.
  clearbody w1 n1 cs1.
  assert (Hframes : frames (dc_identity dc)
            (ApplyInputs (GetD2DImage d2d fuel) this dc
               (bool_decide (Some (dc_identity dc) <> m_previousDeviceIdentity n)))).
  { apply frames_ApplyInputs. intros. apply frames_GetD2DImage. }
  specialize (Hframes w1). rewrite Hin in Hframes.
  destruct (evolves_lookup _ _ _ _ _ Hframes Hn1) as (n2 & Hn2 & Hnode2).
  assert (Hr2 : m_resource n2 = Some r).
  { rewrite <- Hr. apply (ev_resource _ _ _ Hnode2); [done|]. by rewrite Hr. }
  apply ReturnImage_inv_Ret in Himg as (-> & n4 & r4 & Hn4 & Hr4 & -> & _).
  rewrite Hn2 in Hn4. injection Hn4 as <-. rewrite Hr2 in Hr4. injection Hr4 as <-.
  destruct (ev_calls _ _ _ Hframes) as [cs2 Hcs2].
  exists r, (cs1 ++ cs2). split; [done|]. split.
  { by rewrite Hcs2, Hcs1, <- app_assoc. }
  split.
  { intros Hguard i slot Hslot. destruct (Hprops Hguard) as (r' & Hr' & Hall).
    rewrite Hr in Hr'. injection Hr' as <-.
    destruct (Hall i slot Hslot) as (q & v & ? & ? & ?).
    exists q, v. split_and!; try done. rewrite elem_of_app. by left. }
  intros Hguard.
  assert (Hg : bool_decide (Some (dc_identity dc) <> m_previousDeviceIdentity n)
               || IsChanged (m_inputs n1) = true).
  { rewrite Hi. destruct Hguard as [Hne|Hc].
    - by rewrite bool_decide_eq_true_2.
    - by rewrite Hc, orb_true_r. }
  unfold ApplyInputs in Hin. erewrite bind_deref in Hin by eauto.
  rewrite Hg in Hin.
  erewrite SetInputs_run in Hin by eauto. cbv zeta in Hin. rewrite Hi in Hin.
  set (size := to_unsigned_int (length (InternalVector (m_inputs n)))) in *.
  apply bind_inv_Ret in Hin as ([] & w3 & Hloop & Hmod).
  pose proof Hloop as Hcalls.
  apply SetInputs_from_binds with (n := n1) (r := r) in Hcalls
    as (cs3 & Hcs3 & Hall); [|done..].
  assert (Hf : frames (dc_identity dc)
                 (SetInputs_from (GetD2DImage d2d fuel) this dc size 0)).
  { apply frames_SetInputs_from. intros. apply frames_GetD2DImage. }
  specialize (Hf (add_call (Call_SetInputCount r size) w1)). rewrite Hloop in Hf.
  destruct (evolves_lookup _ _ _ _ _ Hf Hn1) as (n3 & Hn3 & Hnode).
  erewrite modify_run in Hmod by eauto. injection Hmod as <-.
  assert (Heq : cs2 = [Call_SetInputCount r size] ++ cs3).
  { simpl in Hcs2, Hcs3. rewrite Hcs3, <- app_assoc in Hcs2.
    by apply app_inv_head in Hcs2. }
  subst cs2. split.
  { rewrite !elem_of_app, list_elem_of_singleton. auto. }
  intros j slot Hslot.
  assert (Hjs : (j < size)%nat).
  { apply lookup_lt_Some in Hslot. by rewrite length_visited in Hslot. }
  rewrite visited_lookup in Hslot by done.
  destruct (Hall j) as (slot' & Hj & Hb); [lia|].
  rewrite Hi, Hslot in Hj. injection Hj as <-.
  eapply input_bound_evolves; [exact Hb| |].
  - apply evolves_set_node with (n := n3); [done|].
    split; try done. simpl. intros Hnot. destruct Hnot.
    rewrite Forall_lookup. intros k slot0 Hk.
    assert (Hlt : (k < to_unsigned_int (length (InternalVector (m_inputs n3))))%nat).
    { apply lookup_lt_Some in Hk. by rewrite length_visited in Hk. }
    rewrite visited_lookup in Hk by done.
    rewrite (ev_inputs _ _ _ Hnode) in Hk, Hlt.
    destruct (Hall k) as (slot1 & Hk1 & Hb1).
    { rewrite Hi in Hlt. fold size in Hlt. lia. }
    rewrite Hk in Hk1. injection Hk1 as <-.
    by destruct slot0.
  - intros c Hc. rewrite !elem_of_app. auto.
Qed.

(** A call of SetInput among calls that follow releases and creations is
    among the calls after them. *)
Lemma input_bound_after id r j slot w' pre cs :
  Forall (fun c => target c = None) pre ->
  input_bound d2d id r j slot w' (pre ++ cs) -> input_bound d2d id r j slot w' cs.
Proof.
  intros Hpre Hb.
  assert (Hin : forall image, Call_SetInput r j image ∈ pre ++ cs ->
                  Call_SetInput r j image ∈ cs).
  { intros image. rewrite elem_of_app. intros [Hin|Hin]; [|done].
    rewrite Forall_forall in Hpre. by apply Hpre in Hin. }
  destruct slot as [[[b|hr image]|hr]|]; simpl in *; try done.
  - destruct Hb as (nb & rb & Hnb & Hclean & Hcall). exists nb, rb. auto.
  - destruct Hb as [Hok Hcall]. auto.
Qed.

(** ** How a realization ends *)

Lemma forallb_input_ok_ext strict (ok ok' : EffectRef -> bool) slots :
  (forall e, ok e = ok' e) ->
  forallb (input_ok strict ok) slots = forallb (input_ok strict ok') slots.
Proof.
  intros Hext. induction slots as [|slot slots IH]; [done|]. simpl. rewrite IH.
  f_equal. destruct slot as [[[e|hr image]|hr]|]; simpl; auto.
Qed.

Lemma graph_within_evolves id strict depth w w' a :
  World_evolves id w w' -> graph_within strict depth w' a = graph_within strict depth w a.
Proof.
  intros Hev. revert a. induction depth as [|depth IH]; intros a; [done|]. simpl.
  destruct (ev_heap _ _ _ Hev a) as [n n' Hnode|]; [|done].
  rewrite (ev_inputs _ _ _ Hnode). by apply forallb_input_ok_ext.
Qed.

Lemma prepare_inputs dc alloc n :
  m_inputs (prepare d2d dc alloc n).1.2 = m_inputs n.
Proof.
  assert (Hpp : forall wr r cs a n0,
    m_inputs (prepare_properties d2d wr r cs a n0).1.2 = m_inputs n0).
  { intros wr r cs a n0. unfold prepare_properties.
    destruct (wr || IsChanged (m_properties n0)); [|done].
    by destruct (properties_run d2d r (visited (InternalVector (m_properties n0))) 0)
      as [cs' [hr|]]. }
  unfold prepare.
  destruct (bool_decide (Some (dc_identity dc) <> m_previousDeviceIdentity n)); simpl.
  - destruct (FAILED (dc_CreateEffect dc (m_effectId n))); [done|]. by rewrite Hpp.
  - destruct (m_resource n); [by rewrite Hpp|].
    destruct (FAILED (dc_CreateEffect dc (m_effectId n))); [done|]. by rewrite Hpp.
Qed.

Section Ends.

Variable strict : bool.
Variable fuel : nat.
Variable dc : ID2D1DeviceContext.
Hypothesis inputs_end : forall x w,
  graph_within strict fuel w x = true ->
  ends strict (GetD2DImage d2d fuel x (Some dc) w).

Lemma SetInput_at_ends this i w n r :
  heap w !! this = Some n ->
  m_previousDeviceIdentity n = Some (dc_identity dc) ->
  m_resource n = Some r ->
  (i < length (InternalVector (m_inputs n)))%nat ->
  forallb (input_ok strict (graph_within strict fuel w)) (InternalVector (m_inputs n))
    = true ->
  ends strict (SetInput_at (GetD2DImage d2d fuel) this dc i w).
Proof.
  intros Hn Hid Hr Hi Hall.
  erewrite SetInput_at_run by eauto.
  destruct (lookup_lt_is_Some_2 _ _ Hi) as [slot Hslot]. rewrite Hslot.
  rewrite forallb_forall in Hall.
  assert (Hok : input_ok strict (graph_within strict fuel w) slot = true).
  { apply Hall. apply list_elem_of_In. by eapply list_elem_of_lookup_2. }
  destruct slot as [[[b|hr image]|hr]|]; cbn [As_ICanvasImageInternal fst snd];
    simpl in Hok.
  - change (S_OK =? E_NOINTERFACE) with false. change (FAILED S_OK) with false.
    cbv iota. unfold input_GetD2DImage. unfold bind at 1.
    assert (Hf : frames (dc_identity dc) (GetD2DImage d2d fuel b (Some dc)))
      by apply frames_GetD2DImage.
    specialize (Hf w).
    pose proof (inputs_end b w Hok) as Hb.
    destruct (GetD2DImage d2d fuel b (Some dc) w) as [image w1|e w1| |]; try done.
    destruct (evolves_lookup _ _ _ _ _ Hf Hn) as (n1 & Hn1 & Hnode).
    erewrite bind_Ret; [done|]. eapply resource_run; [done|].
    rewrite <- Hr. apply (ev_resource _ _ _ Hnode); [done|]. by rewrite Hr.
  - change (S_OK =? E_NOINTERFACE) with false. change (FAILED S_OK) with false.
    cbv iota. unfold input_GetD2DImage. unfold bind at 1 2. unfold ThrowIfFailed.
    destruct (FAILED hr); [done|]. simpl. unfold bind. erewrite resource_run by eauto.
    done.
  - destruct (hr =? E_NOINTERFACE); [done|].
    destruct (FAILED hr); [done|]. simpl.
    rewrite orb_false_r in Hok. by destruct strict.
  - done.
Qed.

Lemma SetInputs_from_ends this k i w n r :
  heap w !! this = Some n ->
  m_previousDeviceIdentity n = Some (dc_identity dc) ->
  m_resource n = Some r ->
  (i + k <= length (InternalVector (m_inputs n)))%nat ->
  forallb (input_ok strict (graph_within strict fuel w)) (InternalVector (m_inputs n))
    = true ->
  ends strict (SetInputs_from (GetD2DImage d2d fuel) this dc k i w).
Proof.
  revert i w n. induction k as [|k IH]; intros i w n Hn Hid Hr Hi Hall; [done|].
  rewrite SetInputs_from_S. unfold bind.
  assert (Hat : ends strict (SetInput_at (GetD2DImage d2d fuel) this dc i w)).
  { eapply SetInput_at_ends; eauto. lia. }
  assert (Hf : frames (dc_identity dc) (SetInput_at (GetD2DImage d2d fuel) this dc i)).
  { apply frames_SetInput_at. intros. apply frames_GetD2DImage. }
  specialize (Hf w).
  destruct (SetInput_at (GetD2DImage d2d fuel) this dc i w) as [[] w1|e w1| |];
    try done.
  destruct (evolves_lookup _ _ _ _ _ Hf Hn) as (n1 & Hn1 & Hnode).
  eapply IH; [done| | | |].
  - by apply (ev_device _ _ _ Hnode).
  - rewrite <- Hr. apply (ev_resource _ _ _ Hnode); [done|]. by rewrite Hr.
  - rewrite (ev_inputs _ _ _ Hnode). lia.
  - rewrite (ev_inputs _ _ _ Hnode). rewrite <- Hall.
    apply forallb_input_ok_ext. intros e. by eapply graph_within_evolves.
Qed.

End Ends.

Lemma GetD2DImage_ends strict fuel this deviceContext w :
  graph_within strict fuel w this = true ->
  ends strict (GetD2DImage d2d fuel this deviceContext w).
Proof.
  revert this deviceContext w.
  induction fuel as [|fuel IH]; intros this deviceContext w Hgraph; [done|].
  destruct deviceContext as [dc|]; [|done].
  simpl in Hgraph. destruct (heap w !! this) as [n|] eqn:Hn; [|done].
  simpl. rewrite GetD2DImage_body_Prologue. unfold bind at 1.
  erewrite Prologue_run by eauto. cbv zeta.
  destruct (prepare d2d dc (allocated w) n).2 as [hr|wr] eqn:Hprep; [done|].
  assert (Hev : World_evolves (dc_identity dc) w
                  (prepared_world this w (prepare d2d dc (allocated w) n))).
  { assert (Hf : frames (dc_identity dc) (Prologue d2d this dc)) by apply frames_Prologue.
    specialize (Hf w). erewrite Prologue_run in Hf by eauto. cbv zeta in Hf.
    by rewrite Hprep in Hf. }
  pose proof (prepare_inputs dc (allocated w) n) as Hinputs.
  apply prepare_Ret in Hprep as (_ & Hid & [r Hr] & _ & _).
  set (n1 := (prepare d2d dc (allocated w) n).1.2) in *.
  set (w1 := prepared_world this w _) in *.
  assert (Hn1 : heap w1 !! this = Some n1) by apply prepared_world_lookup.
  clearbody w1 n1.
  unfold ApplyInputs. rewrite bind_bind. erewrite bind_deref by eauto.
  destruct (wr || IsChanged (m_inputs n1)).
  2:{ rewrite bind_ret. erewrite ReturnImage_run by eauto.
      by destruct (FAILED (As_ID2D1Image_hr d2d r)). }
  unfold bind at 1. erewrite SetInputs_run by eauto. cbv zeta.
  set (size := to_unsigned_int (length (InternalVector (m_inputs n1)))).
  set (w2 := add_call (Call_SetInputCount r size) w1).
  assert (Hloop : ends strict
            (SetInputs_from (GetD2DImage d2d fuel) this dc size 0 w2)).
  { eapply SetInputs_from_ends with (n := n1) (r := r); try done.
    - intros x w0. apply IH.
    - simpl. apply to_unsigned_int_le.
    - rewrite Hinputs, <- Hgraph. apply forallb_input_ok_ext. intros e.
      apply graph_within_evolves with (id := dc_identity dc).
      eapply World_evolves_trans; [exact Hev|].
      unfold w2. rewrite add_call_calls. apply evolves_add_calls. }
  assert (Hf : frames (dc_identity dc)
                 (SetInputs_from (GetD2DImage d2d fuel) this dc size 0)).
  { apply frames_SetInputs_from. intros. apply frames_GetD2DImage. }
  specialize (Hf w2).
  unfold bind at 1. fold size. fold w2.
  destruct (SetInputs_from (GetD2DImage d2d fuel) this dc size 0 w2) as [[] w3|e w3| |];
    try done.
  destruct (evolves_lookup _ _ _ _ _ Hf Hn1) as (n3 & Hn3 & Hnode).
  erewrite modify_run by eauto.
  assert (Hr3 : m_resource n3 = Some r).
  { rewrite <- Hr. apply (ev_resource _ _ _ Hnode); [done|]. by rewrite Hr. }
  erewrite ReturnImage_run with (r := r); [|apply heap_set_node_eq|done].
  by destruct (FAILED (As_ID2D1Image_hr d2d r)).
Qed.

Lemma graph_within_strict strict depth w a :
  graph_within true depth w a = true -> graph_within strict depth w a = true.
Proof.
  revert a. induction depth as [|depth IH]; intros a; [done|]. simpl.
  destruct (heap w !! a) as [n|]; [|done].
  rewrite !forallb_forall. intros Hall slot Hslot. specialize (Hall slot Hslot).
  destruct slot as [[[e|hr image]|hr]|]; simpl in *; auto.
  rewrite Hall. by destruct strict.
Qed.

(** ** The claims *)

(** C2: a second realization against the same device identity, with nothing
    written and no close in between, returns the same image from the same
    resource and leaves the world as it was: it creates nothing and makes no
    SetValue, SetInputCount or SetInput call. *)
Theorem GetD2DImage_idempotent fuel fuel' this dc dc' w img w1 :
  GetD2DImage d2d fuel this (Some dc) w = Ret img w1 ->
  dc_identity dc' = dc_identity dc ->
  GetD2DImage d2d (S fuel') this (Some dc') w1 = Ret img w1 /\
  exists n r, heap w1 !! this = Some n /\ m_resource n = Some r /\
    img = EffectOutput r.
Proof.
  intros Hrun Hid.
  apply GetD2DImage_Ret_clean in Hrun as (n & r & Hn & Hclean & ->).
  split.
  - eapply GetD2DImage_clean; [done|]. by rewrite Hid.
  - exists n, r. by destruct Hclean as (_ & ? & _).
Qed.

(** C1: the code at the input the claim fails on.  After a realization that
    returned, [Close] followed by a realization against the same device
    identity creates a new effect instance and returns its image, and the
    only Direct2D calls made are the release of the old instance and the
    creation of the new one: no property and no input is applied to it. *)
Theorem GetD2DImage_after_Close_applies_nothing fuel0 fuel this dc0 dc w0 img w :
  GetD2DImage d2d fuel0 this (Some dc0) w0 = Ret img w ->
  dc_identity dc = dc_identity dc0 ->
  (forall effectId, SUCCEEDED (dc_CreateEffect dc effectId) = true) ->
  (forall r, SUCCEEDED (As_ID2D1Image_hr d2d r) = true) ->
  exists n r w',
    heap w !! this = Some n /\ m_resource n = Some r /\
    let r' := mkEffect (allocated w) (m_effectId n) (dc_identity dc) in
    (Close this ;; GetD2DImage d2d (S fuel) this (Some dc)) w = Ret (EffectOutput r') w' /\
    d2d_calls w' = d2d_calls w ++ [Call_Release r; Call_CreateEffect r'].
Proof.
  intros Hrun Hid Hcreate Has.
  apply GetD2DImage_Ret_clean in Hrun as (n & r & Hn & (Hprev & Hr & Hp & Hi & _) & ->).
  set (n1 := with_resource None n).
  set (w1 := set_node this n1 (add_calls (released n) w)).
  assert (Hclose : Close this w = Ret S_OK w1).
  { unfold Close. by erewrite bind_Ret by (by apply Reset_resource_run). }
  assert (Hn1 : heap w1 !! this = Some n1) by apply heap_set_node_eq.
  assert (Hr1 : m_resource n1 = None) by done.
  assert (Hprev1 : m_previousDeviceIdentity n1 = m_previousDeviceIdentity n) by done.
  assert (Hp1 : m_properties n1 = m_properties n) by done.
  assert (Hi1 : m_inputs n1 = m_inputs n) by done.
  assert (He1 : m_effectId n1 = m_effectId n) by done.
  assert (Hal : allocated w1 = allocated w) by done.
  assert (Hcalls : d2d_calls w1 = d2d_calls w ++ released n) by done.
  clearbody w1 n1.
  set (r' := mkEffect (allocated w) (m_effectId n) (dc_identity dc)).
  assert (Hprep : prepare d2d dc (allocated w1) n1 =
            ([Call_CreateEffect r'], S (allocated w), with_resource (Some r') n1, inr false)).
  { unfold prepare.
    rewrite bool_decide_eq_false_2 by (rewrite Hprev1, Hprev, Hid; by intros H; apply H).
    rewrite Hr1. specialize (Hcreate (m_effectId n1)).
    rewrite FAILED_SUCCEEDED, Hcreate. simpl.
    unfold prepare_properties. simpl. by rewrite Hp1, Hp, Hal, He1. }
  exists n, r, (prepared_world this w1 (prepare d2d dc (allocated w1) n1)).
  split; [done|]. split; [done|]. simpl. split.
  - erewrite bind_Ret by eauto. rewrite GetD2DImage_body_Prologue.
    erewrite bind_Ret.
    2:{ erewrite Prologue_run by eauto. rewrite Hprep. simpl. reflexivity. }
    rewrite Hprep. unfold ApplyInputs. rewrite bind_bind.
    erewrite bind_deref by apply prepared_world_lookup.
    simpl. rewrite Hi1, Hi. rewrite bind_ret.
    erewrite ReturnImage_run; [|apply prepared_world_lookup|done].
    by rewrite FAILED_SUCCEEDED, Has.
  - rewrite Hprep. simpl. rewrite Hcalls. unfold released. rewrite Hr.
    by rewrite <- app_assoc.
Qed.

(** C9: [Close] returns [S_OK] and changes nothing of the effect but its
    resource, which it releases: the previous device identity, both
    sequences with their changed flags and the effect id stay as they were,
    and so does every other effect.  On an effect without a resource it
    changes nothing at all, so a second [Close] is a no-op. *)
Theorem Close_releases_only_resource this w n :
  heap w !! this = Some n ->
  exists w' n',
    Close this w = Ret S_OK w' /\
    heap w' !! this = Some n' /\
    m_resource n' = None /\
    m_previousDeviceIdentity n' = m_previousDeviceIdentity n /\
    m_properties n' = m_properties n /\
    m_inputs n' = m_inputs n /\
    m_effectId n' = m_effectId n /\
    (forall a, a <> this -> heap w' !! a = heap w !! a) /\
    allocated w' = allocated w /\
    d2d_calls w' = d2d_calls w ++ released n /\
    (m_resource n = None -> w' = w) /\
    Close this w' = Ret S_OK w'.
Proof.
  intros Hn.
  exists (set_node this (with_resource None n) (add_calls (released n) w)),
    (with_resource None n).
  assert (Hclose : forall w0 n0, heap w0 !! this = Some n0 ->
    Close this w0 =
      Ret S_OK (set_node this (with_resource None n0) (add_calls (released n0) w0))).
  { intros w0 n0 Hn0. unfold Close.
    by erewrite bind_Ret by (by apply Reset_resource_run). }
  split_and!; try done.
  - by apply Hclose.
  - apply heap_set_node_eq.
  - intros a Ha. by rewrite heap_set_node_ne.
  - intros Hr. unfold released. rewrite Hr, add_calls_nil.
    rewrite with_resource_None_id by done. by apply set_node_id.
  - erewrite Hclose by apply heap_set_node_eq.
    unfold released. simpl. rewrite add_calls_nil.
    f_equal. apply set_node_id. apply heap_set_node_eq.
Qed.

(** C3: a realization against a device whose identity differs from the
    stored one, whatever the changed flags are.  Whether it returns or
    throws, it has released the resource the effect held and recorded the
    new identity.  When it returns, it has created a new effect instance,
    called SetValue on it for every property slot with the value the slot
    marshals to, set its input count to the length of the inputs, and
    called SetInput on it for every input slot with what the input in the
    slot yields: the image itself, or, for an effect, the image of the
    resource that effect holds when the call returns, realized against the
    same device with nothing left to apply. *)
Theorem GetD2DImage_device_change fuel this dc w n :
  heap w !! this = Some n ->
  Some (dc_identity dc) <> m_previousDeviceIdentity n ->
  match GetD2DImage d2d (S fuel) this (Some dc) w with
  | Ret _ w' | Throw _ w' =>
      exists n', heap w' !! this = Some n' /\
        m_previousDeviceIdentity n' = Some (dc_identity dc) /\
        (d2d_calls w ++ released n) `prefix_of` d2d_calls w'
  | Fault | OutOfFuel => True
  end /\
  (forall r0, m_resource n = Some r0 -> released n = [Call_Release r0]) /\
  forall img w',
    Z.of_nat (length (InternalVector (m_properties n))) < 2 ^ 32 ->
    Z.of_nat (length (InternalVector (m_inputs n))) < 2 ^ 32 ->
    GetD2DImage d2d (S fuel) this (Some dc) w = Ret img w' ->
    let r := mkEffect (allocated w) (m_effectId n) (dc_identity dc) in
    img = EffectOutput r /\
    exists n' cs,
      heap w' !! this = Some n' /\
      m_previousDeviceIdentity n' = Some (dc_identity dc) /\
      m_resource n' = Some r /\
      d2d_calls w' = d2d_calls w ++ released n ++ Call_CreateEffect r :: cs /\
      (forall i slot, InternalVector (m_properties n) !! i = Some slot ->
         exists p v, slot = Some p /\ marshal p = inr v /\ Call_SetValue r i v ∈ cs) /\
      Call_SetInputCount r (length (InternalVector (m_inputs n))) ∈ cs /\
      (forall j slot, InternalVector (m_inputs n) !! j = Some slot ->
         input_bound d2d (dc_identity dc) r j slot w' cs).
Proof.
  intros Hn Hid. split; [by apply GetD2DImage_releases|]. split.
  { intros r0 Hr0. unfold released. by rewrite Hr0. }
  intros img w' Hp Hi Hrun r.
  pose proof Hrun as Happlied.
  apply GetD2DImage_Ret_applied with (n := n) in Happlied
    as (r2 & cs2 & Himg & Hcs2 & _ & Hbound); [|done].
  apply GetD2DImage_recreated with (n := n) in Hrun
    as (-> & n' & cs & Hn' & (Hc1 & Hc2 & _) & Hcalls & Hprops & Hcount & _);
    [|done..].
  injection Himg as <-. fold r in Hcalls, Hprops, Hcount, Hbound.
  rewrite (visited_small _ Hp) in Hprops.
  rewrite (to_unsigned_int_small _ Hi) in Hcount.
  split; [done|]. exists n', cs. split_and!; try done.
  intros j slot Hslot. destruct Hbound as [_ Hbound]; [by left|].
  rewrite (visited_small _ Hi) in Hbound.
  rewrite Hcs2 in Hcalls. apply app_inv_head in Hcalls. subst cs2.
  apply input_bound_after with (pre := released n ++ [Call_CreateEffect r]).
  - apply Forall_app. split; [|by apply Forall_singleton].
    unfold released. destruct (m_resource n); [by apply Forall_singleton|done].
  - rewrite <- app_assoc. by apply Hbound.
Qed.

(** C10: the constructor leaves the previous device identity empty, the
    inputs marked changed and the properties not.  As long as the identity
    is empty, a realization against any device context takes the branch
    that sets [wasRecreated], whatever the changed flags are; when it
    returns, it has, on the effect instance it created, called SetValue for
    every property slot with the value the slot marshals to, and SetInput
    for every input slot with what the input in the slot yields: the image
    itself, or, for an effect, the image of the resource that effect holds
    when the call returns. *)
Theorem first_GetD2DImage_applies_all this :
  (forall effectId propertiesSize inputSize isInputSizeFixed factory_hr w w',
     CanvasEffect_new this effectId propertiesSize inputSize isInputSizeFixed factory_hr w
       = Ret tt w' ->
     exists n, heap w' !! this = Some n /\
       m_previousDeviceIdentity n = None /\ m_resource n = None /\
       IsChanged (m_properties n) = false /\ IsChanged (m_inputs n) = true) /\
  (forall fuel dc w n,
     heap w !! this = Some n -> m_previousDeviceIdentity n = None ->
     (exists w1, CheckDevice this dc w = Ret true w1) /\
     forall img w',
       Z.of_nat (length (InternalVector (m_properties n))) < 2 ^ 32 ->
       Z.of_nat (length (InternalVector (m_inputs n))) < 2 ^ 32 ->
       GetD2DImage d2d (S fuel) this (Some dc) w = Ret img w' ->
       let r := mkEffect (allocated w) (m_effectId n) (dc_identity dc) in
       img = EffectOutput r /\
       exists cs,
         d2d_calls w' = d2d_calls w ++ released n ++ Call_CreateEffect r :: cs /\
         (forall i slot, InternalVector (m_properties n) !! i = Some slot ->
            exists p v, slot = Some p /\ marshal p = inr v /\ Call_SetValue r i v ∈ cs) /\
         Call_SetInputCount r (length (InternalVector (m_inputs n))) ∈ cs /\
         (forall j slot, InternalVector (m_inputs n) !! j = Some slot ->
            input_bound d2d (dc_identity dc) r j slot w' cs)).
Proof.
  split.
  - intros effectId propertiesSize inputSize isInputSizeFixed factory_hr w w'.
    unfold CanvasEffect_new, bind, ThrowIfFailed.
    destruct (FAILED factory_hr); [done|]. simpl. intros [= <-].
    eexists. split; [apply heap_set_node_eq|]. done.
  - intros fuel dc w n Hn Hid. split.
    { erewrite CheckDevice_run by eauto. rewrite Hid.
      rewrite bool_decide_eq_true_2 by done. eauto. }
    intros img w' Hp Hi Hrun r.
    assert (Hne : Some (dc_identity dc) <> m_previousDeviceIdentity n) by by rewrite Hid.
    pose proof Hrun as Happlied.
    apply GetD2DImage_Ret_applied with (n := n) in Happlied
      as (r2 & cs2 & Himg & Hcs2 & _ & Hbound); [|done].
    apply GetD2DImage_recreated with (n := n) in Hrun
      as (-> & n' & cs & Hn' & _ & Hcalls & Hprops & Hcount & _); [|done..].
    injection Himg as <-. fold r in Hcalls, Hprops, Hcount, Hbound.
    rewrite (visited_small _ Hp) in Hprops.
    rewrite (to_unsigned_int_small _ Hi) in Hcount.
    split; [done|]. exists cs. split_and!; try done.
    intros j slot Hslot. destruct Hbound as [_ Hbound]; [by left|].
    rewrite (visited_small _ Hi) in Hbound.
    rewrite Hcs2 in Hcalls. apply app_inv_head in Hcalls. subst cs2.
    apply input_bound_after with (pre := released n ++ [Call_CreateEffect r]).
    + apply Forall_app. split; [|by apply Forall_singleton].
      unfold released. destruct (m_resource n); [by apply Forall_singleton|done].
    + rewrite <- app_assoc. by apply Hbound.
Qed.

(** C8: when the inputs branch gets to a slot whose object answers
    [E_NOINTERFACE] to the query for [ICanvasImageInternal], the realization
    throws [E_NOINTERFACE] with the message [EffectWrongInputType] formatted
    with the index of that slot. *)
Theorem wrong_input_type fuel this dc i w wi n input :
  reaches_input d2d fuel this dc i w wi ->
  heap w !! this = Some n ->
  InternalVector (m_inputs n) !! i = Some (Some input) ->
  (As_ICanvasImageInternal input).1 = E_NOINTERFACE ->
  GetD2DImage d2d (S fuel) this (Some dc) w =
    Throw (mkException E_NOINTERFACE (Some (Format EffectWrongInputType i))) wi.
Proof.
  intros Hreach Hn Hslot Hqi.
  apply reaches_input_resume in Hreach
    as (n0 & ni & r & Hn0 & Hni & Hnode & _ & _ & _ & Hi & ->).
  rewrite Hn in Hn0. injection Hn0 as <-.
  set (size := to_unsigned_int _) in *.
  destruct (size - i)%nat as [|k] eqn:Hk; [lia|].
  unfold bind at 1. rewrite SetInputs_from_S. unfold bind at 1.
  erewrite SetInput_at_run by eauto.
  rewrite (ev_inputs _ _ _ Hnode), Hslot, Hqi. done.
Qed.


(** C7: an effect [A] whose inputs are a single reference to the effect
    [B], when the inputs branch runs.  Whatever the [GetD2DImage] of an
    input does ([realize] stands for that virtual call), the realization of
    [A] sets the input count of [A]'s resource to the length of the inputs,
    then calls [realize] once, for [B], with the device context [A] was
    given, from the state reached so far; then calls SetInput on [A]'s
    resource at index 0 with the image that call returned, clears the
    inputs flag and returns [A]'s own image.  With [GetD2DImage] itself as
    [realize]: on a graph in which [B] can be realized that one realization
    returns or throws; what it throws is thrown on; the image it returns is
    the output of the resource [B] then holds, and the log of calls is the
    one before the inputs, SetInputCount, the calls the realization of [B]
    made, and SetInput with that image. *)
Theorem single_input_realized_once A B dc w n wasRecreated w1 :
  heap w !! A = Some n ->
  InternalVector (m_inputs n) = [Some (Input_Internal (Internal_CanvasEffect B))] ->
  Prologue d2d A dc w = Ret wasRecreated w1 ->
  wasRecreated || IsChanged (m_inputs n) = true ->
  exists r,
    resource A w1 = Ret r w1 /\
    let w1' := add_call (Call_SetInputCount r (length (InternalVector (m_inputs n)))) w1 in
    (forall realize,
       GetD2DImage_body d2d realize A (Some dc) w =
         (image <- realize B (Some dc) ;;
          r' <- resource A ;;
          record_call (Call_SetInput r' 0 image) ;;
          modify A (fun n => with_inputs (SetChanged false (m_inputs n)) n) ;;
          ReturnImage d2d A) w1') /\
    forall fuel,
      (realizable_within fuel w B = true ->
       is_Some (state_after (GetD2DImage d2d fuel B (Some dc) w1'))) /\
      match GetD2DImage d2d fuel B (Some dc) w1' with
      | Ret image w2 =>
          exists n2 nb rb cs,
            heap w2 !! A = Some n2 /\
            heap w2 !! B = Some nb /\ m_resource nb = Some rb /\
            image = EffectOutput rb /\
            d2d_calls w2 = d2d_calls w1' ++ cs /\
            let w3 := set_node A (with_inputs (SetChanged false (m_inputs n2)) n2)
                        (add_call (Call_SetInput r 0 image) w2) in
            d2d_calls w3 =
              d2d_calls w1 ++
              Call_SetInputCount r 1 :: cs ++ [Call_SetInput r 0 (EffectOutput rb)] /\
            GetD2DImage d2d (S fuel) A (Some dc) w =
              if FAILED (As_ID2D1Image_hr d2d r)
              then Throw (mkException (As_ID2D1Image_hr d2d r) None) w3
              else Ret (EffectOutput r) w3
      | Throw e w2 => GetD2DImage d2d (S fuel) A (Some dc) w = Throw e w2
      | Fault => GetD2DImage d2d (S fuel) A (Some dc) w = Fault
      | OutOfFuel => GetD2DImage d2d (S fuel) A (Some dc) w = OutOfFuel
      end.
Proof.
  intros Hn Hinputs Hpro Hguard.
  pose proof Hpro as Hinv.
  apply Prologue_inv_Ret in Hinv as (n0 & Hn0 & Hprep & Hw1).
  rewrite Hn in Hn0. injection Hn0 as <-.
  pose proof (prepare_inputs dc (allocated w) n) as Hin1.
  apply prepare_Ret in Hprep as (_ & Hid1 & [r Hr1] & _ & _).
  set (n1 := (prepare d2d dc (allocated w) n).1.2) in *.
  assert (Hn1 : heap w1 !! A = Some n1) by (rewrite Hw1; apply prepared_world_lookup).
  assert (Hev1 : World_evolves (dc_identity dc) w w1).
  { assert (Hf : frames (dc_identity dc) (Prologue d2d A dc)) by apply frames_Prologue.
    specialize (Hf w). by rewrite Hpro in Hf. }
  clearbody n1. clear Hw1.
  assert (Hres : resource A w1 = Ret r w1) by by eapply resource_run.
  exists r. split; [done|]. cbv zeta.
  rewrite Hinputs. cbn [length].
  set (w1' := add_call (Call_SetInputCount r 1) w1).
  assert (Hn1' : heap w1' !! A = Some n1) by done.
  assert (Hbody : forall realize,
    GetD2DImage_body d2d realize A (Some dc) w =
      (image <- realize B (Some dc) ;;
       r' <- resource A ;;
       record_call (Call_SetInput r' 0 image) ;;
       modify A (fun n => with_inputs (SetChanged false (m_inputs n)) n) ;;
       ReturnImage d2d A) w1').
  { intros realize. rewrite GetD2DImage_body_Prologue.
    erewrite bind_Ret by eauto.
    unfold ApplyInputs. rewrite bind_bind. erewrite bind_deref by eauto.
    rewrite Hin1, Hguard. unfold SetInputs. rewrite bind_bind.
    erewrite bind_deref by eauto. rewrite bind_bind. erewrite bind_Ret by eauto.
    rewrite bind_bind, bind_record_call.
    rewrite Hin1, Hinputs. cbn [length].
    rewrite to_unsigned_int_small by lia. fold w1'.
    rewrite bind_bind. unfold bind at 1. rewrite SetInputs_from_S.
    unfold bind at 1. erewrite SetInput_at_run by eauto.
    rewrite Hin1, Hinputs. simpl. unfold bind.
    destruct (realize B (Some dc) w1') as [image w2|e w2| |]; try done.
    by destruct (resource A w2) as [r0 w3|e w3| |]. }
  split; [exact Hbody|].
  intros fuel. split.
  { intros Hgraph.
    assert (Hgraph' : graph_within true fuel w1' B = true).
    { etrans; [|exact Hgraph].
      apply graph_within_evolves with (id := dc_identity dc).
      eapply World_evolves_trans; [exact Hev1|].
      unfold w1'. rewrite add_call_calls. apply evolves_add_calls. }
    pose proof (GetD2DImage_ends true fuel B (Some dc) w1' Hgraph') as Hends.
    by destruct (GetD2DImage d2d fuel B (Some dc) w1') as [image w2|e w2| |]. }
  change (GetD2DImage d2d (S fuel) A (Some dc) w)
    with (GetD2DImage_body d2d (GetD2DImage d2d fuel) A (Some dc) w).
  rewrite Hbody. unfold bind at 1 5 9 13.
  assert (Hf : frames (dc_identity dc) (GetD2DImage d2d fuel B (Some dc)))
    by apply frames_GetD2DImage.
  specialize (Hf w1').
  destruct (GetD2DImage d2d fuel B (Some dc) w1') as [image w2|e w2| |] eqn:HB; try done.
  destruct (evolves_lookup _ _ _ _ _ Hf Hn1') as (n2 & Hn2 & Hnode2).
  assert (Hr2 : m_resource n2 = Some r).
  { rewrite <- Hr1. apply (ev_resource _ _ _ Hnode2); [done|]. by rewrite Hr1. }
  apply GetD2DImage_Ret_clean in HB as (nb & rb & Hnb & (_ & Hrb & _) & ->).
  destruct (ev_calls _ _ _ Hf) as [cs Hcs].
  exists n2, nb, rb, cs. split_and!; try done.
  - simpl. rewrite Hcs. simpl. by rewrite <- !app_assoc.
  - erewrite bind_Ret by (by eapply resource_run).
    rewrite bind_record_call.
    erewrite bind_modify by exact Hn2.
    erewrite ReturnImage_run; [done|apply heap_set_node_eq|done].
Qed.

(** C5: the marshalling of a property value.  A float array of 16 elements
    is passed to SetValue as a 4x4 matrix.  A float array of any other
    length, and a value whose type tag is none of UInt32, Single and
    SingleArray, makes the realization throw [E_NOTIMPL] when the
    properties are applied and the slots before it have been; the
    properties-changed flag is then as it was before the call, and it was
    set if the flags are in step with the contents. *)
Theorem unsupported_property this :
  (forall i p w n r,
     heap w !! this = Some n -> m_resource n = Some r ->
     SUCCEEDED (get_Type p).1 = true ->
     (get_Type p).2 = PropertyType_SingleArray ->
     SUCCEEDED (GetSingleArray p).1 = true ->
     length (GetSingleArray p).2 = 16%nat ->
     let value := Value_MATRIX_4X4_F (GetSingleArray p).2 in
     SetProperty d2d this i p w =
       if FAILED (SetValue_hr d2d r i value)
       then Throw (mkException (SetValue_hr d2d r i value) None)
              (add_calls [Call_SetValue r i value] w)
       else Ret tt (add_calls [Call_SetValue r i value] w)) /\
  (forall fuel dc w n i p,
     heap w !! this = Some n ->
     Some (dc_identity dc) <> m_previousDeviceIdentity n \/
       IsChanged (m_properties n) = true ->
     (Some (dc_identity dc) <> m_previousDeviceIdentity n \/ m_resource n = None ->
      SUCCEEDED (dc_CreateEffect dc (m_effectId n)) = true) ->
     InternalVector (m_properties n) !! i = Some (Some p) ->
     (i < to_unsigned_int (length (InternalVector (m_properties n))))%nat ->
     (forall j slot r, (j < i)%nat ->
        InternalVector (m_properties n) !! j = Some slot ->
        exists pj v, slot = Some pj /\ marshal pj = inr v /\
          SUCCEEDED (SetValue_hr d2d r j v) = true) ->
     SUCCEEDED (get_Type p).1 = true ->
     ((get_Type p).2 = PropertyType_SingleArray /\
      SUCCEEDED (GetSingleArray p).1 = true /\
      length (GetSingleArray p).2 <> 16%nat) \/
     ((get_Type p).2 <> PropertyType_UInt32 /\
      (get_Type p).2 <> PropertyType_Single /\
      (get_Type p).2 <> PropertyType_SingleArray) ->
     exists w' n',
       GetD2DImage d2d (S fuel) this (Some dc) w = Throw (mkException E_NOTIMPL None) w' /\
       heap w' !! this = Some n' /\
       IsChanged (m_properties n') = IsChanged (m_properties n) /\
       (properties_tracked n -> IsChanged (m_properties n') = true)).
Proof.
  split.
  - intros i p w n r Hn Hr Hty Htag Hget Hlen value.
    erewrite SetProperty_marshal by eauto. unfold marshal.
    rewrite !FAILED_SUCCEEDED, Hty, Htag, Hget, Hlen. simpl. by rewrite FAILED_SUCCEEDED.
  - intros fuel dc w n i p Hn Hguard Hcreate Hslot Hi Hbefore Hty Hbad.
    assert (Hm : marshal p = inl E_NOTIMPL).
    { unfold marshal. rewrite !FAILED_SUCCEEDED, Hty. simpl.
      destruct Hbad as [(Htag & Hget & Hlen)|(H1 & H2 & H3)].
      - rewrite Htag, Hget. simpl.
        apply Nat.eqb_neq in Hlen. by rewrite Hlen.
      - apply Z.eqb_neq in H1, H2, H3. by rewrite H1, H2, H3. }
    assert (Hrun : forall r, exists cs,
      properties_run d2d r (visited (InternalVector (m_properties n))) 0 = (cs, Some E_NOTIMPL)).
    { intros r. eapply properties_run_stops; [|done|].
      - by rewrite visited_lookup.
      - intros j slot Hj Hlook. rewrite visited_lookup in Hlook by lia. by eapply Hbefore. }
    assert (Hprep : exists cs n',
      prepare d2d dc (allocated w) n = (cs, (prepare d2d dc (allocated w) n).1.1.2, n',
                                        inl E_NOTIMPL) /\
      m_properties n' = m_properties n).
    { unfold prepare.
      destruct (bool_decide (Some (dc_identity dc) <> m_previousDeviceIdentity n)) eqn:Hid.
      - apply bool_decide_eq_true_1 in Hid. simpl.
        rewrite FAILED_SUCCEEDED, Hcreate by auto. simpl.
        edestruct Hrun as [cs Hcs].
        erewrite prepare_properties_throws; [| |exact Hcs]; [|done]. simpl. eauto.
      - apply bool_decide_eq_false_1 in Hid.
        destruct Hguard as [Hne|Hc]; [done|].
        destruct (m_resource n) as [r|] eqn:Hr.
        + edestruct Hrun as [cs Hcs].
          erewrite prepare_properties_throws; [| |exact Hcs]; [|simpl; by rewrite Hc]. simpl. eauto.
        + rewrite FAILED_SUCCEEDED, Hcreate by auto. simpl.
          edestruct Hrun as [cs Hcs].
          erewrite prepare_properties_throws; [| |exact Hcs]; [|simpl; by rewrite Hc]. simpl. eauto. }
    destruct Hprep as (cs & n' & Hprep & Hprops).
    exists (prepared_world this w (prepare d2d dc (allocated w) n)), n'.
    split_and!.
    + simpl. rewrite GetD2DImage_body_Prologue.
      erewrite bind_Throw; [done|].
      erewrite Prologue_run by eauto. simpl. by rewrite Hprep at 1.
    + rewrite prepared_world_lookup. by rewrite Hprep.
    + by rewrite Hprops.
    + intros Hwf. unfold properties_tracked in Hwf. rewrite Hprops.
      destruct (IsChanged (m_properties n)); [done|].
      specialize (Hwf eq_refl). rewrite Forall_lookup in Hwf.
      destruct (Hwf i (Some p)) as (p' & v & [= <-] & Hv).
      { by rewrite visited_lookup. }
      by rewrite Hm in Hv.
Qed.

(** C6: the code at the input the claim fails on.  An effect with both
    changed flags cleared is realized and the realization throws (the
    device has changed, so the properties and the inputs were being applied
    to a new resource).  Both flags are still cleared afterwards, and the
    next realization against that device applies nothing: it makes no
    Direct2D call and returns the image of the resource the failed
    realization left behind. *)
Theorem failed_GetD2DImage_is_not_retried fuel fuel' this dc dc' w n e w' n' r :
  heap w !! this = Some n ->
  IsChanged (m_properties n) = false ->
  IsChanged (m_inputs n) = false ->
  GetD2DImage d2d (S fuel) this (Some dc) w = Throw e w' ->
  heap w' !! this = Some n' ->
  m_resource n' = Some r ->
  SUCCEEDED (As_ID2D1Image_hr d2d r) = true ->
  dc_identity dc' = dc_identity dc ->
  IsChanged (m_properties n') = false /\
  IsChanged (m_inputs n') = false /\
  GetD2DImage d2d (S fuel') this (Some dc') w' = Ret (EffectOutput r) w'.
Proof.
  intros Hn Hp Hi Hrun Hn' Hr Has Hdc.
  pose proof (GetD2DImage_identity fuel this dc w n Hn) as Hid.
  rewrite Hrun in Hid. destruct Hid as (n'' & Hn'' & Hnode & Hid).
  rewrite Hn' in Hn''. injection Hn'' as <-.
  assert (Hp' : IsChanged (m_properties n') = false).
  { destruct (IsChanged (m_properties n')) eqn:Hc; [|done].
    rewrite <- Hp. symmetry. by apply (ev_properties_changed _ _ _ Hnode). }
  assert (Hi' : IsChanged (m_inputs n') = false).
  { destruct (IsChanged (m_inputs n')) eqn:Hc; [|done].
    rewrite <- Hi. symmetry. by apply (ev_inputs_changed _ _ _ Hnode). }
  split; [done|]. split; [done|].
  eapply GetD2DImage_clean; [done|]. rewrite Hdc. by split_and!.
Qed.

(** ** The frame of a realization *)

(** X1: a realization, whether it returns or throws, only appends to the
    log of Direct2D calls, and for every effect of the heap, not only the
    one realized: it keeps the effect in the heap, never changes its id,
    the contents or the kind of its two sequences, and never sets a changed
    flag; it adds no effect to the heap. *)
Theorem GetD2DImage_frame fuel this deviceContext w :
  match GetD2DImage d2d fuel this deviceContext w with
  | Ret _ w' | Throw _ w' =>
      d2d_calls w `prefix_of` d2d_calls w' /\
      (allocated w <= allocated w')%nat /\
      forall a,
        match heap w !! a, heap w' !! a with
        | Some n, Some n' =>
            m_effectId n' = m_effectId n /\
            InternalVector (m_properties n') = InternalVector (m_properties n) /\
            IsFixedSize (m_properties n') = IsFixedSize (m_properties n) /\
            InternalVector (m_inputs n') = InternalVector (m_inputs n) /\
            IsFixedSize (m_inputs n') = IsFixedSize (m_inputs n) /\
            (IsChanged (m_properties n') = true -> IsChanged (m_properties n) = true) /\
            (IsChanged (m_inputs n') = true -> IsChanged (m_inputs n) = true)
        | None, None => True
        | _, _ => False
        end
  | Fault | OutOfFuel => True
  end.
Proof.
  assert (Hgoal : forall id w', World_evolves id w w' ->
    d2d_calls w `prefix_of` d2d_calls w' /\
    (allocated w <= allocated w')%nat /\
    forall a,
      match heap w !! a, heap w' !! a with
      | Some n, Some n' =>
          m_effectId n' = m_effectId n /\
          InternalVector (m_properties n') = InternalVector (m_properties n) /\
          IsFixedSize (m_properties n') = IsFixedSize (m_properties n) /\
          InternalVector (m_inputs n') = InternalVector (m_inputs n) /\
          IsFixedSize (m_inputs n') = IsFixedSize (m_inputs n) /\
          (IsChanged (m_properties n') = true -> IsChanged (m_properties n) = true) /\
          (IsChanged (m_inputs n') = true -> IsChanged (m_inputs n) = true)
      | None, None => True
      | _, _ => False
      end).
  { intros id w' [Hheap Hcalls Halloc]. split; [done|]. split; [done|].
    intros a. specialize (Hheap a).
    destruct Hheap as [n n' Hnode|]; [|done]. by destruct Hnode. }
  destruct deviceContext as [dc|].
  - assert (Hf : frames (dc_identity dc) (GetD2DImage d2d fuel this (Some dc)))
      by apply frames_GetD2DImage.
    specialize (Hf w).
    destruct (GetD2DImage d2d fuel this (Some dc) w); try done; by eapply Hgoal.
  - destruct fuel as [|fuel]; [done|]. simpl.
    apply (Hgoal 0%nat). apply World_evolves_refl.
Qed.

(** X2: a realization that returns leaves the effect it was called on with
    the identity of the device stored, a resource whose image is the one
    returned, and both changed flags cleared. *)
Theorem GetD2DImage_postcondition fuel this dc w img w' :
  GetD2DImage d2d fuel this (Some dc) w = Ret img w' ->
  exists n' r,
    heap w' !! this = Some n' /\
    m_previousDeviceIdentity n' = Some (dc_identity dc) /\
    m_resource n' = Some r /\
    img = EffectOutput r /\
    SUCCEEDED (As_ID2D1Image_hr d2d r) = true /\
    IsChanged (m_properties n') = false /\
    IsChanged (m_inputs n') = false.
Proof.
  intros Hrun.
  apply GetD2DImage_Ret_clean in Hrun as (n' & r & Hn' & (H1 & H2 & H3 & H4 & H5) & ->).
  by exists n', r.
Qed.

(** X4: when a resource has to be created and [CreateEffect] fails, the
    realization throws that HRESULT.  By then it has recorded the device
    and released the resource of another device, if it held one; the effect
    is left without a resource, nothing else of it has changed, and no
    instance has been handed out. *)
Theorem GetD2DImage_CreateEffect_fails fuel this dc w n :
  heap w !! this = Some n ->
  Some (dc_identity dc) <> m_previousDeviceIdentity n \/ m_resource n = None ->
  FAILED (dc_CreateEffect dc (m_effectId n)) = true ->
  exists w' n',
    GetD2DImage d2d (S fuel) this (Some dc) w =
      Throw (mkException (dc_CreateEffect dc (m_effectId n)) None) w' /\
    heap w' = <[this := n']> (heap w) /\
    allocated w' = allocated w /\
    d2d_calls w' =
      d2d_calls w ++
      (if bool_decide (Some (dc_identity dc) <> m_previousDeviceIdentity n)
       then released n else []) /\
    m_previousDeviceIdentity n' = Some (dc_identity dc) /\
    m_resource n' = None /\
    m_effectId n' = m_effectId n /\
    m_properties n' = m_properties n /\
    m_inputs n' = m_inputs n.
Proof.
  intros Hn Hneed Hfail.
  set (n' := with_resource None (with_previousDeviceIdentity (Some (dc_identity dc)) n)).
  set (cs := if bool_decide (Some (dc_identity dc) <> m_previousDeviceIdentity n)
             then released n else []).
  assert (Hprep : prepare d2d dc (allocated w) n =
            (cs, allocated w, n', inl (dc_CreateEffect dc (m_effectId n)))).
  { unfold prepare, cs, n'.
    destruct (bool_decide (Some (dc_identity dc) <> m_previousDeviceIdentity n)) eqn:Hid; simpl.
    - by rewrite Hfail.
    - apply bool_decide_eq_false_1 in Hid.
      destruct Hneed as [Hne|Hr]; [done|]. rewrite Hr, Hfail.
      assert (Hprev : m_previousDeviceIdentity n = Some (dc_identity dc)).
      { destruct (decide (Some (dc_identity dc) = m_previousDeviceIdentity n)); [done|].
        by destruct Hid. }
      do 2 f_equal. destruct n; simpl in *. by subst. }
  exists (prepared_world this w (prepare d2d dc (allocated w) n)), n'.
  split.
  { simpl. rewrite GetD2DImage_body_Prologue. erewrite bind_Throw; [done|].
    erewrite Prologue_run by eauto. simpl. by rewrite Hprep at 1. }
  rewrite Hprep. by split_and!.
Qed.

(** ** CanvasEffect::SetProperties, call by call *)

Lemma properties_run_shape r slots k cs e :
  properties_run d2d r slots k = (cs, e) ->
  exists vs,
    cs = imap (fun i v => Call_SetValue r (k + i) v) vs /\
    (length vs <= length slots)%nat /\
    (forall i v, vs !! i = Some v ->
       exists p, slots !! i = Some (Some p) /\ marshal p = inr v) /\
    (forall i v, vs !! i = Some v -> (S i < length vs)%nat ->
       SUCCEEDED (SetValue_hr d2d r (k + i) v) = true) /\
    match e with
    | None =>
        length vs = length slots /\
        forall i v, vs !! i = Some v -> SUCCEEDED (SetValue_hr d2d r (k + i) v) = true
    | Some hr =>
        (exists v, vs !! (length vs - 1)%nat = Some v /\ (0 < length vs)%nat /\
           hr = SetValue_hr d2d r (k + (length vs - 1)) v /\ FAILED hr = true) \/
        (slots !! length vs = Some None /\ hr = E_POINTER) \/
        (exists p, slots !! length vs = Some (Some p) /\ marshal p = inl hr)
    end.
Proof.
  revert k cs e. induction slots as [|slot rest IH]; intros k cs e Hrun; simpl in Hrun.
  { injection Hrun as <- <-. exists []. simpl. split_and!; try done; lia. }
  destruct slot as [p|].
  2:{ injection Hrun as <- <-. exists []. simpl. split_and!; try done; try lia.
      right. by left. }
  destruct (marshal p) as [hr|v] eqn:Hp.
  { injection Hrun as <- <-. exists []. simpl. split_and!; try done; try lia.
    right. right. by exists p. }
  destruct (FAILED (SetValue_hr d2d r k v)) eqn:Hset.
  { injection Hrun as <- <-. exists [v]. simpl. split_and!.
    - by rewrite Nat.add_0_r.
    - lia.
    - intros [|i] v' Hv; [|done]. injection Hv as <-. by exists p.
    - intros i v' _ Hlt. lia.
    - left. exists v. split_and!; [done|lia|by rewrite Nat.add_0_r|done]. }
  destruct (properties_run d2d r rest (S k)) as [cs' e'] eqn:Hrest.
  injection Hrun as <- <-.
  destruct (IH _ _ _ Hrest) as (vs & -> & Hlen & Hslots & Hok & He).
  assert (Hhead : SUCCEEDED (SetValue_hr d2d r k v) = true).
  { rewrite FAILED_SUCCEEDED in Hset. by destruct (SUCCEEDED _). }
  exists (v :: vs). simpl. split_and!.
  - rewrite Nat.add_0_r. f_equal. apply imap_ext. intros i x _. simpl.
    by rewrite Nat.add_succ_r.
  - lia.
  - intros [|i] v' Hv; simpl in Hv.
    + injection Hv as <-. by exists p.
    + by apply Hslots.
  - intros [|i] v' Hv Hlt; simpl in Hv.
    + injection Hv as <-. by rewrite Nat.add_0_r.
    + rewrite Nat.add_succ_r. apply Hok; [done|lia].
  - destruct e' as [hr|].
    + destruct He as [(v' & Hv' & Hpos & -> & Hf)|[[Hnull ->]|(p' & Hp' & Hm)]].
      * left. exists v'. rewrite Nat.sub_0_r.
        destruct (length vs) as [|m] eqn:Hm; [lia|].
        simpl in Hv'. rewrite Nat.sub_0_r in Hv'. simpl.
        split_and!; [done|lia| |].
        -- f_equal. lia.
        -- replace (S (k + (m - 0))) with (S k + (S m - 1))%nat by lia. done.
      * right. by left.
      * right. right. by exists p'.
    + destruct He as [He1 He2]. split; [by rewrite He1|].
      intros [|i] v' Hv; simpl in Hv.
      * injection Hv as <-. by rewrite Nat.add_0_r.
      * rewrite Nat.add_succ_r. by apply He2.
Qed.

(** X5: what [SetProperties] does on an effect that holds a resource.  It
    calls SetValue on that resource for the slots 0, 1, 2, ... in this
    order, with the value each slot marshals to, and does nothing else.  It
    returns when it has gone through every slot.  It throws at the first
    slot that is empty ([E_POINTER]) or does not marshal, before any call
    for that slot, and right after the first SetValue that fails, with the
    HRESULT of that call. *)
Theorem SetProperties_calls this w n r :
  heap w !! this = Some n -> m_resource n = Some r ->
  let slots := visited (InternalVector (m_properties n)) in
  exists vs,
    (length vs <= length slots)%nat /\
    (forall i v, vs !! i = Some v ->
       exists p, InternalVector (m_properties n) !! i = Some (Some p) /\
                 marshal p = inr v) /\
    (forall i v, vs !! i = Some v -> (S i < length vs)%nat ->
       SUCCEEDED (SetValue_hr d2d r i v) = true) /\
    let w' := add_calls (imap (fun i v => Call_SetValue r i v) vs) w in
    match SetProperties d2d this w with
    | Ret _ w1 =>
        w1 = w' /\ length vs = length slots /\
        forall i v, vs !! i = Some v -> SUCCEEDED (SetValue_hr d2d r i v) = true
    | Throw e w1 =>
        w1 = w' /\ exn_message e = None /\
        ((exists v, vs !! (length vs - 1)%nat = Some v /\ (0 < length vs)%nat /\
            exn_hr e = SetValue_hr d2d r (length vs - 1) v /\
            FAILED (exn_hr e) = true) \/
         (slots !! length vs = Some None /\ exn_hr e = E_POINTER) \/
         (exists p, slots !! length vs = Some (Some p) /\ marshal p = inl (exn_hr e)))
    | Fault | OutOfFuel => False
    end.
Proof.
  intros Hn Hr slots.
  erewrite SetProperties_run by eauto. fold slots.
  destruct (properties_run d2d r slots 0) as [cs e] eqn:Hrun.
  destruct (properties_run_shape _ _ _ _ _ Hrun) as (vs & -> & Hlen & Hslots & Hok & He).
  exists vs. split; [done|]. split.
  { intros i v Hv. destruct (Hslots i v Hv) as (p & Hp & Hm). exists p. split; [|done].
    apply lookup_lt_Some in Hv.
    rewrite <- Hp. symmetry. apply visited_lookup.
    unfold slots in Hlen. rewrite length_visited in Hlen. lia. }
  split; [done|].
  destruct e as [hr|]; simpl.
  - split; [done|]. split; [done|]. exact He.
  - destruct He as [He1 He2]. by split_and!.
Qed.

Lemma properties_run_null r slots k i :
  slots !! i = Some None ->
  (forall j slot, (j < i)%nat -> slots !! j = Some slot ->
     exists pj v, slot = Some pj /\ marshal pj = inr v /\
       SUCCEEDED (SetValue_hr d2d r (k + j) v) = true) ->
  exists cs, properties_run d2d r slots k = (cs, Some E_POINTER).
Proof.
  revert slots k. induction i as [|i IH]; intros slots k Hslot Hbefore.
  - destruct slots as [|slot slots]; [done|]. injection Hslot as ->. simpl. eauto.
  - destruct slots as [|slot slots]; [done|]. simpl in Hslot.
    destruct (Hbefore 0%nat slot) as (pj & v & -> & Hmj & Hok); [lia|done|].
    simpl. rewrite Hmj. rewrite Nat.add_0_r in Hok.
    rewrite FAILED_SUCCEEDED, Hok. simpl.
    destruct (IH slots (S k) Hslot) as [cs Hcs].
    { intros j slot Hj Hlook. destruct (Hbefore (S j) slot) as (pj' & v' & ? & ? & ?);
        [lia|done|]. exists pj', v'. by replace (S k + j)%nat with (k + S j)%nat by lia. }
    rewrite Hcs. eauto.
Qed.

(** When the properties are applied and [SetProperties] throws [hr] on
    whatever resource it is given, the prologue throws [hr] and leaves the
    properties as they were. *)
Lemma prepare_throws dc alloc n hr :
  Some (dc_identity dc) <> m_previousDeviceIdentity n \/
    IsChanged (m_properties n) = true ->
  (Some (dc_identity dc) <> m_previousDeviceIdentity n \/ m_resource n = None ->
   SUCCEEDED (dc_CreateEffect dc (m_effectId n)) = true) ->
  (forall r, exists cs,
     properties_run d2d r (visited (InternalVector (m_properties n))) 0 = (cs, Some hr)) ->
  (prepare d2d dc alloc n).2 = inl hr /\
  m_properties (prepare d2d dc alloc n).1.2 = m_properties n.
Proof.
  intros Hguard Hcreate Hrun. unfold prepare.
  destruct (bool_decide (Some (dc_identity dc) <> m_previousDeviceIdentity n)) eqn:Hid.
  - apply bool_decide_eq_true_1 in Hid. simpl.
    rewrite FAILED_SUCCEEDED, Hcreate by auto. simpl.
    edestruct Hrun as [cs Hcs].
    erewrite prepare_properties_throws; [| |exact Hcs]; done.
  - apply bool_decide_eq_false_1 in Hid.
    destruct Hguard as [Hne|Hc]; [done|].
    destruct (m_resource n) as [r|] eqn:Hr.
    + edestruct Hrun as [cs Hcs].
      erewrite prepare_properties_throws; [| |exact Hcs]; [done|]. simpl. by rewrite Hc.
    + rewrite FAILED_SUCCEEDED, Hcreate by auto. simpl.
      edestruct Hrun as [cs Hcs].
      erewrite prepare_properties_throws; [| |exact Hcs]; [done|]. simpl. by rewrite Hc.
Qed.

(** A prologue that applies the properties and returns has marshalled
    every slot it went through. *)
Lemma prepare_Ret_marshals dc alloc n b :
  (prepare d2d dc alloc n).2 = inr b ->
  Some (dc_identity dc) <> m_previousDeviceIdentity n \/
    IsChanged (m_properties n) = true ->
  Forall marshals (visited (InternalVector (m_properties n))).
Proof.
  intros Hret Hguard.
  assert (Hpp : forall wr r cs a n0,
    (prepare_properties d2d wr r cs a n0).2 = inr b ->
    wr || IsChanged (m_properties n0) = true ->
    Forall marshals (visited (InternalVector (m_properties n0)))).
  { intros wr r cs a n0 H Hg. unfold prepare_properties in H. rewrite Hg in H.
    destruct (properties_run d2d r (visited (InternalVector (m_properties n0))) 0)
      as [cs' [hr|]] eqn:Hrun; [done|].
    by eapply properties_run_marshals. }
  unfold prepare in Hret.
  destruct (bool_decide (Some (dc_identity dc) <> m_previousDeviceIdentity n)) eqn:Hid;
    simpl in Hret.
  - destruct (FAILED (dc_CreateEffect dc (m_effectId n))); [done|].
    by apply Hpp in Hret.
  - apply bool_decide_eq_false_1 in Hid.
    destruct Hguard as [Hne|Hc]; [done|].
    destruct (m_resource n) as [r|] eqn:Hr.
    + apply Hpp in Hret; [done|]. by rewrite Hc, orb_true_r.
    + destruct (FAILED (dc_CreateEffect dc (m_effectId n))); [done|].
      apply Hpp in Hret; [done|]. simpl. by rewrite Hc.
Qed.

(** X7: an empty slot among the properties.  A realization that has the
    properties to apply never returns an image.  When [CreateEffect]
    succeeds where it is needed and the slots before the empty one are
    applied without failure, the realization throws [E_POINTER] and leaves
    the properties, contents and flag, as they were. *)
Theorem empty_property_slot fuel this dc w n i :
  heap w !! this = Some n ->
  InternalVector (m_properties n) !! i = Some None ->
  (i < to_unsigned_int (length (InternalVector (m_properties n))))%nat ->
  Some (dc_identity dc) <> m_previousDeviceIdentity n \/
    IsChanged (m_properties n) = true ->
  (forall img w', GetD2DImage d2d (S fuel) this (Some dc) w <> Ret img w') /\
  ((Some (dc_identity dc) <> m_previousDeviceIdentity n \/ m_resource n = None ->
    SUCCEEDED (dc_CreateEffect dc (m_effectId n)) = true) ->
   (forall j slot r, (j < i)%nat ->
      InternalVector (m_properties n) !! j = Some slot ->
      exists pj v, slot = Some pj /\ marshal pj = inr v /\
        SUCCEEDED (SetValue_hr d2d r j v) = true) ->
   exists w' n',
     GetD2DImage d2d (S fuel) this (Some dc) w = Throw (mkException E_POINTER None) w' /\
     heap w' !! this = Some n' /\
     m_properties n' = m_properties n).
Proof.
  intros Hn Hslot Hi Hguard. split.
  - intros img w' Hrun. simpl in Hrun. rewrite GetD2DImage_body_Prologue in Hrun.
    apply bind_inv_Ret in Hrun as (wr & w1 & Hpro & _).
    apply Prologue_inv_Ret in Hpro as (n0 & Hn0 & Hprep & _).
    rewrite Hn in Hn0. injection Hn0 as <-.
    apply prepare_Ret_marshals in Hprep; [|done].
    rewrite Forall_lookup in Hprep.
    destruct (Hprep i None) as (p & v & Hp & _); [|done].
    by rewrite visited_lookup.
  - intros Hcreate Hbefore.
    destruct (prepare_throws dc (allocated w) n E_POINTER) as [Hthrow Hprops];
      [done|done| |].
    { intros r. eapply properties_run_null.
      - by rewrite visited_lookup.
      - intros j slot Hj Hlook. rewrite visited_lookup in Hlook by lia. by eapply Hbefore. }
    exists (prepared_world this w (prepare d2d dc (allocated w) n)),
      (prepare d2d dc (allocated w) n).1.2.
    split_and!; [|by rewrite prepared_world_lookup|done].
    simpl. rewrite GetD2DImage_body_Prologue.
    erewrite bind_Throw; [done|].
    erewrite Prologue_run by eauto. simpl. by rewrite Hthrow.
Qed.

(** X6: a realization against the device of the last one, of an effect
    that holds a resource and has only its properties marked changed.  It
    realizes no input and creates nothing.  When it returns, it has called
    SetValue once for every property slot, in the order of the slots, and
    made no other call, cleared the properties flag, and the image is the
    one of the resource held.  When it throws, either a property could not
    be applied, and then the effect is as it was, with the flag still set;
    or all were applied and the resource is not an image. *)
Theorem GetD2DImage_properties_only fuel this dc w n r :
  heap w !! this = Some n ->
  m_previousDeviceIdentity n = Some (dc_identity dc) ->
  m_resource n = Some r ->
  IsChanged (m_properties n) = true ->
  IsChanged (m_inputs n) = false ->
  let slots := visited (InternalVector (m_properties n)) in
  exists vs,
    (forall i v, vs !! i = Some v ->
       exists p, slots !! i = Some (Some p) /\ marshal p = inr v) /\
    let applied := add_calls (imap (fun i v => Call_SetValue r i v) vs) w in
    let cleared := with_properties (SetChanged false (m_properties n)) n in
    match GetD2DImage d2d (S fuel) this (Some dc) w with
    | Ret img w' =>
        img = EffectOutput r /\ length vs = length slots /\
        w' = set_node this cleared applied
    | Throw e w' =>
        ((length vs < length slots)%nat \/ FAILED (exn_hr e) = true) /\ w' = applied \/
        length vs = length slots /\ exn_hr e = As_ID2D1Image_hr d2d r /\
        w' = set_node this cleared applied
    | Fault | OutOfFuel => False
    end.
Proof.
  intros Hn Hid Hr Hp Hi slots.
  assert (Hprep : prepare d2d dc (allocated w) n =
                  prepare_properties d2d false r [] (allocated w) n).
  { unfold prepare. rewrite bool_decide_eq_false_2; [|by intros H; apply H].
    by rewrite Hr. }
  assert (Hpro : Prologue d2d this dc w =
    match properties_run d2d r slots 0 with
    | (cs, None) =>
        Ret false (set_node this (with_properties (SetChanged false (m_properties n)) n)
                     (add_calls cs w))
    | (cs, Some hr) => Throw (mkException hr None) (add_calls cs w)
    end).
  { erewrite Prologue_run by eauto. rewrite Hprep. unfold prepare_properties.
    rewrite Hp. simpl. fold slots.
    destruct (properties_run d2d r slots 0) as [cs [hr|]]; simpl; [|done].
    f_equal. apply World_eq; simpl; [by apply insert_id|done|done]. }
  simpl. rewrite GetD2DImage_body_Prologue. unfold bind at 1. rewrite Hpro.
  destruct (properties_run d2d r slots 0) as [cs e] eqn:Hrun.
  destruct (properties_run_shape _ _ _ _ _ Hrun) as (vs & -> & Hlen & Hslots & Hok & He).
  exists vs. split; [done|].
  destruct e as [hr|]; simpl.
  - left. split; [|done].
    destruct He as [(v & _ & _ & -> & Hf)|[[Hnull _]|(p & Hnull & _)]].
    + by right.
    + left. by eapply lookup_lt_Some.
    + left. by eapply lookup_lt_Some.
  - destruct He as [He _].
    set (n1 := with_properties (SetChanged false (m_properties n)) n).
    set (w1 := set_node this n1 _).
    assert (Hn1 : heap w1 !! this = Some n1) by apply heap_set_node_eq.
    assert (Hres : m_resource n1 = Some r) by done.
    assert (Hin : IsChanged (m_inputs n1) = false) by done.
    clearbody w1 n1.
    unfold ApplyInputs. rewrite bind_bind. erewrite bind_deref by eauto. rewrite Hin. simpl.
    rewrite bind_ret.
    erewrite ReturnImage_run by eauto.
    destruct (FAILED (As_ID2D1Image_hr d2d r)); [right|]; done.
Qed.

(** X8: an effect constructed with at least one property cannot be
    realized as it is: every property slot is empty, so the first
    realization throws [E_POINTER] right after it has created the resource
    (or the HRESULT of [CreateEffect], if that fails), and makes no
    SetValue, SetInputCount or SetInput call. *)
Theorem new_effect_with_properties_throws
    fuel this dc effectId propertiesSize inputSize isInputSizeFixed factory_hr w w0 :
  CanvasEffect_new this effectId propertiesSize inputSize isInputSizeFixed factory_hr w
    = Ret tt w0 ->
  (0 < to_unsigned_int propertiesSize)%nat ->
  let hr := dc_CreateEffect dc effectId in
  let r := mkEffect (allocated w) effectId (dc_identity dc) in
  exists w',
    GetD2DImage d2d (S fuel) this (Some dc) w0 =
      Throw (mkException (if FAILED hr then hr else E_POINTER) None) w' /\
    d2d_calls w' = d2d_calls w ++ (if FAILED hr then [] else [Call_CreateEffect r]) /\
    exists n', heap w' !! this = Some n' /\
      m_resource n' = (if FAILED hr then None else Some r) /\
      m_properties n' = Make_Vector propertiesSize true.
Proof.
  intros Hnew Hsize hr r.
  unfold CanvasEffect_new, ThrowIfFailed in Hnew.
  destruct (FAILED factory_hr); [done|]. rewrite bind_ret in Hnew.
  injection Hnew as <-.
  set (n := CanvasEffect_init effectId propertiesSize inputSize isInputSizeFixed).
  assert (Hn : heap (set_node this n w) !! this = Some n) by apply heap_set_node_eq.
  assert (Hvis : exists rest,
    visited (InternalVector (m_properties n)) = None :: rest).
  { unfold visited. simpl. rewrite length_replicate.
    pose proof (to_unsigned_int_le propertiesSize) as Hle.
    destruct (to_unsigned_int propertiesSize) as [|k]; [lia|].
    destruct propertiesSize as [|p]; [lia|]. simpl. eauto. }
  destruct Hvis as [rest Hvis].
  assert (Hprep : prepare d2d dc (allocated w) n =
    if FAILED hr
    then ([], allocated w,
          with_resource None (with_previousDeviceIdentity (Some (dc_identity dc)) n),
          inl hr)
    else ([Call_CreateEffect r], S (allocated w),
          with_resource (Some r)
            (with_resource None (with_previousDeviceIdentity (Some (dc_identity dc)) n)),
          inl E_POINTER)).
  { unfold prepare. simpl. fold hr. destruct (FAILED hr); [done|].
    unfold prepare_properties. simpl.
    change (replicate propertiesSize None) with (InternalVector (m_properties n)).
    by rewrite Hvis. }
  exists (prepared_world this (set_node this n w) (prepare d2d dc (allocated w) n)).
  split.
  { simpl. rewrite GetD2DImage_body_Prologue.
    erewrite bind_Throw; [done|].
    erewrite Prologue_run by eauto. simpl. rewrite Hprep. by destruct (FAILED hr). }
  split.
  { rewrite Hprep. by destruct (FAILED hr). }
  eexists. split; [apply prepared_world_lookup|].
  rewrite Hprep. by destruct (FAILED hr).
Qed.

(** ** The loop over the inputs *)

(** X9: a failure at an input slot is thrown on as it is.  When the loop
    over the inputs stands before the slot [i]: if the slot holds an effect
    and the realization of that effect throws, the realization of [this]
    throws the same exception, in the state the input left; if it holds
    another image whose [GetD2DImage] fails, or an object that fails the
    query for [ICanvasImageInternal], it throws that HRESULT and the state
    is the one reached before the slot. *)
Theorem input_failure_propagates fuel this dc i w wi n input :
  reaches_input d2d fuel this dc i w wi ->
  heap w !! this = Some n ->
  InternalVector (m_inputs n) !! i = Some (Some input) ->
  match input with
  | Input_Internal (Internal_CanvasEffect b) =>
      forall e w2,
        GetD2DImage d2d fuel b (Some dc) wi = Throw e w2 ->
        GetD2DImage d2d (S fuel) this (Some dc) w = Throw e w2
  | Input_Internal (Internal_Image hr image) =>
      FAILED hr = true ->
      GetD2DImage d2d (S fuel) this (Some dc) w = Throw (mkException hr None) wi
  | Input_Foreign hr =>
      FAILED hr = true ->
      GetD2DImage d2d (S fuel) this (Some dc) w =
        Throw (mkException hr
                 (if hr =? E_NOINTERFACE then Some (Format EffectWrongInputType i)
                  else None)) wi
  end.
Proof.
  intros Hreach Hn Hslot.
  apply reaches_input_resume in Hreach
    as (n0 & ni & r & Hn0 & Hni & Hnode & _ & _ & _ & Hi & Hrun).
  rewrite Hn in Hn0. injection Hn0 as <-.
  set (size := to_unsigned_int _) in *.
  destruct (size - i)%nat as [|k] eqn:Hk; [lia|].
  unfold bind at 1 in Hrun. rewrite SetInputs_from_S in Hrun. unfold bind at 1 in Hrun.
  erewrite SetInput_at_run in Hrun by eauto.
  rewrite (ev_inputs _ _ _ Hnode), Hslot in Hrun.
  destruct input as [[b|hr image]|hr]; cbn [As_ICanvasImageInternal fst snd] in Hrun.
  - intros e w2 Hb. change (S_OK =? E_NOINTERFACE) with false in Hrun.
    change (FAILED S_OK) with false in Hrun. cbv iota in Hrun.
    unfold input_GetD2DImage in Hrun. unfold bind at 1 in Hrun. by rewrite Hb in Hrun.
  - intros Hf. change (S_OK =? E_NOINTERFACE) with false in Hrun.
    change (FAILED S_OK) with false in Hrun. cbv iota in Hrun.
    unfold input_GetD2DImage in Hrun. unfold bind at 1 2 in Hrun.
    unfold ThrowIfFailed in Hrun. by rewrite Hf in Hrun.
  - intros Hf. rewrite Hf in Hrun. by destruct (hr =? E_NOINTERFACE).
Qed.

(** X10: what a returning realization that applies the inputs has bound.
    It has set the input count of the resource whose image it returns to
    the number of slots, and for every input slot it went through it has
    called SetInput on that resource: with the image itself, if the slot
    holds an image that is not an effect; and for a slot that holds an
    effect, with the image of the resource that effect holds when the
    realization returns, the effect being realized against the same device
    with both flags cleared.  No slot it went through is empty or holds an
    object that is not an image. *)
Theorem GetD2DImage_binds_inputs fuel this dc w n img w' :
  heap w !! this = Some n ->
  Some (dc_identity dc) <> m_previousDeviceIdentity n \/ IsChanged (m_inputs n) = true ->
  GetD2DImage d2d (S fuel) this (Some dc) w = Ret img w' ->
  exists r cs,
    img = EffectOutput r /\
    d2d_calls w' = d2d_calls w ++ cs /\
    Call_SetInputCount r (to_unsigned_int (length (InternalVector (m_inputs n)))) ∈ cs /\
    forall j slot, visited (InternalVector (m_inputs n)) !! j = Some slot ->
      input_bound d2d (dc_identity dc) r j slot w' cs.
Proof.
  intros Hn Hguard Hrun.
  destruct (GetD2DImage_Ret_applied _ _ _ _ _ _ _ Hn Hrun) as (r & cs & -> & Hcs & _ & H).
  exists r, cs. destruct (H Hguard) as [Hcount Hall]. by split_and!.
Qed.

Lemma Vector_SetAt_ok {T} index (x : T) v hr v' :
  Vector_SetAt index (Some x) v = (hr, v') -> FAILED hr = false ->
  IsChanged v' = true /\ InternalVector v' !! index = Some (Some x).
Proof.
  unfold Vector_SetAt.
  destruct (index <? length (InternalVector v))%nat eqn:Hlt.
  - intros [= <- <-] _. split; [done|]. simpl.
    apply Nat.ltb_lt in Hlt. by apply list_lookup_insert_eq.
  - destruct (negb (IsFixedSize v) && (index =? length (InternalVector v))%nat) eqn:Hext.
    + intros [= <- <-] _. split; [done|]. simpl.
      apply andb_true_iff in Hext as [_ Hext]. apply Nat.eqb_eq in Hext. subst index.
      by rewrite lookup_app_r, Nat.sub_diag.
    + by intros [= <- <-].
Qed.

(** X18: an input that has been set is the one bound.  After a call of
    [SetInput] that returned, a realization of the effect that returns has
    called SetInput on the resource whose image it returns, at the index
    given, with what the input given yields: the image itself, or, for an
    effect, the image of the resource that effect now holds.  [SetInput]
    itself makes no Direct2D call. *)
Theorem SetInput_round_trip fuel this dc index input w w1 n1 img w2 :
  SetInput this index (Some input) w = Ret tt w1 ->
  heap w1 !! this = Some n1 ->
  Z.of_nat (length (InternalVector (m_inputs n1))) < 2 ^ 32 ->
  GetD2DImage d2d (S fuel) this (Some dc) w1 = Ret img w2 ->
  d2d_calls w1 = d2d_calls w /\
  exists r cs,
    img = EffectOutput r /\
    d2d_calls w2 = d2d_calls w ++ cs /\
    input_bound d2d (dc_identity dc) r index (Some input) w2 cs.
Proof.
  intros Hset Hn1 Hlen Hrun.
  unfold SetInput, CheckInPointer in Hset. rewrite bind_ret in Hset.
  apply bind_inv_Ret in Hset as (n & w0 & [-> Hn]%deref_inv & Hset).
  destruct (Vector_SetAt index (Some input) (m_inputs n)) as [hr v] eqn:Hv.
  cbv beta iota in Hset. erewrite bind_modify in Hset by eauto.
  unfold ThrowIfFailed in Hset. destruct (FAILED hr) eqn:Hf; [done|].
  injection Hset as <-. split; [done|].
  apply Vector_SetAt_ok in Hv as [Hc Hslot]; [|done].
  rewrite heap_set_node_eq in Hn1. injection Hn1 as <-.
  assert (Hn1 : heap (set_node this (with_inputs v n) w) !! this = Some (with_inputs v n))
    by apply heap_set_node_eq.
  destruct (GetD2DImage_Ret_applied _ _ _ _ _ _ _ Hn1 Hrun) as (r & cs & -> & Hcs & _ & H).
  exists r, cs. split; [done|]. split; [done|].
  destruct H as [_ Hall]; [by right|]. apply Hall.
  by rewrite visited_small.
Qed.

(** X19: a property that has been written is the one applied.  After a
    write to the properties that answered [S_OK], a realization of the
    effect that returns has called SetValue on the resource whose image it
    returns, at the index written, with the value the property written
    marshals to.  The write itself makes no Direct2D call. *)
Theorem Properties_SetAt_round_trip fuel this dc index p w w1 n1 img w2 :
  Properties_SetAt this index (Some p) w = Ret S_OK w1 ->
  heap w1 !! this = Some n1 ->
  Z.of_nat (length (InternalVector (m_properties n1))) < 2 ^ 32 ->
  GetD2DImage d2d (S fuel) this (Some dc) w1 = Ret img w2 ->
  d2d_calls w1 = d2d_calls w /\
  exists r v cs,
    img = EffectOutput r /\
    d2d_calls w2 = d2d_calls w ++ cs /\
    marshal p = inr v /\
    Call_SetValue r index v ∈ cs.
Proof.
  intros Hset Hn1 Hlen Hrun.
  unfold Properties_SetAt in Hset.
  apply bind_inv_Ret in Hset as (n & w0 & [-> Hn]%deref_inv & Hset).
  destruct (Vector_SetAt index (Some p) (m_properties n)) as [hr v] eqn:Hv.
  cbv beta iota in Hset. erewrite bind_modify in Hset by eauto.
  injection Hset as -> <-. split; [done|].
  apply Vector_SetAt_ok in Hv as [Hc Hslot]; [|done].
  rewrite heap_set_node_eq in Hn1. injection Hn1 as <-.
  assert (Hn1 : heap (set_node this (with_properties v n) w) !! this
                = Some (with_properties v n)) by apply heap_set_node_eq.
  destruct (GetD2DImage_Ret_applied _ _ _ _ _ _ _ Hn1 Hrun) as (r & cs & -> & Hcs & H & _).
  destruct (H (or_intror Hc) index (Some p)) as (q & x & [= <-] & Hm & Hin).
  { by rewrite visited_small. }
  by exists r, x, cs.
Qed.

(** ** Properties of the state kept by every call *)

Lemma keeps_ret {A} P (a : A) : keeps P (ret a).
Proof. by intros w. Qed.

Lemma keeps_fault {A} P : keeps P (@fault A).
Proof. by intros w. Qed.

Lemma keeps_ThrowHR {A} P hr : keeps P (@ThrowHR A hr).
Proof. by intros w. Qed.

Lemma keeps_ThrowHR_message {A} P hr msg : keeps P (@ThrowHR_message A hr msg).
Proof. by intros w. Qed.

Lemma keeps_ThrowIfFailed P hr : keeps P (ThrowIfFailed hr).
Proof. intros w Hw. unfold ThrowIfFailed. by destruct (FAILED hr). Qed.

Lemma keeps_CheckInPointer {A} P (p : option A) : keeps P (CheckInPointer p).
Proof. intros w Hw. by destruct p. Qed.

Lemma keeps_bind {A B} P (m : M A) (k : A -> M B) :
  keeps P m -> (forall a, keeps P (k a)) -> keeps P (bind m k).
Proof.
  intros Hm Hk w Hw. unfold bind. specialize (Hm w Hw).
  destruct (m w) as [a w1|e w1| |]; try done. by apply Hk.
Qed.

Lemma keeps_deref P this : keeps P (deref this).
Proof. intros w Hw. unfold deref. by destruct (heap w !! this). Qed.

Lemma keeps_resource P this : keeps P (resource this).
Proof.
  apply keeps_bind; [apply keeps_deref|]. intros n.
  destruct (m_resource n); [apply keeps_ret | apply keeps_fault].
Qed.

Section Keeps.

Variable P : World -> Prop.
Hypothesis P_calls : forall c w this n r,
  heap w !! this = Some n -> m_resource n = Some r -> target c = Some r ->
  P w -> P (add_call c w).

(** A call on the resource the effect holds, and what follows it. *)
Lemma keeps_held_call {A} this (c : ID2D1Effect -> D2DCall) (k : M A) :
  (forall r, target (c r) = Some r) -> keeps P k ->
  keeps P (r <- resource this ;; record_call (c r) ;; k).
Proof.
  intros Hc Hk w Hw. unfold bind at 1.
  destruct (resource this w) as [r w1|e w1| |] eqn:Hres; try done.
  - apply resource_inv in Hres as (-> & n & Hn & Hr).
    rewrite bind_record_call. apply Hk. by eapply P_calls.
  - by apply resource_no_Throw in Hres.
Qed.

Lemma keeps_SetInput_at realize this dc i :
  (forall x, keeps P (realize x (Some dc))) ->
  keeps P (SetInput_at realize this dc i).
Proof.
  intros Hrealize. unfold SetInput_at, input_at.
  apply keeps_bind.
  { apply keeps_bind; [apply keeps_deref|]. intros n.
    destruct (_ !! _); [apply keeps_ret | apply keeps_fault]. }
  intros [input|]; [|apply keeps_ThrowHR].
  destruct (As_ICanvasImageInternal input) as [hr internalInput].
  apply keeps_bind.
  { destruct (hr =? E_NOINTERFACE);
      [apply keeps_ThrowHR_message | apply keeps_ThrowIfFailed]. }
  intros _. apply keeps_bind.
  { destruct internalInput as [[e|hr' image]|]; simpl.
    - apply Hrealize.
    - apply keeps_bind; [apply keeps_ThrowIfFailed|]. intros _. apply keeps_ret.
    - apply keeps_fault. }
  intros image w Hw.
  pose proof (keeps_held_call this (fun r => Call_SetInput r i image) (ret tt)
                (fun r => eq_refl) (keeps_ret P tt) w Hw) as Hk.
  unfold bind in *. destruct (resource this w) as [r w1|e w1| |]; try done.
Qed.

Lemma keeps_SetInputs_from realize this dc k i :
  (forall x, keeps P (realize x (Some dc))) ->
  keeps P (SetInputs_from realize this dc k i).
Proof.
  intros Hrealize. revert i. induction k as [|k IH]; intros i; simpl.
  - apply keeps_ret.
  - apply keeps_bind; [by apply keeps_SetInput_at|]. intros _. apply IH.
Qed.

Lemma keeps_ApplyInputs realize this dc wr :
  (forall x, keeps P (realize x (Some dc))) ->
  keeps P (modify this (fun n => with_inputs (SetChanged false (m_inputs n)) n)) ->
  keeps P (ApplyInputs realize this dc wr).
Proof.
  intros Hrealize Hmodify. unfold ApplyInputs.
  apply keeps_bind; [apply keeps_deref|]. intros n.
  destruct (_ || _); [|apply keeps_ret].
  unfold SetInputs.
  apply keeps_bind; [apply keeps_deref|]. intros n'.
  apply (keeps_held_call this (fun r => Call_SetInputCount r _)); [done|].
  apply keeps_bind; [by apply keeps_SetInputs_from|]. by intros _.
Qed.

Lemma keeps_ReturnImage this : keeps P (ReturnImage d2d this).
Proof.
  unfold ReturnImage. apply keeps_bind; [apply keeps_resource|]. intros r.
  apply keeps_bind; [apply keeps_ThrowIfFailed|]. intros _. apply keeps_ret.
Qed.

Lemma keeps_GetD2DImage fuel this deviceContext :
  (forall x, keeps P (modify x (fun n => with_inputs (SetChanged false (m_inputs n)) n))) ->
  (forall x dc, keeps P (Prologue d2d x dc)) ->
  keeps P (GetD2DImage d2d fuel this deviceContext).
Proof.
  intros Hmodify Hprologue.
  revert this deviceContext. induction fuel as [|fuel IH]; intros this deviceContext.
  { by intros w. }
  destruct deviceContext as [dc|]; [|by intros w].
  intros w Hw. simpl. rewrite GetD2DImage_body_Prologue.
  revert w Hw. apply keeps_bind; [apply Hprologue|]. intros wr.
  apply keeps_bind; [apply keeps_ApplyInputs; [intros; apply IH|apply Hmodify]|].
  intros _. apply keeps_ReturnImage.
Qed.

End Keeps.

(** ** The resources and the log of calls *)

Lemma World_owned_applies cs w :
  Forall applies cs -> World_owned w -> World_owned (add_calls cs w).
Proof.
  intros Hcs [H1 H2 H3 H4].
  assert (Hc : forall r, Call_CreateEffect r ∈ d2d_calls w ++ cs <->
                         Call_CreateEffect r ∈ d2d_calls w).
  { intros r. rewrite elem_of_app. split; [|auto]. intros [?|Hin]; [done|].
    rewrite Forall_forall in Hcs. by apply Hcs in Hin. }
  assert (Hr : forall r, Call_Release r ∈ d2d_calls w ++ cs <->
                         Call_Release r ∈ d2d_calls w).
  { intros r. rewrite elem_of_app. split; [|auto]. intros [?|Hin]; [done|].
    rewrite Forall_forall in Hcs. by apply Hcs in Hin. }
  split; simpl.
  - intros a n Hn r Hres. destruct (H1 a n Hn r Hres) as (? & ? & ? & ?).
    rewrite Hc, Hr. done.
  - exact H2.
  - intros r. rewrite Hc, Hr. apply H3.
  - intros r. rewrite Hc, Hr. apply H4.
Qed.

Lemma World_owned_set_node this n n' w :
  heap w !! this = Some n ->
  m_resource n' = m_resource n ->
  m_previousDeviceIdentity n' = m_previousDeviceIdentity n ->
  m_effectId n' = m_effectId n ->
  World_owned w -> World_owned (set_node this n' w).
Proof.
  intros Hn Hres Hid Heff [H1 H2 H3 H4].
  assert (Hlook : forall a na, heap (set_node this n' w) !! a = Some na ->
    exists na0, heap w !! a = Some na0 /\ m_resource na = m_resource na0 /\
      m_previousDeviceIdentity na = m_previousDeviceIdentity na0 /\
      m_effectId na = m_effectId na0).
  { intros a na Ha. destruct (decide (this = a)) as [<-|Hne].
    - rewrite heap_set_node_eq in Ha. injection Ha as <-. by exists n.
    - rewrite heap_set_node_ne in Ha by done. by exists na. }
  split.
  - intros a na Ha r Hr. apply Hlook in Ha as (na0 & Ha0 & E1 & E2 & E3).
    rewrite E1 in Hr. rewrite E2, E3. by apply (H1 a na0).
  - intros a b na nb ra rb Ha Hb Hra Hrb Heq.
    apply Hlook in Ha as (na0 & Ha0 & Ea & _).
    apply Hlook in Hb as (nb0 & Hb0 & Eb & _).
    rewrite Ea in Hra. rewrite Eb in Hrb. by eapply H2.
  - exact H3.
  - intros r Hc. destruct (H4 r Hc) as [?|(a & na & Ha & Hr)]; [by left|right].
    destruct (decide (this = a)) as [<-|Hne].
    + exists this, n'. rewrite heap_set_node_eq. split; [done|].
      rewrite Hn in Ha. injection Ha as <-. by rewrite Hres.
    + exists a, na. by rewrite heap_set_node_ne.
Qed.

Lemma World_owned_release this n n' w :
  heap w !! this = Some n -> m_resource n' = None ->
  World_owned w -> World_owned (set_node this n' (add_calls (released n) w)).
Proof.
  intros Hn Hres [H1 H2 H3 H4].
  assert (Hlook : forall a na,
    heap (set_node this n' (add_calls (released n) w)) !! a = Some na ->
    m_resource na = None \/ a <> this /\ heap w !! a = Some na).
  { intros a na Ha. destruct (decide (this = a)) as [<-|Hne].
    - rewrite heap_set_node_eq in Ha. injection Ha as <-. by left.
    - rewrite heap_set_node_ne in Ha by done. right. done. }
  assert (Hc : forall r, Call_CreateEffect r ∈ d2d_calls w ++ released n <->
                         Call_CreateEffect r ∈ d2d_calls w).
  { intros r. rewrite elem_of_app. split; [|auto]. intros [?|Hin]; [done|].
    unfold released in Hin. destruct (m_resource n); [|by apply elem_of_nil in Hin].
    by apply list_elem_of_singleton in Hin. }
  assert (Hr : forall r, Call_Release r ∈ d2d_calls w ++ released n <->
                         Call_Release r ∈ d2d_calls w \/ m_resource n = Some r).
  { intros r. rewrite elem_of_app. unfold released.
    destruct (m_resource n) as [r0|].
    - rewrite list_elem_of_singleton. split; (intros [?|Heq]; [by left|right]); congruence.
    - split; (intros [?|Heq]; [by left|]); [by apply elem_of_nil in Heq|done]. }
  split; simpl.
  - intros a na Ha r Hra. apply Hlook in Ha as [Hnone|[Hne Ha]]; [congruence|].
    destruct (H1 a na Ha r Hra) as (? & ? & ? & Hnot).
    rewrite Hc, Hr. split_and!; try done. intros [?|Hheld]; [done|].
    destruct Hne. by eapply (H2 a this na n r r).
  - intros a b na nb ra rb Ha Hb Hra Hrb Heq.
    apply Hlook in Ha as [Hnone|[_ Ha]]; [congruence|].
    apply Hlook in Hb as [Hnone|[_ Hb]]; [congruence|].
    by eapply H2.
  - intros r. rewrite Hc, Hr. intros [Hcr|[Hrel|Hheld]].
    + apply H3. by left.
    + apply H3. by right.
    + apply H3. left. by apply (H1 this n Hn r Hheld).
  - intros r. rewrite Hc, Hr. intros Hcr.
    destruct (H4 r Hcr) as [?|(a & na & Ha & Hra)]; [by left; left|].
    destruct (decide (this = a)) as [<-|Hne].
    + left. right. congruence.
    + right. exists a, na. by rewrite lookup_insert_ne.
Qed.

Lemma World_owned_create this n n' r w :
  heap w !! this = Some n -> m_resource n = None ->
  effect_instance r = allocated w ->
  m_resource n' = Some r ->
  m_previousDeviceIdentity n' = Some (effect_device r) ->
  effect_clsid r = m_effectId n' ->
  World_owned w ->
  World_owned (mkWorld (<[this := n']> (heap w)) (S (allocated w))
                 (d2d_calls w ++ [Call_CreateEffect r])).
Proof.
  intros Hn Hnone Hinst Hres Hid Heff [H1 H2 H3 H4].
  assert (Hfresh : (Call_CreateEffect r ∉ d2d_calls w) /\ (Call_Release r ∉ d2d_calls w)).
  { split; intros Hin.
    - assert (effect_instance r < allocated w)%nat by (apply H3; by left). lia.
    - assert (effect_instance r < allocated w)%nat by (apply H3; by right). lia. }
  destruct Hfresh as [Hf1 Hf2].
  assert (Hc : forall r', Call_CreateEffect r' ∈ d2d_calls w ++ [Call_CreateEffect r] <->
                          Call_CreateEffect r' ∈ d2d_calls w \/ r' = r).
  { intros r'. rewrite elem_of_app, list_elem_of_singleton.
    split; (intros [?|Heq]; [by left|right]); congruence. }
  assert (Hr : forall r', Call_Release r' ∈ d2d_calls w ++ [Call_CreateEffect r] <->
                          Call_Release r' ∈ d2d_calls w).
  { intros r'. rewrite elem_of_app, list_elem_of_singleton.
    split; [|auto]. by intros [?|?]. }
  assert (Hold : forall a na ra, heap w !! a = Some na -> m_resource na = Some ra ->
                   (effect_instance ra < allocated w)%nat).
  { intros a na ra Ha Hra. apply H3. left. by apply (H1 a na Ha ra Hra). }
  split; simpl.
  - intros a na Ha ra Hra. rewrite Hc, Hr.
    destruct (decide (this = a)) as [<-|Hne].
    + rewrite lookup_insert_eq in Ha. injection Ha as <-.
      rewrite Hres in Hra. injection Hra as <-. split_and!; auto.
    + rewrite lookup_insert_ne in Ha by done.
      destruct (H1 a na Ha ra Hra) as (? & ? & ? & ?). split_and!; auto.
  - intros a b na nb ra rb Ha Hb Hra Hrb Heq. simpl in Ha, Hb.
    destruct (decide (this = a)) as [<-|Hna]; destruct (decide (this = b)) as [<-|Hnb];
      try done.
    + rewrite lookup_insert_eq in Ha. injection Ha as <-.
      rewrite lookup_insert_ne in Hb by done.
      rewrite Hres in Hra. injection Hra as <-.
      pose proof (Hold _ _ _ Hb Hrb). lia.
    + rewrite lookup_insert_eq in Hb. injection Hb as <-.
      rewrite lookup_insert_ne in Ha by done.
      rewrite Hres in Hrb. injection Hrb as <-.
      pose proof (Hold _ _ _ Ha Hra). lia.
    + rewrite lookup_insert_ne in Ha, Hb by done. by eapply H2.
  - intros r'. rewrite Hc, Hr. intros [[Hin| ->]|Hin].
    + assert (effect_instance r' < allocated w)%nat by (apply H3; by left). lia.
    + lia.
    + assert (effect_instance r' < allocated w)%nat by (apply H3; by right). lia.
  - intros r'. rewrite Hc, Hr. intros [Hin| ->].
    + destruct (H4 r' Hin) as [?|(a & na & Ha & Hra)]; [by left|right].
      exists a, na. split; [|done]. rewrite lookup_insert_ne; [done|].
      intros <-. congruence.
    + right. exists this, n'. by rewrite lookup_insert_eq.
Qed.

Lemma World_owned_new this n w :
  heap w !! this = None -> m_resource n = None ->
  World_owned w -> World_owned (set_node this n w).
Proof.
  intros Hnone Hres [H1 H2 H3 H4].
  assert (Hlook : forall a na, heap (set_node this n w) !! a = Some na ->
    m_resource na = None \/ heap w !! a = Some na).
  { intros a na Ha. destruct (decide (this = a)) as [<-|Hne].
    - rewrite heap_set_node_eq in Ha. injection Ha as <-. by left.
    - rewrite heap_set_node_ne in Ha by done. by right. }
  split; simpl.
  - intros a na Ha r Hr. apply Hlook in Ha as [?|Ha]; [congruence|]. by apply (H1 a na).
  - intros a b na nb ra rb Ha Hb Hra Hrb Heq.
    apply Hlook in Ha as [?|Ha]; [congruence|].
    apply Hlook in Hb as [?|Hb]; [congruence|]. by eapply H2.
  - exact H3.
  - intros r Hc. destruct (H4 r Hc) as [?|(a & na & Ha & Hr)]; [by left|right].
    exists a, na. split; [|done]. rewrite lookup_insert_ne; [done|]. intros <-. congruence.
Qed.

Lemma target_applies c r : target c = Some r -> applies c.
Proof. by destruct c. Qed.

Lemma World_owned_held w this n r :
  World_owned w -> heap w !! this = Some n -> m_resource n = Some r ->
  Call_CreateEffect r ∈ d2d_calls w /\ Call_Release r ∉ d2d_calls w.
Proof.
  intros Hw Hn Hr. by destruct (owned_resources _ Hw this n Hn r Hr) as (_ & _ & ? & ?).
Qed.

(** Calls on a resource that an effect holds. *)
Lemma World_live_held_calls cs w this n r :
  heap w !! this = Some n -> m_resource n = Some r ->
  Forall (fun c => target c = Some r) cs ->
  World_live w -> World_live (add_calls cs w).
Proof.
  intros Hn Hr Hcs. revert w Hn. induction Hcs as [|c cs Hc Hcs IH]; intros w Hn Hw.
  { by rewrite add_calls_nil. }
  replace (add_calls (c :: cs) w) with (add_calls cs (add_calls [c] w))
    by (by rewrite add_calls_app).
  apply IH; [done|]. destruct Hw as [Hw Hlog]. split.
  - apply World_owned_applies; [|done]. apply Forall_singleton. by eapply target_applies.
  - simpl. apply protocol_call; [done|].
    destruct (World_owned_held _ _ _ _ Hw Hn Hr) as [Hcr Hrel].
    destruct c; simpl in Hc; try done; by injection Hc as ->.
Qed.

Lemma World_live_set_node this n n' w :
  heap w !! this = Some n ->
  m_resource n' = m_resource n ->
  m_previousDeviceIdentity n' = m_previousDeviceIdentity n ->
  m_effectId n' = m_effectId n ->
  World_live w -> World_live (set_node this n' w).
Proof.
  intros Hn H1 H2 H3 [Hw Hlog]. split; [|done]. by eapply World_owned_set_node.
Qed.

Lemma World_live_release this n n' w :
  heap w !! this = Some n -> m_resource n' = None ->
  World_live w -> World_live (set_node this n' (add_calls (released n) w)).
Proof.
  intros Hn Hres [Hw Hlog]. split; [by apply World_owned_release|].
  simpl. unfold released. destruct (m_resource n) as [r|] eqn:Hr.
  - apply protocol_call; [done|]. by eapply World_owned_held.
  - by rewrite app_nil_r.
Qed.

Lemma World_live_create this n n' r w :
  heap w !! this = Some n -> m_resource n = None ->
  effect_instance r = allocated w ->
  m_resource n' = Some r ->
  m_previousDeviceIdentity n' = Some (effect_device r) ->
  effect_clsid r = m_effectId n' ->
  World_live w ->
  World_live (mkWorld (<[this := n']> (heap w)) (S (allocated w))
                (d2d_calls w ++ [Call_CreateEffect r])).
Proof.
  intros Hn Hnone Hinst Hres Hid Heff [Hw Hlog]. split; [by eapply World_owned_create|].
  simpl. apply protocol_call; [done|]. intros r' Hin.
  assert (effect_instance r' < allocated w)%nat by (apply (owned_allocated _ Hw); by left).
  lia.
Qed.

Lemma World_live_new this n w :
  heap w !! this = None -> m_resource n = None ->
  World_live w -> World_live (set_node this n w).
Proof. intros Hnone Hres [Hw Hlog]. split; [by apply World_owned_new|done]. Qed.

Lemma properties_run_targets r slots k cs e :
  properties_run d2d r slots k = (cs, e) -> Forall (fun c => target c = Some r) cs.
Proof.
  intros Hrun. destruct (properties_run_shape _ _ _ _ _ Hrun) as (vs & -> & _).
  apply Forall_forall. intros c Hc. apply elem_of_lookup_imap in Hc as (i & v & -> & _).
  done.
Qed.

Lemma keeps_live_Prologue this dc : keeps World_live (Prologue d2d this dc).
Proof.
  intros w Hw. destruct (heap w !! this) as [n|] eqn:Hn.
  2:{ unfold Prologue, CheckDevice, bind, deref. by rewrite Hn. }
  unfold Prologue. unfold bind at 1. erewrite CheckDevice_run by eauto.
  set (id := dc_identity dc).
  assert (Hstage1 : exists wr w1 n1,
    (if bool_decide (Some id <> m_previousDeviceIdentity n)
     then Ret true
            (set_node this
               (with_resource None (with_previousDeviceIdentity (Some id) n))
               (add_calls (released n) w))
     else Ret false w) = Ret wr w1 /\
    World_live w1 /\ heap w1 !! this = Some n1 /\
    m_previousDeviceIdentity n1 = Some id /\ m_effectId n1 = m_effectId n).
  { destruct (bool_decide (Some id <> m_previousDeviceIdentity n)) eqn:Hid.
    - eexists _, _, _. split; [done|]. split_and!.
      + by apply World_live_release.
      + apply heap_set_node_eq.
      + done.
      + done.
    - apply bool_decide_eq_false_1 in Hid.
      exists false, w, n. split_and!; try done.
      destruct (decide (Some id = m_previousDeviceIdentity n)); [done|]. by destruct Hid. }
  destruct Hstage1 as (wr & w1 & n1 & -> & Hw1 & Hn1 & Hid1 & Heff1).
  unfold bind at 1. erewrite EnsureResource_run by eauto.
  assert (Hstage2 : match
      match m_resource n1 with
      | Some _ => Ret tt w1
      | None =>
          let hr := dc_CreateEffect dc (m_effectId n1) in
          let r := mkEffect (allocated w1) (m_effectId n1) (dc_identity dc) in
          if FAILED hr then Throw (mkException hr None) w1
          else Ret tt (mkWorld (<[this := with_resource (Some r) n1]> (heap w1))
                         (S (allocated w1)) (d2d_calls w1 ++ [Call_CreateEffect r]))
      end
    with
    | Ret _ w2 => World_live w2 /\ exists n2 r, heap w2 !! this = Some n2 /\
                    m_resource n2 = Some r
    | Throw _ w2 => World_live w2
    | _ => True
    end).
  { destruct (m_resource n1) as [r|] eqn:Hr1.
    - split; [done|]. by exists n1, r.
    - cbv zeta. destruct (FAILED _); [done|]. split.
      + by apply World_live_create with (n := n1).
      + eexists _, _. simpl. by rewrite lookup_insert_eq. }
  destruct (match m_resource n1 with Some _ => _ | None => _ end) as [[] w2|e w2| |];
    try done.
  destruct Hstage2 as (Hw2 & n2 & r & Hn2 & Hr2).
  unfold bind at 1. erewrite ApplyProperties_run by eauto.
  destruct (wr || IsChanged (m_properties n2)); [|done].
  destruct (properties_run d2d r (visited (InternalVector (m_properties n2))) 0)
    as [cs [hr|]] eqn:Hrun.
  - eapply World_live_held_calls; [done|done| |done]. by eapply properties_run_targets.
  - simpl. apply World_live_set_node with (n := n2); try done.
    eapply World_live_held_calls; [done|done| |done]. by eapply properties_run_targets.
Qed.

Lemma keeps_live_GetD2DImage fuel this deviceContext :
  keeps World_live (GetD2DImage d2d fuel this deviceContext).
Proof.
  apply keeps_GetD2DImage.
  - intros c w x n r Hn Hr Hc Hw. rewrite add_call_calls.
    eapply World_live_held_calls; [done|done| |done]. by apply Forall_singleton.
  - intros x w Hw. unfold modify. destruct (heap w !! x) as [n|] eqn:Hn; [|done].
    by apply World_live_set_node with (n := n).
  - apply keeps_live_Prologue.
Qed.

Lemma step_cases op w w' :
  step d2d op w = Some w' ->
  (exists fuel this deviceContext,
     op = Op_GetD2DImage fuel this deviceContext /\
     state_after (GetD2DImage d2d fuel this deviceContext w) = Some w') \/
  w' = w \/
  (exists this effectId propertiesSize inputSize isInputSizeFixed,
     heap w !! this = None /\
     w' = set_node this
            (CanvasEffect_init effectId propertiesSize inputSize isInputSizeFixed) w) \/
  (exists this n, op = Op_Close this /\ heap w !! this = Some n /\
     w' = set_node this (with_resource None n) (add_calls (released n) w)) \/
  (exists this n index x hr inputs,
     op = Op_SetInput this index (Some x) /\ heap w !! this = Some n /\
     Vector_SetAt index (Some x) (m_inputs n) = (hr, inputs) /\
     w' = set_node this (with_inputs inputs n) w) \/
  (exists this n index value hr properties,
     op = Op_Properties_SetAt this index value /\ heap w !! this = Some n /\
     Vector_SetAt index value (m_properties n) = (hr, properties) /\
     w' = set_node this (with_properties properties n) w).
Proof.
  intros Hstep. destruct op; cbn [step] in Hstep.
  - destruct (heap w !! this) eqn:Hnone; [done|].
    unfold CanvasEffect_new, ThrowIfFailed in Hstep.
    destruct (FAILED factory_hr); simpl in Hstep; injection Hstep as <-; [by auto|].
    right. right. left. by eexists _, _, _, _, _.
  - left. by eexists _, _, _.
  - right. right. right. left.
    unfold Close, bind in Hstep. destruct (heap w !! this) as [n|] eqn:Hn.
    + erewrite Reset_resource_run in Hstep by eauto. injection Hstep as <-.
      by exists this, n.
    + unfold Reset_resource, bind, deref in Hstep. by rewrite Hn in Hstep.
  - unfold SetInput in Hstep. destruct input as [x|]; unfold CheckInPointer in Hstep.
    2:{ simpl in Hstep. injection Hstep as <-. by auto. }
    rewrite bind_ret in Hstep. destruct (heap w !! this) as [n|] eqn:Hn.
    2:{ unfold bind, deref in Hstep. by rewrite Hn in Hstep. }
    erewrite bind_deref in Hstep by eauto.
    destruct (Vector_SetAt index (Some x) (m_inputs n)) as [hr inputs] eqn:Hset.
    cbv beta iota in Hstep. erewrite bind_modify in Hstep by eauto.
    do 4 right. left. exists this, n, index, x, hr, inputs. split_and!; try done.
    unfold ThrowIfFailed in Hstep.
    destruct (FAILED hr); simpl in Hstep; by injection Hstep as <-.
  - unfold Properties_SetAt in Hstep. destruct (heap w !! this) as [n|] eqn:Hn.
    2:{ unfold bind, deref in Hstep. by rewrite Hn in Hstep. }
    erewrite bind_deref in Hstep by eauto.
    destruct (Vector_SetAt index value (m_properties n)) as [hr properties] eqn:Hset.
    cbv beta iota in Hstep. erewrite bind_modify in Hstep by eauto.
    simpl in Hstep. injection Hstep as <-.
    do 5 right. by exists this, n, index, value, hr, properties.
Qed.

Lemma step_live op w w' : step d2d op w = Some w' -> World_live w -> World_live w'.
Proof.
  intros Hstep Hw.
  apply step_cases in Hstep
    as [(fuel & this & dco & _ & Hrun)|[->|[(this & e & p & i & f & Hnone & ->)|
        [(this & n & _ & Hn & ->)|[(this & n & index & x & hr & inputs & _ & Hn & _ & ->)|
        (this & n & index & value & hr & properties & _ & Hn & _ & ->)]]]]].
  - pose proof (keeps_live_GetD2DImage fuel this dco w Hw) as Hk.
    destruct (GetD2DImage d2d fuel this dco w); simpl in Hrun; try done;
      by injection Hrun as <-.
  - done.
  - by apply World_live_new.
  - by apply World_live_release.
  - by apply World_live_set_node with (n := n).
  - by apply World_live_set_node with (n := n).
Qed.

Lemma run_live ops w w' : run d2d ops w = Some w' -> World_live w -> World_live w'.
Proof.
  revert w. induction ops as [|op ops IH]; intros w Hrun Hw; simpl in Hrun.
  - by injection Hrun as <-.
  - destruct (step d2d op w) as [w1|] eqn:Hstep; [|done].
    eapply IH; [done|]. by eapply step_live.
Qed.

Lemma initial_live : World_live initial.
Proof.
  split; [|apply protocol_nil]. split; simpl.
  - intros a n Ha. simpl in Ha. by rewrite lookup_empty in Ha.
  - intros a b na nb ra rb Ha. simpl in Ha. by rewrite lookup_empty in Ha.
  - intros r [H|H]; by apply elem_of_nil in H.
  - intros r H. by apply elem_of_nil in H.
Qed.

(** X13: in every state a program can reach, the resource an effect holds
    was created for the effect's id on the device whose identity the effect
    has stored, and has not been released; no two effects hold the same
    resource; and every resource that was created is either released or
    still held by an effect. *)
Theorem reachable_owned w : reachable d2d w -> World_owned w.
Proof. intros [ops Hrun]. eapply run_live; [done|]. apply initial_live. Qed.

(** X20: the Direct2D calls of a program, in the order they were made,
    follow the life of the resources.  A call of SetValue, SetInputCount or
    SetInput is made on a resource that has been created and not released
    before; a resource is released once, after it was created; and no
    instance is created twice. *)
Theorem reachable_protocol w : reachable d2d w -> protocol (d2d_calls w).
Proof. intros [ops Hrun]. eapply run_live; [done|]. apply initial_live. Qed.

Lemma node_evolves_settled id n n' :
  node_evolves id n n' -> properties_settled n -> properties_settled n'.
Proof.
  intros Hnode Hs Hc. unfold properties_settled in Hs.
  rewrite (ev_properties _ _ _ Hnode).
  destruct (IsChanged (m_properties n)) eqn:Hflag; [|by apply Hs].
  left. destruct (Forall_marshals_dec (visited (InternalVector (m_properties n))))
    as [Hall|Hnot]; [done|].
  apply (ev_properties_kept _ _ _ Hnode) in Hnot. congruence.
Qed.

Lemma Vector_SetAt_cases {T} index (item : option T) v hr v' :
  Vector_SetAt index item v = (hr, v') -> v' = v \/ IsChanged v' = true.
Proof.
  unfold Vector_SetAt. destruct item as [x|]; [|intros [= <- <-]; by left].
  destruct (index <? length (InternalVector v))%nat; [intros [= <- <-]; by right|].
  destruct (negb (IsFixedSize v) && (index =? length (InternalVector v))%nat);
    intros [= <- <-]; [by right | by left].
Qed.

Lemma GetD2DImage_evolves fuel this deviceContext w w' :
  state_after (GetD2DImage d2d fuel this deviceContext w) = Some w' ->
  exists id, World_evolves id w w'.
Proof.
  intros Hrun. destruct deviceContext as [dc|].
  - exists (dc_identity dc).
    assert (Hf : frames (dc_identity dc) (GetD2DImage d2d fuel this (Some dc)))
      by apply frames_GetD2DImage.
    specialize (Hf w).
    destruct (GetD2DImage d2d fuel this (Some dc) w); simpl in Hrun; try done;
      by injection Hrun as <-.
  - exists 0%nat. destruct fuel as [|fuel]; [done|]. simpl in Hrun.
    injection Hrun as <-. apply World_evolves_refl.
Qed.

Lemma step_flags op w w' :
  step d2d op w = Some w' ->
  (forall a n, heap w !! a = Some n -> inputs_tracked n /\ properties_settled n) ->
  forall a n, heap w' !! a = Some n -> inputs_tracked n /\ properties_settled n.
Proof.
  intros Hstep Hw.
  apply step_cases in Hstep
    as [(fuel & this & dco & _ & Hrun)|[->|[(this & e & p & i & f & Hnone & ->)|
        [(this & n & _ & Hn & ->)|[(this & n & index & x & hr & inputs & _ & Hn & Hset & ->)|
        (this & n & index & value & hr & properties & _ & Hn & Hset & ->)]]]]].
  - apply GetD2DImage_evolves in Hrun as [id Hev]. intros a n' Hn'.
    destruct (evolves_lookup_back _ _ _ _ _ Hev Hn') as (n & Hn & Hnode).
    destruct (Hw a n Hn) as [Hi Hp]. split.
    + by apply (node_evolves_tracked _ _ _ Hnode).
    + by eapply node_evolves_settled.
  - done.
  - intros a n Ha. destruct (decide (this = a)) as [<-|Hne].
    + rewrite heap_set_node_eq in Ha. injection Ha as <-. split.
      * apply CanvasEffect_init_tracked.
      * intros _. right. simpl. by apply Forall_replicate.
    + rewrite heap_set_node_ne in Ha by done. by apply (Hw a).
  - intros a n' Ha. destruct (decide (this = a)) as [<-|Hne].
    + rewrite heap_set_node_eq in Ha. injection Ha as <-.
      destruct (Hw this n Hn) as [Hi Hp]. split; [exact Hi | exact Hp].
    + rewrite heap_set_node_ne in Ha by done. by apply (Hw a).
  - intros a n' Ha. destruct (decide (this = a)) as [<-|Hne].
    + rewrite heap_set_node_eq in Ha. injection Ha as <-.
      destruct (Hw this n Hn) as [Hi Hp]. split; [|done].
      apply Vector_SetAt_cases in Hset as [->|Hc]; [done|].
      intros Hc'. simpl in Hc'. congruence.
    + rewrite heap_set_node_ne in Ha by done. by apply (Hw a).
  - intros a n' Ha. destruct (decide (this = a)) as [<-|Hne].
    + rewrite heap_set_node_eq in Ha. injection Ha as <-.
      destruct (Hw this n Hn) as [Hi Hp]. split; [done|].
      apply Vector_SetAt_cases in Hset as [->|Hc]; [done|].
      intros Hc'. simpl in Hc'. congruence.
    + rewrite heap_set_node_ne in Ha by done. by apply (Hw a).
Qed.

(** X14: in every state a program can reach, the changed flags are in step
    with the contents.  An inputs sequence whose flag is cleared has no
    empty slot among those the loop goes through, and a properties sequence
    whose flag is cleared either marshals in every such slot or has never
    been written. *)
Theorem reachable_flags w a n :
  reachable d2d w -> heap w !! a = Some n ->
  inputs_tracked n /\ properties_settled n.
Proof.
  intros [ops Hrun]. revert a n.
  assert (Hinit : forall a n, heap initial !! a = Some n ->
                    inputs_tracked n /\ properties_settled n).
  { intros a n Ha. simpl in Ha. by rewrite lookup_empty in Ha. }
  revert Hrun Hinit. generalize initial. revert w.
  induction ops as [|op ops IH]; intros w w0 Hrun Hw0; simpl in Hrun.
  - by injection Hrun as <-.
  - destruct (step d2d op w0) as [w1|] eqn:Hstep; [|done].
    eapply IH; [done|]. by eapply step_flags.
Qed.

Lemma step_effectId op w w' a n :
  step d2d op w = Some w' -> heap w !! a = Some n ->
  exists n', heap w' !! a = Some n' /\ m_effectId n' = m_effectId n.
Proof.
  intros Hstep Ha.
  apply step_cases in Hstep
    as [(fuel & this & dco & _ & Hrun)|[->|[(this & e & p & i & f & Hnone & ->)|
        [(this & n0 & _ & Hn & ->)|[(this & n0 & index & x & hr & inputs & _ & Hn & Hset & ->)|
        (this & n0 & index & value & hr & properties & _ & Hn & Hset & ->)]]]]].
  - apply GetD2DImage_evolves in Hrun as [id Hev].
    destruct (evolves_lookup _ _ _ _ _ Hev Ha) as (n' & Hn' & Hnode).
    exists n'. split; [done|]. apply (ev_effectId _ _ _ Hnode).
  - by exists n.
  - exists n. split; [|done]. rewrite heap_set_node_ne; [done|]. intros <-. congruence.
  - destruct (decide (this = a)) as [<-|Hne].
    + rewrite heap_set_node_eq. eexists. split; [done|]. simpl. congruence.
    + rewrite heap_set_node_ne by done. by exists n.
  - destruct (decide (this = a)) as [<-|Hne].
    + rewrite heap_set_node_eq. eexists. split; [done|]. simpl. congruence.
    + rewrite heap_set_node_ne by done. by exists n.
  - destruct (decide (this = a)) as [<-|Hne].
    + rewrite heap_set_node_eq. eexists. split; [done|]. simpl. congruence.
    + rewrite heap_set_node_ne by done. by exists n.
Qed.

(** X16: [get_EffectId], given a place to write to, reports the id the
    effect was constructed with, whatever has been done to this or any other
    effect since, and changes nothing. *)
Theorem get_EffectId_stable ops this effectId propertiesSize inputSize isInputSizeFixed
    factory_hr w0 w w' :
  CanvasEffect_new this effectId propertiesSize inputSize isInputSizeFixed factory_hr w0
    = Ret tt w ->
  run d2d ops w = Some w' ->
  get_EffectId this (Some tt) w' = Ret (S_OK, effectId) w'.
Proof.
  intros Hnew Hrun.
  assert (Hn : exists n, heap w !! this = Some n /\ m_effectId n = effectId).
  { unfold CanvasEffect_new, ThrowIfFailed in Hnew.
    destruct (FAILED factory_hr); [done|]. rewrite bind_ret in Hnew.
    injection Hnew as <-. eexists. by rewrite heap_set_node_eq. }
  destruct Hn as (n & Hn & <-).
  assert (Hn' : exists n', heap w' !! this = Some n' /\ m_effectId n' = m_effectId n).
  { clear Hnew. revert w n Hn Hrun. induction ops as [|op ops IH]; intros w n Hn Hrun;
      simpl in Hrun.
    - injection Hrun as <-. by exists n.
    - destruct (step d2d op w) as [w1|] eqn:Hstep; [|done].
      destruct (step_effectId _ _ _ _ _ Hstep Hn) as (n1 & Hn1 & <-).
      by eapply IH. }
  destruct Hn' as (n' & Hn' & <-).
  unfold get_EffectId. simpl. rewrite bind_ret. by erewrite bind_deref by eauto.
Qed.

(** X15: the image a realization returns, in a state a program can reach,
    is the output of a resource created for the id of the effect on the
    device of the context given, which has not been released, and which no
    other effect holds. *)
Theorem GetD2DImage_returns_live_resource fuel this dc w img w' :
  reachable d2d w ->
  GetD2DImage d2d fuel this (Some dc) w = Ret img w' ->
  exists n r,
    heap w !! this = Some n /\
    img = EffectOutput r /\
    effect_device r = dc_identity dc /\
    effect_clsid r = m_effectId n /\
    Call_CreateEffect r ∈ d2d_calls w' /\
    (Call_Release r ∉ d2d_calls w') /\
    forall b nb, heap w' !! b = Some nb -> m_resource nb = Some r -> b = this.
Proof.
  intros Hreach Hrun.
  assert (Hw : World_live w).
  { destruct Hreach as [ops Hops]. eapply run_live; [done|]. apply initial_live. }
  pose proof (keeps_live_GetD2DImage fuel this (Some dc) w Hw) as Hw'.
  rewrite Hrun in Hw'. destruct Hw' as [Hw' _].
  assert (Hf : frames (dc_identity dc) (GetD2DImage d2d fuel this (Some dc)))
    by apply frames_GetD2DImage.
  specialize (Hf w). rewrite Hrun in Hf.
  apply GetD2DImage_Ret_clean in Hrun as (n' & r & Hn' & (Hid & Hr & _) & ->).
  destruct (evolves_lookup_back _ _ _ _ _ Hf Hn') as (n & Hn & Hnode).
  destruct (owned_resources _ Hw' this n' Hn' r Hr) as (Hdev & Hcls & Hc & Hrel).
  exists n, r. split_and!; try done.
  - congruence.
  - rewrite Hcls. apply (ev_effectId _ _ _ Hnode).
  - intros b nb Hb Hrb. by eapply (owned_exclusive _ Hw' b this nb n' r r).
Qed.

(** ** What a realization has memoized *)

Lemma step_spared id r this op w w' n :
  step d2d op w = Some w' -> spares id this op = true ->
  heap w !! this = Some n -> clean d2d id r n ->
  exists n', heap w' !! this = Some n' /\ clean d2d id r n'.
Proof.
  intros Hstep Hspares Hn Hclean.
  apply step_cases in Hstep
    as [(fuel & x & dco & -> & Hrun)|[->|[(x & e & p & i & f & Hnone & ->)|
        [(x & nx & -> & Hnx & ->)|[(x & nx & index & y & hr & inputs & -> & Hnx & _ & ->)|
        (x & nx & index & value & hr & properties & -> & Hnx & _ & ->)]]]]].
  - destruct dco as [dcx|].
    + simpl in Hspares. apply bool_decide_eq_true_1 in Hspares.
      assert (Hf : frames (dc_identity dcx) (GetD2DImage d2d fuel x (Some dcx)))
        by apply frames_GetD2DImage.
      specialize (Hf w). rewrite Hspares in Hf.
      assert (Hev : World_evolves id w w').
      { destruct (GetD2DImage d2d fuel x (Some dcx) w); simpl in Hrun; try done;
          by injection Hrun as <-. }
      destruct (evolves_lookup _ _ _ _ _ Hev Hn) as (n' & Hn' & Hnode).
      exists n'. split; [done|]. by eapply clean_evolves.
    + destruct fuel as [|fuel]; [done|]. simpl in Hrun. injection Hrun as <-.
      by exists n.
  - by exists n.
  - exists n. split; [|done]. rewrite heap_set_node_ne; [done|]. intros <-. congruence.
  - simpl in Hspares. apply bool_decide_eq_true_1 in Hspares.
    exists n. split; [|done]. by rewrite heap_set_node_ne.
  - simpl in Hspares. apply bool_decide_eq_true_1 in Hspares.
    exists n. split; [|done]. by rewrite heap_set_node_ne.
  - simpl in Hspares. apply bool_decide_eq_true_1 in Hspares.
    exists n. split; [|done]. by rewrite heap_set_node_ne.
Qed.

(** X3: what an effect has memoized survives whatever is done to other
    effects.  Once [this] has been realized, a program that does not write
    to [this] itself (it may construct, close and write to other effects,
    the inputs of [this] among them, and realize any effect against the
    same device) leaves it so that a further realization of [this] against
    that device returns the same image and makes no Direct2D call: what
    has changed in its inputs since is not applied. *)
Theorem GetD2DImage_memoized fuel0 fuel this dc dc' ops w0 img w1 w2 :
  GetD2DImage d2d fuel0 this (Some dc) w0 = Ret img w1 ->
  forallb (spares (dc_identity dc) this) ops = true ->
  run d2d ops w1 = Some w2 ->
  dc_identity dc' = dc_identity dc ->
  GetD2DImage d2d (S fuel) this (Some dc') w2 = Ret img w2.
Proof.
  intros Hrun Hspares Hops Hdc.
  apply GetD2DImage_Ret_clean in Hrun as (n & r & Hn & Hclean & ->).
  assert (Hn2 : exists n2, heap w2 !! this = Some n2 /\ clean d2d (dc_identity dc) r n2).
  { clear w0. revert w1 n Hn Hclean Hops.
    induction ops as [|op ops IH]; intros w1 n Hn Hclean Hops; simpl in Hops.
    - injection Hops as <-. by exists n.
    - simpl in Hspares. apply andb_true_iff in Hspares as [Hop Hrest].
      destruct (step d2d op w1) as [w|] eqn:Hstep; [|done].
      destruct (step_spared _ _ _ _ _ _ _ Hstep Hop Hn Hclean) as (n' & Hn' & Hclean').
      by eapply IH. }
  destruct Hn2 as (n2 & Hn2 & Hclean2).
  eapply GetD2DImage_clean; [done|]. by rewrite Hdc.
Qed.

(** ** The footprint of a realization *)

Lemma forallb_ext_eq {T} (f g : T -> bool) l :
  (forall x, f x = g x) -> forallb f l = forallb g l.
Proof. intros Hext. induction l as [|x l IH]; [done|]. simpl. by rewrite Hext, IH. Qed.

Lemma closed_under_inputs_evolves id w w' G :
  World_evolves id w w' -> closed_under_inputs w' G = closed_under_inputs w G.
Proof.
  intros Hev. unfold closed_under_inputs. apply forallb_ext_eq. intros a.
  destruct (ev_heap _ _ _ Hev a) as [n n' Hnode|]; [|done].
  by rewrite (ev_inputs _ _ _ Hnode).
Qed.

Lemma closed_under_inputs_lookup w G a n i e :
  closed_under_inputs w G = true -> a ∈ G -> heap w !! a = Some n ->
  InternalVector (m_inputs n) !! i = Some (Some (Input_Internal (Internal_CanvasEffect e))) ->
  e ∈ G.
Proof.
  intros Hclosed Ha Hn Hslot. unfold closed_under_inputs in Hclosed.
  rewrite forallb_forall in Hclosed. apply list_elem_of_In, Hclosed in Ha.
  rewrite Hn in Ha. rewrite forallb_forall in Ha.
  apply list_elem_of_lookup_2, list_elem_of_In, Ha in Hslot.
  by apply bool_decide_eq_true_1 in Hslot.
Qed.

Section Local.

Variable G : list EffectRef.
Variable fuel : nat.
Variable dc : ID2D1DeviceContext.
Hypothesis inputs_local : forall x w,
  closed_under_inputs w G = true -> x ∈ G ->
  match GetD2DImage d2d fuel x (Some dc) w with
  | Ret _ w' | Throw _ w' => forall b, b ∉ G -> heap w' !! b = heap w !! b
  | Fault | OutOfFuel => True
  end.

Lemma SetInput_at_local this i w :
  closed_under_inputs w G = true -> this ∈ G ->
  match SetInput_at (GetD2DImage d2d fuel) this dc i w with
  | Ret _ w' | Throw _ w' => forall b, b ∉ G -> heap w' !! b = heap w !! b
  | Fault | OutOfFuel => True
  end.
Proof.
  intros Hclosed Hthis. destruct (heap w !! this) as [n|] eqn:Hn.
  2:{ unfold SetInput_at, input_at, bind, deref. by rewrite Hn. }
  erewrite SetInput_at_run by eauto.
  destruct (InternalVector (m_inputs n) !! i) as [[input|]|] eqn:Hslot; try done.
  destruct input as [[e|hr image]|hr]; cbn [As_ICanvasImageInternal fst snd].
  - change (S_OK =? E_NOINTERFACE) with false. change (FAILED S_OK) with false.
    cbv iota. unfold input_GetD2DImage. unfold bind at 1.
    assert (He : e ∈ G) by by eapply closed_under_inputs_lookup.
    pose proof (inputs_local e w Hclosed He) as Hlocal.
    destruct (GetD2DImage d2d fuel e (Some dc) w) as [image w1|ex w1| |]; try done.
    unfold bind. destruct (resource this w1) as [r w2|ex w2| |] eqn:Hres; try done.
    + by apply resource_inv in Hres as (-> & _).
    + by apply resource_no_Throw in Hres.
  - change (S_OK =? E_NOINTERFACE) with false. change (FAILED S_OK) with false.
    cbv iota. unfold input_GetD2DImage. unfold bind at 1 2. unfold ThrowIfFailed.
    destruct (FAILED hr); [done|]. simpl.
    unfold bind. destruct (resource this w) as [r w2|ex w2| |] eqn:Hres; try done.
    + by apply resource_inv in Hres as (-> & _).
    + by apply resource_no_Throw in Hres.
  - destruct (hr =? E_NOINTERFACE); [done|]. by destruct (FAILED hr).
Qed.

Lemma SetInputs_from_local this k i w :
  closed_under_inputs w G = true -> this ∈ G ->
  match SetInputs_from (GetD2DImage d2d fuel) this dc k i w with
  | Ret _ w' | Throw _ w' => forall b, b ∉ G -> heap w' !! b = heap w !! b
  | Fault | OutOfFuel => True
  end.
Proof.
  revert i w. induction k as [|k IH]; intros i w Hclosed Hthis; [done|].
  rewrite SetInputs_from_S. unfold bind.
  pose proof (SetInput_at_local this i w Hclosed Hthis) as Hat.
  assert (Hf : frames (dc_identity dc) (SetInput_at (GetD2DImage d2d fuel) this dc i)).
  { apply frames_SetInput_at. intros. apply frames_GetD2DImage. }
  specialize (Hf w).
  destruct (SetInput_at (GetD2DImage d2d fuel) this dc i w) as [[] w1|e w1| |]; try done.
  assert (Hclosed1 : closed_under_inputs w1 G = true).
  { by rewrite (closed_under_inputs_evolves _ _ _ _ Hf). }
  specialize (IH (S i) w1 Hclosed1 Hthis).
  destruct (SetInputs_from (GetD2DImage d2d fuel) this dc k (S i) w1)
    as [[] w2|e w2| |]; try done.
  - intros b Hb. by rewrite IH, Hat.
  - intros b Hb. by rewrite IH, Hat.
Qed.

End Local.

(** X17: a realization stays within the graph of the inputs.  When [G] is
    a set of effects that contains [this] and every effect that is an input
    of one of its members, the realization of [this], whether it returns or
    throws, leaves every effect outside [G] exactly as it was. *)
Theorem GetD2DImage_local G fuel this deviceContext w :
  closed_under_inputs w G = true -> this ∈ G ->
  match GetD2DImage d2d fuel this deviceContext w with
  | Ret _ w' | Throw _ w' => forall b, b ∉ G -> heap w' !! b = heap w !! b
  | Fault | OutOfFuel => True
  end.
Proof.
  revert this deviceContext w.
  induction fuel as [|fuel IH]; intros this deviceContext w Hclosed Hthis; [done|].
  destruct deviceContext as [dc|]; [|done].
  simpl. rewrite GetD2DImage_body_Prologue. unfold bind at 1.
  assert (Hf : frames (dc_identity dc) (Prologue d2d this dc)) by apply frames_Prologue.
  specialize (Hf w).
  destruct (Prologue d2d this dc w) as [wr w1|e w1| |] eqn:Hpro; try done.
  2:{ intros b Hb. destruct (heap w !! this) as [n|] eqn:Hn.
      - erewrite Prologue_run in Hpro by eauto. cbv zeta in Hpro.
        destruct (prepare d2d dc (allocated w) n).2; [|done]. injection Hpro as _ <-.
        simpl. rewrite lookup_insert_ne; [done|]. by intros <-.
      - unfold Prologue, CheckDevice, bind, deref in Hpro. by rewrite Hn in Hpro. }
  assert (Hclosed1 : closed_under_inputs w1 G = true).
  { by rewrite (closed_under_inputs_evolves _ _ _ _ Hf). }
  assert (Hw1 : forall b, b ∉ G -> heap w1 !! b = heap w !! b).
  { intros b Hb. apply Prologue_inv_Ret in Hpro as (n & Hn & _ & ->).
    simpl. rewrite lookup_insert_ne; [done|]. by intros <-. }
  unfold ApplyInputs. rewrite bind_bind.
  destruct (heap w1 !! this) as [n1|] eqn:Hn1.
  2:{ unfold bind, deref. by rewrite Hn1. }
  erewrite bind_deref by eauto.
  destruct (wr || IsChanged (m_inputs n1)).
  2:{ rewrite bind_ret. unfold ReturnImage, bind.
      destruct (resource this w1) as [r w2|ex w2| |] eqn:Hres; try done.
      - apply resource_inv in Hres as (-> & _).
        unfold ThrowIfFailed. by destruct (FAILED (As_ID2D1Image_hr d2d r)).
      - by apply resource_no_Throw in Hres. }
  unfold bind at 1. unfold SetInputs. erewrite bind_deref by eauto. unfold bind at 1.
  destruct (resource this w1) as [r w2|ex w2| |] eqn:Hres; try done.
  2:{ by apply resource_no_Throw in Hres. }
  apply resource_inv in Hres as (-> & _).
  rewrite bind_record_call. unfold bind at 1.
  set (size := to_unsigned_int (length (InternalVector (m_inputs n1)))).
  set (w2 := add_call (Call_SetInputCount r size) w1).
  assert (Hloop : match SetInputs_from (GetD2DImage d2d fuel) this dc size 0 w2 with
                  | Ret _ w' | Throw _ w' => forall b, b ∉ G -> heap w' !! b = heap w2 !! b
                  | Fault | OutOfFuel => True
                  end).
  { apply SetInputs_from_local; [|done|done]. intros x w0. apply IH. }
  destruct (SetInputs_from (GetD2DImage d2d fuel) this dc size 0 w2)
    as [[] w3|e w3| |]; try done.
  2:{ intros b Hb. by rewrite Hloop, <- Hw1. }
  unfold modify. destruct (heap w3 !! this) as [n3|] eqn:Hn3; [|done].
  unfold ReturnImage, bind.
  destruct (resource this (set_node this _ w3)) as [r' w4|ex w4| |] eqn:Hres; try done.
  - apply resource_inv in Hres as (-> & _).
    assert (Hout : forall b, b ∉ G ->
              heap (set_node this (with_inputs (SetChanged false (m_inputs n3)) n3) w3) !! b
              = heap w !! b).
    { intros b Hb. rewrite heap_set_node_ne by (by intros <-).
      by rewrite Hloop, <- Hw1. }
    unfold ThrowIfFailed. by destruct (FAILED (As_ID2D1Image_hr d2d r')).
  - by apply resource_no_Throw in Hres.
Qed.

(** ** Termination *)

Lemma bind_extends {A B} (m : M A) (k k' : A -> M B) w :
  (forall a w', m w = Ret a w' -> k' a w' = k a w') -> bind m k' w = bind m k w.
Proof. intros Hk. unfold bind. destruct (m w); auto. Qed.

Lemma bind_finishes {A B} (m : M A) (k : A -> M B) w :
  bind m k w <> OutOfFuel ->
  m w <> OutOfFuel /\ forall a w', m w = Ret a w' -> k a w' <> OutOfFuel.
Proof.
  unfold bind. destruct (m w) as [a w1|e w1| |]; intros H; split; try done.
  by intros ? ? [= <- <-].
Qed.

Section Extends.

Variable realize realize' : EffectRef -> option ID2D1DeviceContext -> M ID2D1Image.
Hypothesis extends : forall x deviceContext w,
  realize x deviceContext w <> OutOfFuel ->
  realize' x deviceContext w = realize x deviceContext w.

Lemma SetInput_at_extends this dc i w :
  SetInput_at realize this dc i w <> OutOfFuel ->
  SetInput_at realize' this dc i w = SetInput_at realize this dc i w.
Proof.
  intros Hterm. unfold SetInput_at in *.
  apply bind_extends. intros [input|] w1 Hslot; [|done].
  apply bind_finishes in Hterm as [_ Hterm]. specialize (Hterm _ _ Hslot).
  cbv beta iota in Hterm.
  destruct (As_ICanvasImageInternal input) as [hr internalInput].
  apply bind_extends. intros [] w2 Hqi.
  apply bind_finishes in Hterm as [_ Hterm]. specialize (Hterm _ _ Hqi).
  apply bind_finishes in Hterm as [Hterm _].
  unfold bind. destruct internalInput as [[b|hr' image]|]; try done.
  simpl in *. by rewrite extends.
Qed.

Lemma SetInputs_from_extends this dc k i w :
  SetInputs_from realize this dc k i w <> OutOfFuel ->
  SetInputs_from realize' this dc k i w = SetInputs_from realize this dc k i w.
Proof.
  revert i w. induction k as [|k IH]; intros i w; [done|].
  rewrite !SetInputs_from_S. intros Hterm.
  apply bind_finishes in Hterm as [Hat Hterm].
  unfold bind. rewrite SetInput_at_extends by done.
  destruct (SetInput_at realize this dc i w) as [[] w1|e w1| |] eqn:Heq; try done.
  apply IH. by eapply Hterm.
Qed.

Lemma GetD2DImage_body_extends this deviceContext w :
  GetD2DImage_body d2d realize this deviceContext w <> OutOfFuel ->
  GetD2DImage_body d2d realize' this deviceContext w =
    GetD2DImage_body d2d realize this deviceContext w.
Proof.
  destruct deviceContext as [dc|]; [|done].
  rewrite !GetD2DImage_body_Prologue. intros Hterm.
  apply bind_extends. intros wr w1 Hpro.
  apply bind_finishes in Hterm as [_ Hterm]. specialize (Hterm _ _ Hpro).
  apply bind_finishes in Hterm as [Hterm _].
  unfold bind. unfold ApplyInputs in *.
  assert (Heq : (n <- deref this;;
                 (if wr || IsChanged (m_inputs n) then SetInputs realize' this dc
                  else ret tt)) w1 =
                (n <- deref this;;
                 (if wr || IsChanged (m_inputs n) then SetInputs realize this dc
                  else ret tt)) w1); [|by rewrite Heq].
  apply bind_extends. intros n w2 Hn.
  apply bind_finishes in Hterm as [_ Hterm]. specialize (Hterm _ _ Hn).
  destruct (wr || IsChanged (m_inputs n)); [|done].
  unfold SetInputs in *.
  apply bind_extends. intros n' w3 Hn'.
  apply bind_finishes in Hterm as [_ Hterm]. specialize (Hterm _ _ Hn').
  apply bind_extends. intros r w4 Hr.
  apply bind_finishes in Hterm as [_ Hterm]. specialize (Hterm _ _ Hr).
  apply bind_extends. intros [] w5 Hc.
  apply bind_finishes in Hterm as [_ Hterm]. specialize (Hterm _ _ Hc).
  apply bind_finishes in Hterm as [Hterm _].
  unfold bind. by rewrite SetInputs_from_extends.
Qed.

End Extends.

Lemma GetD2DImage_fuel_S fuel this deviceContext w :
  GetD2DImage d2d fuel this deviceContext w <> OutOfFuel ->
  GetD2DImage d2d (S fuel) this deviceContext w = GetD2DImage d2d fuel this deviceContext w.
Proof.
  revert this deviceContext w. induction fuel as [|fuel IH]; intros this deviceContext w.
  { simpl. by intros H. }
  intros Hterm. change (GetD2DImage d2d (S (S fuel)) this deviceContext w)
    with (GetD2DImage_body d2d (GetD2DImage d2d (S fuel)) this deviceContext w).
  change (GetD2DImage d2d (S fuel) this deviceContext w)
    with (GetD2DImage_body d2d (GetD2DImage d2d fuel) this deviceContext w) in *.
  by apply GetD2DImage_body_extends.
Qed.

Lemma GetD2DImage_fuel_le fuel fuel' this deviceContext w :
  GetD2DImage d2d fuel this deviceContext w <> OutOfFuel ->
  (fuel <= fuel')%nat ->
  GetD2DImage d2d fuel' this deviceContext w = GetD2DImage d2d fuel this deviceContext w.
Proof.
  intros Hterm Hle. induction Hle as [|fuel' Hle IH]; [done|].
  rewrite GetD2DImage_fuel_S; [done|]. by rewrite IH.
Qed.

(** X11: on a graph of effects without a cycle the recursion ends.  When
    every chain of effects through the inputs that starts at [this] has
    fewer than [fuel] effects, all alive, the realization of [this] does
    not exhaust the recursion depth [fuel], and a larger budget gives the
    same result.  When moreover every object met on the way that does not
    implement [ICanvasImageInternal] fails the query for it, the
    realization returns or throws: it goes through no null or dangling
    pointer.  (An object that answers the query with success and no pointer
    is called through a null pointer.) *)
Theorem GetD2DImage_terminates fuel this deviceContext w :
  acyclic_within fuel w this = true ->
  GetD2DImage d2d fuel this deviceContext w <> OutOfFuel /\
  (forall fuel', (fuel <= fuel')%nat ->
     GetD2DImage d2d fuel' this deviceContext w =
       GetD2DImage d2d fuel this deviceContext w) /\
  (realizable_within fuel w this = true ->
   is_Some (state_after (GetD2DImage d2d fuel this deviceContext w))).
Proof.
  intros Hacyclic.
  assert (Hends : GetD2DImage d2d fuel this deviceContext w <> OutOfFuel).
  { pose proof (GetD2DImage_ends false fuel this deviceContext w Hacyclic) as H.
    by destruct (GetD2DImage d2d fuel this deviceContext w). }
  split; [done|]. split.
  - intros fuel' Hle. by apply GetD2DImage_fuel_le.
  - intros Hgraph.
    pose proof (GetD2DImage_ends true fuel this deviceContext w Hgraph) as H.
    by destruct (GetD2DImage d2d fuel this deviceContext w).
Qed.

(** ** An effect among its own inputs *)

Lemma own_input_calls this i c w : own_input this i w -> own_input this i (add_call c w).
Proof. intros (n & Hn & H). by exists n. Qed.

Lemma own_input_set_node this i x n' w :
  (x = this -> exists n, heap w !! this = Some n /\ m_inputs n' = m_inputs n) ->
  own_input this i w -> own_input this i (set_node x n' w).
Proof.
  intros Hx (n & Hn & Hc & Hi & Hslot). destruct (decide (x = this)) as [->|Hne].
  - destruct (Hx eq_refl) as (n0 & Hn0 & Heq). rewrite Hn in Hn0. injection Hn0 as <-.
    exists n'. rewrite heap_set_node_eq, Heq. done.
  - exists n. by rewrite heap_set_node_ne.
Qed.

Lemma keeps_own_input_Prologue this i x dc :
  keeps (own_input this i) (Prologue d2d x dc).
Proof.
  intros w Hw. destruct (heap w !! x) as [n|] eqn:Hn.
  2:{ unfold Prologue, CheckDevice, bind, deref. by rewrite Hn. }
  erewrite Prologue_run by eauto. cbv zeta.
  assert (Hp : own_input this i
                 (prepared_world x w (prepare d2d dc (allocated w) n))).
  { destruct Hw as (n0 & Hn0 & Hc & Hi & Hslot).
    destruct (decide (x = this)) as [->|Hne].
    - rewrite Hn in Hn0. injection Hn0 as <-.
      eexists. split; [apply prepared_world_lookup|]. by rewrite prepare_inputs.
    - exists n0. split; [|done]. simpl. by rewrite lookup_insert_ne. }
  by destruct (prepare d2d dc (allocated w) n).2.
Qed.

Section Own_input.

Variable this : EffectRef.
Variable i : nat.
Variable fuel : nat.
Variable dc : ID2D1DeviceContext.
Hypothesis inputs_keep : forall x, keeps (own_input this i) (GetD2DImage d2d fuel x (Some dc)).
Hypothesis never_returns : forall w img w',
  own_input this i w -> GetD2DImage d2d fuel this (Some dc) w <> Ret img w'.

Lemma own_input_loop_never_returns k j w w' :
  own_input this i w -> (j <= i < j + k)%nat ->
  SetInputs_from (GetD2DImage d2d fuel) this dc k j w <> Ret tt w'.
Proof.
  revert j w. induction k as [|k IH]; intros j w Hw Hj Hrun; [lia|].
  rewrite SetInputs_from_S in Hrun.
  apply bind_inv_Ret in Hrun as ([] & w1 & Hat & Hrun).
  destruct (decide (j = i)) as [->|Hne].
  - destruct Hw as (n & Hn & Hc & Hi & Hslot).
    erewrite SetInput_at_run in Hat by eauto. rewrite Hslot in Hat.
    cbn [As_ICanvasImageInternal fst snd] in Hat.
    change (S_OK =? E_NOINTERFACE) with false in Hat.
    change (FAILED S_OK) with false in Hat. cbv iota in Hat.
    apply bind_inv_Ret in Hat as (image & w2 & Himg & _).
    simpl in Himg. eapply never_returns; [|exact Himg]. by exists n.
  - apply (IH (S j) w1); [|lia|done].
    assert (Hk : keeps (own_input this i)
                   (SetInput_at (GetD2DImage d2d fuel) this dc j)).
    { apply keeps_SetInput_at; [|done]. intros c w0 ? ? ? _ _ _. apply own_input_calls. }
    specialize (Hk w Hw). by rewrite Hat in Hk.
Qed.

End Own_input.

(** X12: an effect that has itself among its inputs, the inputs being
    marked changed, is never realized.  No realization of it returns an
    image, whatever the recursion budget and the device; and no realization
    of any effect, one that has it as an input for instance, gets it out of
    that state: the slot and the flag are as they were when the call
    throws. *)
Theorem own_input_never_realized this i fuel x deviceContext w :
  own_input this i w ->
  match GetD2DImage d2d fuel x deviceContext w with
  | Ret _ w' => x <> this /\ own_input this i w'
  | Throw _ w' => own_input this i w'
  | Fault | OutOfFuel => True
  end.
Proof.
  revert x deviceContext w.
  induction fuel as [|fuel IH]; intros x deviceContext w Hw; [done|].
  destruct deviceContext as [dc|]; [|done].
  assert (Hkeep : forall y, keeps (own_input this i) (GetD2DImage d2d fuel y (Some dc))).
  { intros y w0 Hw0. specialize (IH y (Some dc) w0 Hw0).
    destruct (GetD2DImage d2d fuel y (Some dc) w0); try done. by destruct IH. }
  assert (Hnever : forall w0 img w', own_input this i w0 ->
            GetD2DImage d2d fuel this (Some dc) w0 <> Ret img w').
  { intros w0 img w' Hw0 Hrun. specialize (IH this (Some dc) w0 Hw0).
    rewrite Hrun in IH. by destruct IH. }
  assert (Hcalls : forall c w0 (x0 : EffectRef) (n0 : CanvasEffect) (r0 : ID2D1Effect),
            heap w0 !! x0 = Some n0 -> m_resource n0 = Some r0 -> target c = Some r0 ->
            own_input this i w0 -> own_input this i (add_call c w0)).
  { intros c w0 ? ? ? _ _ _. apply own_input_calls. }
  simpl. rewrite GetD2DImage_body_Prologue. unfold bind at 1.
  pose proof (keeps_own_input_Prologue this i x dc w Hw) as Hpro.
  destruct (Prologue d2d x dc w) as [wr w1|e w1| |]; try done.
  destruct (decide (x = this)) as [->|Hne].
  - (* the effect itself: the loop over its inputs comes to the slot *)
    destruct Hpro as (n1 & Hn1 & Hc & Hi & Hslot).
    unfold ApplyInputs. rewrite bind_bind. erewrite bind_deref by eauto.
    rewrite Hc, orb_true_r. unfold bind at 1. unfold SetInputs.
    erewrite bind_deref by eauto. unfold bind at 1.
    destruct (resource this w1) as [r w1'|e w1'| |] eqn:Hres; try done.
    2:{ by apply resource_no_Throw in Hres. }
    apply resource_inv in Hres as (-> & _).
    rewrite bind_record_call. unfold bind at 1.
    set (size := to_unsigned_int (length (InternalVector (m_inputs n1)))).
    set (w2 := add_call (Call_SetInputCount r size) w1).
    assert (Hw2 : own_input this i w2) by (apply own_input_calls; by exists n1).
    assert (Hk : keeps (own_input this i)
                   (SetInputs_from (GetD2DImage d2d fuel) this dc size 0)).
    { by apply keeps_SetInputs_from. }
    specialize (Hk w2 Hw2).
    destruct (SetInputs_from (GetD2DImage d2d fuel) this dc size 0 w2)
      as [[] w3|e w3| |] eqn:Hloop; try done.
    exfalso. eapply own_input_loop_never_returns; [| |exact Hw2| |exact Hloop];
      [done|done|]. unfold size. lia.
  - (* another effect *)
    assert (Hk : keeps (own_input this i)
                   (ApplyInputs (GetD2DImage d2d fuel) x dc wr ;; ReturnImage d2d x)).
    { apply keeps_bind; [|intros _; by apply keeps_ReturnImage].
      apply keeps_ApplyInputs; [done|done|].
      intros w0 Hw0. unfold modify. destruct (heap w0 !! x) as [n0|] eqn:Hn0; [|done].
      apply own_input_set_node; [|done]. by intros ->. }
    specialize (Hk w1 Hpro).
    by destruct ((ApplyInputs (GetD2DImage d2d fuel) x dc wr ;; ReturnImage d2d x) w1).
Qed.

End Realization_properties.

(** ** The theorems at work on the small graph *)

Local Open Scope nat_scope.

Lemma GetD2DImage_idempotent_witness :
  GetD2DImage Scenario.d2d 1 Scenario.A (Some Scenario.dc1') Scenario.realized
    = Ret Scenario.image_A Scenario.realized /\
  exists n r, heap Scenario.realized !! Scenario.A = Some n /\
    m_resource n = Some r /\ Scenario.image_A = EffectOutput r.
Proof.
  apply (GetD2DImage_idempotent Scenario.d2d 2 0 Scenario.A Scenario.dc1 Scenario.dc1'
           Scenario.built Scenario.image_A Scenario.realized);
    [vm_compute; reflexivity | reflexivity].
Defined.

Lemma Close_releases_only_resource_witness :
  exists w' n',
    Close Scenario.A Scenario.realized = Ret S_OK w' /\
    heap w' !! Scenario.A = Some n' /\
    m_resource n' = None /\
    m_previousDeviceIdentity n' = m_previousDeviceIdentity Scenario.A_realized /\
    m_properties n' = m_properties Scenario.A_realized /\
    m_inputs n' = m_inputs Scenario.A_realized /\
    m_effectId n' = m_effectId Scenario.A_realized /\
    (forall a, a <> Scenario.A -> heap w' !! a = heap Scenario.realized !! a) /\
    allocated w' = allocated Scenario.realized /\
    d2d_calls w' = d2d_calls Scenario.realized ++ released Scenario.A_realized /\
    (m_resource Scenario.A_realized = None -> w' = Scenario.realized) /\
    Close Scenario.A w' = Ret S_OK w'.
Proof.
  apply (Close_releases_only_resource Scenario.A Scenario.realized Scenario.A_realized).
  vm_compute. reflexivity.
Defined.

Lemma GetD2DImage_after_Close_applies_nothing_witness :
  exists n r w',
    heap Scenario.realized !! Scenario.A = Some n /\ m_resource n = Some r /\
    let r' := mkEffect (allocated Scenario.realized) (m_effectId n) 1 in
    (Close Scenario.A ;; GetD2DImage Scenario.d2d 2 Scenario.A (Some Scenario.dc1'))%m
      Scenario.realized = Ret (EffectOutput r') w' /\
    d2d_calls w' = d2d_calls Scenario.realized ++ [Call_Release r; Call_CreateEffect r'].
Proof.
  apply (GetD2DImage_after_Close_applies_nothing Scenario.d2d 2 1 Scenario.A
           Scenario.dc1 Scenario.dc1' Scenario.built Scenario.image_A Scenario.realized);
    [vm_compute; reflexivity | reflexivity | intros; reflexivity | intros; reflexivity].
Defined.

Lemma GetD2DImage_device_change_witness :
  let n := Scenario.A_realized in
  let w := Scenario.realized in
  let w' := Scenario.world_of (GetD2DImage Scenario.d2d 2 Scenario.A (Some Scenario.dc2) w) in
  let r := mkEffect (allocated w) (m_effectId n) (dc_identity Scenario.dc2) in
  EffectOutput (mkEffect 2 7 2) = EffectOutput r /\
  exists n' cs,
    heap w' !! Scenario.A = Some n' /\
    m_previousDeviceIdentity n' = Some (dc_identity Scenario.dc2) /\
    m_resource n' = Some r /\
    d2d_calls w' = d2d_calls w ++ released n ++ Call_CreateEffect r :: cs /\
    (forall i slot, InternalVector (m_properties n) !! i = Some slot ->
       exists p v, slot = Some p /\ marshal p = inr v /\ Call_SetValue r i v ∈ cs) /\
    Call_SetInputCount r (length (InternalVector (m_inputs n))) ∈ cs /\
    (forall j slot, InternalVector (m_inputs n) !! j = Some slot ->
       input_bound Scenario.d2d (dc_identity Scenario.dc2) r j slot w' cs).
Proof.
  destruct (GetD2DImage_device_change Scenario.d2d 1 Scenario.A Scenario.dc2
              Scenario.realized Scenario.A_realized) as (_ & _ & H);
    [vm_compute; reflexivity | discriminate |].
  apply H; [vm_compute; reflexivity | vm_compute; reflexivity | vm_compute; reflexivity].
Defined.

Lemma first_GetD2DImage_applies_all_witness :
  let w := Programs.pristine in
  let n := Scenario.effect_at w Scenario.A in
  let w' := Scenario.world_of (GetD2DImage Scenario.d2d 2 Scenario.A (Some Scenario.dc1) w) in
  let r := mkEffect (allocated w) (m_effectId n) (dc_identity Scenario.dc1) in
  (IsChanged (m_properties n) = false /\ IsChanged (m_inputs n) = false) /\
  Scenario.image_A = EffectOutput r /\
  exists cs,
    d2d_calls w' = d2d_calls w ++ released n ++ Call_CreateEffect r :: cs /\
    (forall i slot, InternalVector (m_properties n) !! i = Some slot ->
       exists p v, slot = Some p /\ marshal p = inr v /\ Call_SetValue r i v ∈ cs) /\
    Call_SetInputCount r (length (InternalVector (m_inputs n))) ∈ cs /\
    (forall j slot, InternalVector (m_inputs n) !! j = Some slot ->
       input_bound Scenario.d2d (dc_identity Scenario.dc1) r j slot w' cs).
Proof.
  split; [split; reflexivity|].
  destruct (first_GetD2DImage_applies_all Scenario.d2d Scenario.A) as [_ H].
  destruct (H 1 Scenario.dc1 Programs.pristine
              (Scenario.effect_at Programs.pristine Scenario.A))
    as [_ H'];
    [vm_compute; reflexivity | reflexivity |].
  apply H'; [vm_compute; reflexivity | vm_compute; reflexivity | vm_compute; reflexivity].
Defined.

Lemma wrong_input_type_witness :
  GetD2DImage Scenario.d2d 1 Scenario.A (Some Scenario.dc1) Scenario.foreign =
    Throw (mkException E_NOINTERFACE (Some (Format EffectWrongInputType 0)))
      (Scenario.before_inputs Scenario.foreign).
Proof.
  apply (wrong_input_type Scenario.d2d 0 Scenario.A Scenario.dc1 0 Scenario.foreign
           (Scenario.before_inputs Scenario.foreign)
           (Scenario.effect_at Scenario.foreign Scenario.A)
           (Input_Foreign E_NOINTERFACE)).
  - apply (reaches_first_input Scenario.d2d 0 Scenario.A Scenario.dc1 Scenario.foreign
             (Scenario.effect_at Scenario.foreign Scenario.A) true
             (Scenario.world_of (Prologue Scenario.d2d Scenario.A Scenario.dc1 Scenario.foreign))
             (mkEffect 0 7 1));
      [vm_compute; reflexivity | vm_compute; reflexivity | reflexivity
      | vm_compute; reflexivity | vm_compute; lia].
  - vm_compute; reflexivity.
  - reflexivity.
  - reflexivity.
Defined.


Lemma single_input_realized_once_witness :
  let r := mkEffect 0 7 1 in
  let w1' := Scenario.before_inputs Scenario.built in
  (* with a stand-in for the input: it is called once, for [B], on the
     device of the context given, after SetInputCount, and its image bound *)
  (exists w3,
     GetD2DImage_body Scenario.d2d Programs.probe Scenario.A (Some Scenario.dc1)
       Scenario.built = Ret (EffectOutput r) w3 /\
     d2d_calls w3 =
       d2d_calls w1' ++
       [Call_CreateEffect (mkEffect Scenario.B 0 1); Call_SetInput r 0 (Bitmap Scenario.B)]) /\
  (* with the realization of [B] itself *)
  exists w2,
    GetD2DImage Scenario.d2d 1 Scenario.B (Some Scenario.dc1) w1' =
      Ret (EffectOutput (mkEffect 1 8 1)) w2 /\
    GetD2DImage Scenario.d2d 2 Scenario.A (Some Scenario.dc1) Scenario.built =
      Ret (EffectOutput r) Scenario.realized /\
    d2d_calls Scenario.realized =
      d2d_calls w2 ++ [Call_SetInput r 0 (EffectOutput (mkEffect 1 8 1))].
Proof.
  destruct (single_input_realized_once Scenario.d2d Scenario.A Scenario.B Scenario.dc1
              Scenario.built (Scenario.effect_at Scenario.built Scenario.A) true
              (Scenario.world_of
                 (Prologue Scenario.d2d Scenario.A Scenario.dc1 Scenario.built)))
    as (r & Hr & Hbody & Hreal);
    [vm_compute; reflexivity | reflexivity | vm_compute; reflexivity | reflexivity |].
  vm_compute in Hr. injection Hr as <-. split.
  - eexists. rewrite Hbody. split; vm_compute; reflexivity.
  - destruct (Hreal 1) as [Hends Hrun].
    destruct Hends as [w2 Hw2]; [vm_compute; reflexivity|].
    vm_compute in Hw2. injection Hw2 as <-.
    eexists. split; [vm_compute; reflexivity|].
    split; vm_compute; reflexivity.
Defined.

Lemma unsupported_property_witness :
  let n := Scenario.effect_at Scenario.broken Scenario.B in
  exists w' n',
    GetD2DImage Scenario.d2d 1 Scenario.B (Some Scenario.dc1) Scenario.broken =
      Throw (mkException E_NOTIMPL None) w' /\
    heap w' !! Scenario.B = Some n' /\
    IsChanged (m_properties n') = IsChanged (m_properties n) /\
    (properties_tracked n -> IsChanged (m_properties n') = true).
Proof.
  destruct (unsupported_property Scenario.d2d Scenario.B) as [_ H].
  apply (H 0 Scenario.dc1 Scenario.broken (Scenario.effect_at Scenario.broken Scenario.B) 0
           (Scenario.single_array_value (replicate 7 0%Z))).
  - vm_compute; reflexivity.
  - right. reflexivity.
  - intros _. reflexivity.
  - reflexivity.
  - vm_compute; lia.
  - intros j slot r Hj. lia.
  - reflexivity.
  - left. split; [reflexivity|]. split; [reflexivity | discriminate].
Defined.

Lemma failed_GetD2DImage_is_not_retried_witness :
  IsChanged (m_properties (Scenario.effect_at Scenario.failed Scenario.A)) = false /\
  IsChanged (m_inputs (Scenario.effect_at Scenario.failed Scenario.A)) = false /\
  GetD2DImage Scenario.d2d 1 Scenario.A (Some Scenario.dc2') Scenario.failed =
    Ret (EffectOutput (mkEffect 2 7 2)) Scenario.failed.
Proof.
  apply (failed_GetD2DImage_is_not_retried Scenario.d2d 1 0 Scenario.A Scenario.dc2
           Scenario.dc2' Scenario.broken (Scenario.effect_at Scenario.broken Scenario.A)
           (mkException E_NOTIMPL None) Scenario.failed
           (Scenario.effect_at Scenario.failed Scenario.A) (mkEffect 2 7 2));
    [vm_compute; reflexivity | reflexivity | reflexivity | vm_compute; reflexivity
    | vm_compute; reflexivity | reflexivity | reflexivity | reflexivity].
Defined.

(** What the failed realization on the second device did: it released and
    re-created the effect of [A], applied its property and set its input
    count, released and re-created the effect of [B], and stopped at the
    property of [B]; no input was bound to the new effect of [A]. *)
Lemma Scenario_failed_calls :
  d2d_calls Scenario.failed =
    d2d_calls Scenario.broken ++
    [Call_Release (mkEffect 0 7 1);
     Call_CreateEffect (mkEffect 2 7 2);
     Call_SetValue (mkEffect 2 7 2) 0 (Value_UINT32 5%Z);
     Call_SetInputCount (mkEffect 2 7 2) 1;
     Call_Release (mkEffect 1 8 1);
     Call_CreateEffect (mkEffect 3 8 2)].
Proof. vm_compute. reflexivity. Qed.

(** The first realization, for comparison. *)
Lemma Scenario_realized_calls :
  d2d_calls Scenario.realized =
    [Call_CreateEffect (mkEffect 0 7 1);
     Call_SetValue (mkEffect 0 7 1) 0 (Value_UINT32 5%Z);
     Call_SetInputCount (mkEffect 0 7 1) 1;
     Call_CreateEffect (mkEffect 1 8 1);
     Call_SetValue (mkEffect 1 8 1) 0 (Value_UINT32 9%Z);
     Call_SetInputCount (mkEffect 1 8 1) 0;
     Call_SetInput (mkEffect 0 7 1) 0 (EffectOutput (mkEffect 1 8 1))].
Proof. vm_compute. reflexivity. Qed.

(** ** The further properties at work on the small graph *)

Lemma GetD2DImage_postcondition_witness :
  exists n' r,
    heap Scenario.realized !! Scenario.A = Some n' /\
    m_previousDeviceIdentity n' = Some (dc_identity Scenario.dc1) /\
    m_resource n' = Some r /\
    Scenario.image_A = EffectOutput r /\
    SUCCEEDED (As_ID2D1Image_hr Scenario.d2d r) = true /\
    IsChanged (m_properties n') = false /\
    IsChanged (m_inputs n') = false.
Proof.
  apply (GetD2DImage_postcondition Scenario.d2d 2 Scenario.A Scenario.dc1 Scenario.built
           Scenario.image_A Scenario.realized).
  vm_compute; reflexivity.
Defined.

Lemma GetD2DImage_memoized_witness :
  GetD2DImage Scenario.d2d 1 Scenario.A (Some Scenario.dc1') Programs.B_rewritten =
    Ret Scenario.image_A Programs.B_rewritten.
Proof.
  apply (GetD2DImage_memoized Scenario.d2d 2 0 Scenario.A Scenario.dc1 Scenario.dc1'
           Programs.rewrite_B Scenario.built Scenario.image_A Scenario.realized
           Programs.B_rewritten);
    [vm_compute; reflexivity | vm_compute; reflexivity | vm_compute; reflexivity
    | reflexivity].
Defined.

Lemma GetD2DImage_CreateEffect_fails_witness :
  exists w' n',
    GetD2DImage Scenario.d2d 1 Scenario.A (Some Programs.dc3) Scenario.realized =
      Throw (mkException E_FAIL None) w' /\
    heap w' = <[Scenario.A := n']> (heap Scenario.realized) /\
    allocated w' = allocated Scenario.realized /\
    d2d_calls w' = d2d_calls Scenario.realized ++ [Call_Release (mkEffect 0 7 1)] /\
    m_previousDeviceIdentity n' = Some 3 /\
    m_resource n' = None /\
    m_effectId n' = 7 /\
    m_properties n' = m_properties Scenario.A_realized /\
    m_inputs n' = m_inputs Scenario.A_realized.
Proof.
  apply (GetD2DImage_CreateEffect_fails Scenario.d2d 0 Scenario.A Programs.dc3
           Scenario.realized Scenario.A_realized);
    [vm_compute; reflexivity | left; discriminate | reflexivity].
Defined.

Lemma SetProperties_calls_witness :
  let this := Scenario.A in
  let w := Scenario.realized in
  let n := Scenario.A_realized in
  let r := mkEffect 0 7 1 in
  let slots := visited (InternalVector (m_properties n)) in
  exists vs,
    (length vs <= length slots)%nat /\
    (forall i v, vs !! i = Some v ->
       exists p, InternalVector (m_properties n) !! i = Some (Some p) /\
                 marshal p = inr v) /\
    (forall i v, vs !! i = Some v -> (S i < length vs)%nat ->
       SUCCEEDED (SetValue_hr Scenario.d2d r i v) = true) /\
    let w' := add_calls (imap (fun i v => Call_SetValue r i v) vs) w in
    match SetProperties Scenario.d2d this w with
    | Ret _ w1 =>
        w1 = w' /\ length vs = length slots /\
        forall i v, vs !! i = Some v -> SUCCEEDED (SetValue_hr Scenario.d2d r i v) = true
    | Throw e w1 =>
        w1 = w' /\ exn_message e = None /\
        ((exists v, vs !! (length vs - 1)%nat = Some v /\ (0 < length vs)%nat /\
            exn_hr e = SetValue_hr Scenario.d2d r (length vs - 1) v /\
            FAILED (exn_hr e) = true) \/
         (slots !! length vs = Some None /\ exn_hr e = E_POINTER) \/
         (exists p, slots !! length vs = Some (Some p) /\ marshal p = inl (exn_hr e)))
    | Fault | OutOfFuel => False
    end.
Proof.
  apply (SetProperties_calls Scenario.d2d Scenario.A Scenario.realized
           Scenario.A_realized (mkEffect 0 7 1));
    [vm_compute; reflexivity | reflexivity].
Defined.

Lemma GetD2DImage_properties_only_witness :
  let this := Scenario.A in
  let w := Programs.rewritten in
  let n := Scenario.effect_at Programs.rewritten Scenario.A in
  let r := mkEffect 0 7 1 in
  let slots := visited (InternalVector (m_properties n)) in
  exists vs,
    (forall i v, vs !! i = Some v ->
       exists p, slots !! i = Some (Some p) /\ marshal p = inr v) /\
    let applied := add_calls (imap (fun i v => Call_SetValue r i v) vs) w in
    let cleared := with_properties (SetChanged false (m_properties n)) n in
    match GetD2DImage Scenario.d2d 1 this (Some Scenario.dc1') w with
    | Ret img w' =>
        img = EffectOutput r /\ length vs = length slots /\
        w' = set_node this cleared applied
    | Throw e w' =>
        ((length vs < length slots)%nat \/ FAILED (exn_hr e) = true) /\ w' = applied \/
        length vs = length slots /\ exn_hr e = As_ID2D1Image_hr Scenario.d2d r /\
        w' = set_node this cleared applied
    | Fault | OutOfFuel => False
    end.
Proof.
  apply (GetD2DImage_properties_only Scenario.d2d 0 Scenario.A Scenario.dc1'
           Programs.rewritten (Scenario.effect_at Programs.rewritten Scenario.A)
           (mkEffect 0 7 1)); vm_compute; reflexivity.
Defined.

Lemma empty_property_slot_witness :
  exists w' n',
    GetD2DImage Scenario.d2d 1 Scenario.A (Some Scenario.dc1) Programs.constructed =
      Throw (mkException E_POINTER None) w' /\
    heap w' !! Scenario.A = Some n' /\
    m_properties n' = m_properties (Scenario.effect_at Programs.constructed Scenario.A).
Proof.
  destruct (empty_property_slot Scenario.d2d 0 Scenario.A Scenario.dc1 Programs.constructed
              (Scenario.effect_at Programs.constructed Scenario.A) 0) as [_ H];
    [vm_compute; reflexivity | reflexivity | vm_compute; lia | left; discriminate |].
  apply H; [intros; reflexivity | intros; lia].
Defined.

Lemma new_effect_with_properties_throws_witness :
  let hr := dc_CreateEffect Scenario.dc1 7 in
  let r := mkEffect (allocated initial) 7 (dc_identity Scenario.dc1) in
  exists w',
    GetD2DImage Scenario.d2d 1 Scenario.A (Some Scenario.dc1) Programs.constructed =
      Throw (mkException (if FAILED hr then hr else E_POINTER) None) w' /\
    d2d_calls w' =
      d2d_calls initial ++ (if FAILED hr then [] else [Call_CreateEffect r]) /\
    exists n', heap w' !! Scenario.A = Some n' /\
      m_resource n' = (if FAILED hr then None else Some r) /\
      m_properties n' = Make_Vector 1 true.
Proof.
  apply (new_effect_with_properties_throws Scenario.d2d 0 Scenario.A Scenario.dc1
           7 1 1 true S_OK initial Programs.constructed);
    [vm_compute; reflexivity | vm_compute; lia].
Defined.

Lemma input_failure_propagates_witness :
  GetD2DImage Scenario.d2d 1 Scenario.A (Some Scenario.dc1) Programs.bitmap_fails =
    Throw (mkException E_FAIL None) (Scenario.before_inputs Programs.bitmap_fails).
Proof.
  apply (input_failure_propagates Scenario.d2d 0 Scenario.A Scenario.dc1 0
           Programs.bitmap_fails (Scenario.before_inputs Programs.bitmap_fails)
           (Scenario.effect_at Programs.bitmap_fails Scenario.A)
           (Input_Internal (Internal_Image E_FAIL (Bitmap 0)))).
  - apply (reaches_first_input Scenario.d2d 0 Scenario.A Scenario.dc1 Programs.bitmap_fails
             (Scenario.effect_at Programs.bitmap_fails Scenario.A) true
             (Scenario.world_of
                (Prologue Scenario.d2d Scenario.A Scenario.dc1 Programs.bitmap_fails))
             (mkEffect 0 7 1));
      [vm_compute; reflexivity | vm_compute; reflexivity | reflexivity
      | vm_compute; reflexivity | vm_compute; lia].
  - vm_compute; reflexivity.
  - reflexivity.
  - reflexivity.
Defined.

Lemma GetD2DImage_binds_inputs_witness :
  exists r cs,
    Scenario.image_A = EffectOutput r /\
    d2d_calls Scenario.realized = d2d_calls Scenario.built ++ cs /\
    Call_SetInputCount r
      (to_unsigned_int
         (length (InternalVector (m_inputs (Scenario.effect_at Scenario.built Scenario.A)))))
      ∈ cs /\
    forall j slot,
      visited (InternalVector (m_inputs (Scenario.effect_at Scenario.built Scenario.A))) !! j
        = Some slot ->
      input_bound Scenario.d2d (dc_identity Scenario.dc1) r j slot Scenario.realized cs.
Proof.
  apply (GetD2DImage_binds_inputs Scenario.d2d 1 Scenario.A Scenario.dc1 Scenario.built
           (Scenario.effect_at Scenario.built Scenario.A) Scenario.image_A
           Scenario.realized);
    [vm_compute; reflexivity | left; discriminate | vm_compute; reflexivity].
Defined.

Lemma SetInput_round_trip_witness :
  d2d_calls Scenario.built = d2d_calls Scenario.unfilled /\
  exists r cs,
    Scenario.image_A = EffectOutput r /\
    d2d_calls Scenario.realized = d2d_calls Scenario.unfilled ++ cs /\
    input_bound Scenario.d2d (dc_identity Scenario.dc1) r 0 (Some Scenario.input_B)
      Scenario.realized cs.
Proof.
  apply (SetInput_round_trip Scenario.d2d 1 Scenario.A Scenario.dc1 0 Scenario.input_B
           Scenario.unfilled Scenario.built (Scenario.effect_at Scenario.built Scenario.A)
           Scenario.image_A Scenario.realized);
    vm_compute; reflexivity.
Defined.

Lemma Properties_SetAt_round_trip_witness :
  let w2 :=
    Scenario.world_of
      (GetD2DImage Scenario.d2d 1 Scenario.A (Some Scenario.dc1') Programs.rewritten) in
  d2d_calls Programs.rewritten = d2d_calls Scenario.realized /\
  exists r v cs,
    Scenario.image_A = EffectOutput r /\
    d2d_calls w2 = d2d_calls Scenario.realized ++ cs /\
    marshal (Scenario.uint32_value 6%Z) = inr v /\
    Call_SetValue r 0 v ∈ cs.
Proof.
  apply (Properties_SetAt_round_trip Scenario.d2d 0 Scenario.A Scenario.dc1' 0
           (Scenario.uint32_value 6%Z) Scenario.realized Programs.rewritten
           (Scenario.effect_at Programs.rewritten Scenario.A) Scenario.image_A);
    vm_compute; reflexivity.
Defined.

Lemma reachable_protocol_witness : protocol (d2d_calls Scenario.realized).
Proof.
  apply (reachable_protocol Scenario.d2d Scenario.realized).
  exists Programs.build_and_realize. vm_compute; reflexivity.
Defined.

Lemma GetD2DImage_terminates_witness :
  GetD2DImage Scenario.d2d 2 Scenario.A (Some Scenario.dc1) Scenario.built <> OutOfFuel /\
  (forall fuel', (2 <= fuel')%nat ->
     GetD2DImage Scenario.d2d fuel' Scenario.A (Some Scenario.dc1) Scenario.built =
       GetD2DImage Scenario.d2d 2 Scenario.A (Some Scenario.dc1) Scenario.built) /\
  is_Some (state_after
             (GetD2DImage Scenario.d2d 2 Scenario.A (Some Scenario.dc1) Scenario.built)).
Proof.
  destruct (GetD2DImage_terminates Scenario.d2d 2 Scenario.A (Some Scenario.dc1)
              Scenario.built) as (H1 & H2 & H3);
    [vm_compute; reflexivity|].
  split; [exact H1|]. split; [exact H2|]. apply H3. vm_compute; reflexivity.
Defined.

Lemma own_input_never_realized_witness :
  match GetD2DImage Scenario.d2d 5 Scenario.A (Some Scenario.dc1) Programs.looped with
  | Ret _ w' => Scenario.A <> Scenario.A /\ own_input Scenario.A 0 w'
  | Throw _ w' => own_input Scenario.A 0 w'
  | Fault | OutOfFuel => True
  end.
Proof.
  apply (own_input_never_realized Scenario.d2d Scenario.A 0 5 Scenario.A
           (Some Scenario.dc1) Programs.looped).
  exists (Scenario.effect_at Programs.looped Scenario.A).
  split; [vm_compute; reflexivity|]. split; [reflexivity|].
  split; [vm_compute; lia | reflexivity].
Defined.

Lemma reachable_owned_witness : World_owned Scenario.realized.
Proof.
  apply (reachable_owned Scenario.d2d Scenario.realized).
  exists Programs.build_and_realize. vm_compute; reflexivity.
Defined.

Lemma reachable_flags_witness :
  inputs_tracked Scenario.A_realized /\ properties_settled Scenario.A_realized.
Proof.
  apply (reachable_flags Scenario.d2d Scenario.realized Scenario.A Scenario.A_realized).
  - exists Programs.build_and_realize. vm_compute; reflexivity.
  - vm_compute; reflexivity.
Defined.

Lemma GetD2DImage_returns_live_resource_witness :
  exists n r,
    heap Scenario.realized !! Scenario.A = Some n /\
    EffectOutput (mkEffect 2 7 2) = EffectOutput r /\
    effect_device r = dc_identity Scenario.dc2 /\
    effect_clsid r = m_effectId n /\
    Call_CreateEffect r ∈
      d2d_calls (Scenario.world_of
                   (GetD2DImage Scenario.d2d 2 Scenario.A (Some Scenario.dc2)
                      Scenario.realized)) /\
    (Call_Release r ∉
      d2d_calls (Scenario.world_of
                   (GetD2DImage Scenario.d2d 2 Scenario.A (Some Scenario.dc2)
                      Scenario.realized))) /\
    forall b nb,
      heap (Scenario.world_of
              (GetD2DImage Scenario.d2d 2 Scenario.A (Some Scenario.dc2)
                 Scenario.realized)) !! b = Some nb ->
      m_resource nb = Some r -> b = Scenario.A.
Proof.
  apply (GetD2DImage_returns_live_resource Scenario.d2d 2 Scenario.A Scenario.dc2
           Scenario.realized).
  - exists Programs.build_and_realize. vm_compute; reflexivity.
  - vm_compute; reflexivity.
Defined.

Lemma get_EffectId_stable_witness :
  get_EffectId Scenario.A (Some tt) Scenario.realized = Ret (S_OK, 7) Scenario.realized.
Proof.
  apply (get_EffectId_stable Scenario.d2d (tail Programs.build_and_realize) Scenario.A
           7 1 1 true S_OK initial Programs.constructed Scenario.realized);
    vm_compute; reflexivity.
Defined.

Lemma GetD2DImage_local_witness :
  match GetD2DImage Scenario.d2d 1 Scenario.B (Some Scenario.dc1) Scenario.built with
  | Ret _ w' | Throw _ w' =>
      forall b, b ∉ [Scenario.B] -> heap w' !! b = heap Scenario.built !! b
  | Fault | OutOfFuel => True
  end.
Proof.
  apply (GetD2DImage_local Scenario.d2d [Scenario.B] 1 Scenario.B (Some Scenario.dc1)
           Scenario.built);
    [vm_compute; reflexivity | apply list_elem_of_here].
Defined.
